(** * A model of the organizations / devices / gyms REST backend

    The routers of [routes/organizations.js], [routes/devices.js] and
    [routes/gyms-routes.js] are embedded as functions over an explicit
    document store.  JSON values are an inductive type, JavaScript
    objects used as maps are [gmap string _], the Firestore database is a
    finite map from collection paths to collections of documents, and a
    handler is a computation in a small state-and-exception monad whose
    exceptions are the ones the [try { ... } catch] of the handler turns
    into a 500 response.  The account routes of [routes/auth.js] and
    [routes/signup.js] follow at the end, over the same store, with the
    calls to the identity provider as parameters.

    Console output is not modelled: it never reaches the caller. *)

From stdpp Require Import gmap strings list fin_maps pretty.

#[local] Set Warnings "-register-all".
#[local] Open Scope string_scope.

(** ** JSON values and JavaScript truthiness

    Numbers are the integers: no handler computes with a number, and a
    fractional one would only ever be stored or compared as it is. *)

Inductive value :=
  | VNull
  | VBool (b : bool)
  | VNum (n : Z)
  | VStr (s : string)
  | VArr (l : list value)
  | VObj (m : gmap string value).

Global Instance value_eq_dec : EqDecision value.
Proof.
  refine (fix go (v1 v2 : value) {struct v1} : Decision (v1 = v2) :=
    match v1, v2 with
    | VNull, VNull => left _
    | VBool b1, VBool b2 => cast_if (decide (b1 = b2))
    | VNum n1, VNum n2 => cast_if (decide (n1 = n2))
    | VStr s1, VStr s2 => cast_if (decide (s1 = s2))
    | VArr l1, VArr l2 => cast_if (@list_eq_dec _ go l1 l2)
    | VObj m1, VObj m2 => cast_if (@gmap_eq_dec _ _ _ _ go m1 m2)
    | _, _ => right _
    end); clear go; abstract congruence.
Defined.

Global Instance value_inhabited : Inhabited value := populate VNull.

(** A document, a request body, a query string: a JavaScript object whose
    properties hold JSON values.  A property that is not in the map reads
    as [undefined], which is why a read is an [option value]. *)
Abbreviation doc := (gmap string value).

(** [if (v)] on a JSON value: [null], [false], [0] and the empty string
    are falsy, every array and object is truthy. *)
Definition truthy (v : value) : bool :=
  match v with
  | VNull => false
  | VBool b => b
  | VNum n => negb (n =? 0)%Z
  | VStr s => negb (String.eqb s "")
  | VArr _ | VObj _ => true
  end.

(** [if (x)] where [x] may be [undefined]. *)
Definition truthy_opt (o : option value) : bool :=
  match o with
  | Some v => truthy v
  | None => false
  end.

(** [x !== undefined] *)
Definition defined (o : option value) : bool :=
  match o with
  | Some _ => true
  | None => false
  end.

(** [x || d] with [d] a defined value. *)
Definition js_or (o : option value) (d : value) : value :=
  match o with
  | Some v => if truthy v then v else d
  | None => d
  end.

(** [if (s)] on a string that may be [undefined] (a cookie, a header). *)
Definition truthy_str (o : option string) : bool :=
  match o with
  | Some s => negb (String.eqb s "")
  | None => false
  end.

(** ** The two string methods the authenticator uses *)

(** [s.startsWith(p)] *)
Definition startsWith (s p : string) : bool := String.prefix p s.

(** [s.split(sep)] for a non-empty separator: the pieces between the
    successive, non-overlapping occurrences of [sep], scanned from the
    left.  [skip] counts the characters of a matched separator that are
    still to be passed over; [cur] is the piece being collected. *)
Fixpoint split_go (sep : string) (skip : nat) (cur : string) (s : string)
  : list string :=
  match s with
  | EmptyString => [cur]
  | String c s' =>
      match skip with
      | S k => split_go sep k cur s'
      | O =>
          if String.prefix sep s
          then cur :: split_go sep (String.length sep - 1) "" s'
          else split_go sep 0 (cur +:+ String c "") s'
      end
  end.

Definition split (s sep : string) : list string := split_go sep 0 "" s.

(** [sep] occurs somewhere in [s]. *)
Fixpoint occurs (sep s : string) : bool :=
  String.prefix sep s ||
  match s with
  | EmptyString => false
  | String _ s' => occurs sep s'
  end.

(** [authHeader.split('Bearer ')[1]] *)
Definition bearer_token (authHeader : string) : option string :=
  split authHeader "Bearer " !! 1%nat.

(** What is left of [s] once the prefix [p] is taken off, when [s]
    starts with [p]. *)
Fixpoint strip_prefix (p s : string) : option string :=
  match p, s with
  | EmptyString, _ => Some s
  | String a p', String b s' =>
      if Ascii.eqb a b then strip_prefix p' s' else None
  | String _ _, EmptyString => None
  end.

(** The text after the literal prefix ["Bearer "], when [h] starts with it. *)
Definition after_bearer (h : string) : option string := strip_prefix "Bearer " h.

(** ** The document store

    A Firestore database: collections addressed by their path, each a
    finite map from document ids to documents.  Gyms live in the
    sub-collection [organizations/<orgId>/gyms]; the sub-collection of an
    organization is a collection of its own, whether or not the
    organization document exists.

    The keys of a collection are document ids, which are single path
    segments that the store accepts ([segment]).  The store operations
    below take the id they are given as such a key.  The store client
    itself reads the argument of [doc()] as a path ([locate], further
    down): on a document id that is the same thing ([locate_segment]),
    and the statements that depend on it say so; on any other string it
    is not, and what a handler does then is outside these operations
    ([get_gyms_by_path] shows it for one handler). *)

Definition path := list string.
Abbreviation collection := (gmap string doc).
Abbreviation db := (gmap path collection).

Definition organizations : path := ["organizations"].
Definition devices : path := ["devices"].
Definition audit_logs : path := ["audit_logs"].
Definition gyms (orgId : string) : path := ["organizations"; orgId; "gyms"].

(** The documents of [db.collection(c)]; a collection nobody wrote to is
    empty. *)
Definition coll (s : db) (c : path) : gmap string doc := default ∅ (s !! c).

Definition set_doc (c : path) (id : string) (d : doc) (s : db) : db :=
  <[c := <[id := d]> (coll s c)]> s.

(** The store's constraints on a document id: at most 1500 bytes, no
    slash, neither ["."] nor [".."], and not of the form [__.*__]. *)
Definition reserved (id : string) : bool :=
  Nat.leb 4 (String.length id) && String.prefix "__" id
  && String.prefix "__" (String.rev id).

Definition document_id (id : string) : bool :=
  negb (String.eqb id "") && negb (occurs "/" id)
  && negb (String.eqb id ".") && negb (String.eqb id "..")
  && negb (reserved id) && Nat.leb (String.length id) 1500.

(** A document id: a single path segment that the store accepts. *)
Definition segment (id : string) : Prop := document_id id = true.

(** A query snapshot: the documents found, with their ids. *)
Abbreviation snapshot := (list (string * doc)).

Definition snapshot_empty (q : snapshot) : bool :=
  match q with
  | [] => true
  | _ :: _ => false
  end.

(** ** Handlers as computations

    A handler body runs against the store and either produces a value or
    throws; what it wrote before throwing stays written (nothing here is
    transactional except the batch commit). *)

Inductive outcome (A : Type) :=
  | Ok (a : A)
  | Threw (message : string).
Arguments Ok {A} a.
Arguments Threw {A} message.

Definition M (A : Type) : Type := db → outcome A * db.

Definition ret {A} (a : A) : M A := λ s, (Ok a, s).
Definition throw {A} (message : string) : M A := λ s, (Threw message, s).
Definition bind {A B} (m : M A) (k : A → M B) : M B :=
  λ s, match m s with
       | (Ok a, s') => k a s'
       | (Threw e, s') => (Threw e, s')
       end.

Notation "'let*' x := m 'in' k" := (bind m (λ x, k))
  (at level 10, x name, m at level 100, k at level 200).
Notation "'run' m 'in' k" := (bind m (λ _, k))
  (at level 10, m at level 100, k at level 200).

(** A JavaScript object literal handed to the store, in source order.  A
    property may hold [undefined] ([None]); the store client refuses such
    an object. *)
Abbreviation literal := (list (string * option value)).

Fixpoint fields_go (acc : doc) (l : literal) : option doc :=
  match l with
  | [] => Some acc
  | (k, Some v) :: l' => fields_go (<[k := v]> acc) l'
  | (_, None) :: _ => None
  end.

Definition fields (l : literal) : option doc := fields_go ∅ l.

(** *** Document paths

    [c.doc(documentPath)] as the store client runs it.  The argument has
    to be a non-empty string without ["//"]; it is cut at every ["/"],
    the empty pieces are dropped, and what is left is appended to the
    path of the collection.  The result has to name a document, that is,
    have an even number of components (collection, document, collection,
    document, ...): its last component is the id of the document, the
    ones before it are its collection. *)
Definition components (documentPath : string) : list string :=
  filter (λ piece, piece ≠ "") (split documentPath "/").

Definition quoted (s : string) : string :=
  String (Ascii.ascii_of_nat 34) (s +:+ String (Ascii.ascii_of_nat 34) "").

Definition not_a_resource_path (why : string) : string :=
  "Value for argument " +:+ quoted "documentPath"
  +:+ " is not a valid resource path. " +:+ why.

Definition not_a_document (documentPath : string) : string :=
  "Value for argument " +:+ quoted "documentPath"
  +:+ " must point to a document, but was " +:+ quoted documentPath
  +:+ ". Your path does not contain an even number of components.".

Definition locate (c : path) (documentPath : string) : outcome (path * string) :=
  if String.eqb documentPath "" then
    Threw (not_a_resource_path "Path must be a non-empty string.")
  else if occurs "//" documentPath then
    Threw (not_a_resource_path "Paths must not contain //.")
  else
    let p := (c ++ components documentPath)%list in
    if Nat.even (length p) then Ok (removelast p, List.last p "")
    else Threw (not_a_document documentPath).

Definition located (c : path) (documentPath : string) : M (path * string) :=
  λ s, (locate c documentPath, s).

(** [c.doc(id)] for an id taken from the body or the query string of a
    request, as a document id: the client throws unless the id is a
    non-empty string.  (For a string with a slash, see [locate].) *)
Definition docRef (v : option value) : M string :=
  match v with
  | Some (VStr s) =>
      if String.eqb s "" then
        throw (not_a_resource_path "Path must be a non-empty string.")
      else ret s
  | _ => throw (not_a_resource_path "Path must be a non-empty string.")
  end.

(** [await c.doc(id).get()] for a document id; [None] is a snapshot with
    [exists === false]. *)
Definition get (c : path) (id : string) : M (option doc) :=
  λ s, (Ok (coll s c !! id), s).

(** The documents of a collection whose [field] equals [v]. *)
Definition matching (field : string) (v : value) (c : gmap string doc)
  : gmap string doc :=
  filter (λ kv, kv.2 !! field = Some v) c.

(** [await c.where(field, "==", v).get()]; the client refuses [undefined]
    as the value to compare with. *)
Definition where_eq (c : path) (field : string) (v : option value) : M snapshot :=
  match v with
  | Some v => λ s, (Ok (map_to_list (matching field v (coll s c))), s)
  | None => throw "Cannot use undefined as a Firestore value"
  end.

(** [.limit(n)] on a query *)
Definition limit (n : nat) (q : M snapshot) : M snapshot :=
  let* r := q in ret (take n r).

(** [await ref.update(data)]: the fields of [data] replace the fields of
    the same name, every other field stays; the document must exist. *)
Definition update (c : path) (id : string) (data : literal) : M unit :=
  match fields data with
  | None => throw "Cannot use undefined as a Firestore value"
  | Some d =>
      λ s, match coll s c !! id with
           | Some old => (Ok (), set_doc c id (d ∪ old) s)
           | None => (Threw "NOT_FOUND: No document to update", s)
           end
  end.

(** [await ref.delete()] *)
Definition delete_doc (c : path) (id : string) : M unit :=
  λ s, (Ok (), <[c := delete id (coll s c)]> s).

(** A write batch: the updates staged so far, oldest first. *)
Abbreviation batch := (list (path * string * doc)).

(** [batch.update(ref, data)] checks [data] at once and stages it. *)
Definition batch_update (b : batch) (c : path) (id : string) (data : literal)
  : M batch :=
  match fields data with
  | None => throw "Cannot use undefined as a Firestore value"
  | Some d => ret (b ++ [(c, id, d)])%list
  end.

Definition apply_update (s : db) (w : path * string * doc) : db :=
  let '(c, id, d) := w in
  match coll s c !! id with
  | Some old => set_doc c id (d ∪ old) s
  | None => s
  end.

Definition staged_exists (s : db) (w : path * string * doc) : bool :=
  let '(c, id, _) := w in bool_decide (is_Some (coll s c !! id)).

(** [await batch.commit()]: all staged updates or none. *)
Definition commit (b : batch) : M unit :=
  λ s, if forallb (staged_exists s) b
       then (Ok (), foldl apply_update s b)
       else (Threw "NOT_FOUND: No document to update", s).

(** ** Responses *)

Record response := { status : nat; json : value }.

(** An object literal of a response body. *)
Definition obj (l : list (string * value)) : value :=
  VObj (foldl (λ m kv, <[kv.1 := kv.2]> m) ∅ l).

(** [{ id: doc.id, ...doc.data() }] *)
Definition with_id (id : string) (d : doc) : value :=
  VObj (d ∪ {["id" := VStr id]}).

(** [res.json(body)] and [res.status(code).json(body)] *)
Definition res_json (body : list (string * value)) : response :=
  {| status := 200; json := obj body |}.
Definition res_status_json (code : nat) (body : list (string * value)) : response :=
  {| status := code; json := obj body |}.

(** [try { ... } catch (error) { res.status(500).json(...) }] *)
Definition try_catch (m : M response) (handler : string → response)
  : db → response * db :=
  λ s, match m s with
       | (Ok r, s') => (r, s')
       | (Threw e, s') => (handler e, s')
       end.

(** ** The session authenticator ([verifyAuth])

    The three routers carry the same middleware; the copy of
    [routes/devices.js] answers a request without credentials with the
    message ["Unauthorized"], the other two with
    ["Unauthorized - No valid authentication found"]. *)

(** The decoded claim set; [uid] is the user id the handlers read. *)
Record claims := { uid : string }.

Record request := {
  cookies : gmap string string;
  headers : gmap string string;
  user : option claims
}.

(** What the middleware does with a request: hand it on ([next()]) or
    answer it. *)
Inductive auth_step :=
  | Next (req : request)
  | Respond (r : response).

Definition attach (req : request) (c : claims) : request :=
  {| cookies := cookies req; headers := headers req; user := Some c |}.

Definition invalid_token : response :=
  res_status_json 401 [("error", VStr "Unauthorized - Invalid token")].

Section Authenticator.
  (** The identity provider: each call returns the decoded claims or
      throws, with a message that says why. *)
  Variable verifySessionCookie : string → bool → outcome claims.
  Variable verifyIdToken : option string → outcome claims.
  (** The message of the 401 sent when no credential is found. *)
  Variable no_credentials : string.

(** [req.user = decodedClaims; next()], or the [catch] branch. *)
Definition finish (req : request) (decodedClaims : outcome claims) : auth_step :=
  match decodedClaims with
  | Ok c => Next (attach req c)
  | Threw _ => Respond invalid_token
  end.

(** [authHeader && authHeader.startsWith('Bearer ')] *)
Definition is_bearer (authHeader : option string) : bool :=
  match authHeader with
  | Some h => startsWith h "Bearer "
  | None => false
  end.

Definition verifyAuth (req : request) : auth_step :=
  let sessionCookie := cookies req !! "session" in
  let authHeader := headers req !! "authorization" in
  if truthy_str sessionCookie then
    finish req (verifySessionCookie (default "" sessionCookie) true)
  else if is_bearer authHeader then
    finish req (verifyIdToken (authHeader ≫= bearer_token))
  else
    Respond (res_status_json 401 [("error", VStr no_credentials)]).

(** The authenticator as the specification words it: a cookie that is
    present is verified, whatever its value; otherwise the text after
    ["Bearer "] is verified; otherwise the request is rejected. *)
Definition spec_verifyAuth (req : request) : auth_step :=
  match cookies req !! "session" with
  | Some c => finish req (verifySessionCookie c true)
  | None =>
      match headers req !! "authorization" with
      | Some h =>
          match after_bearer h with
          | Some t => finish req (verifyIdToken (Some t))
          | None => Respond (res_status_json 401 [("error", VStr no_credentials)])
          end
      | None => Respond (res_status_json 401 [("error", VStr no_credentials)])
      end
  end.

End Authenticator.

Definition organizations_no_credentials : string :=
  "Unauthorized - No valid authentication found".
Definition devices_no_credentials : string := "Unauthorized".
Definition gyms_no_credentials : string :=
  "Unauthorized - No valid authentication found".

(** ** The resource handlers *)

(** [if (cond) updateData[k] = v] *)
Definition set_if (cond : bool) (k : string) (v : option value) : literal :=
  if cond then [(k, v)] else [].

(** [a !== b] between a value of the request body and a stored field:
    primitives compare by value, an array or an object of the body is
    never the stored one. *)
Definition strict_neq (a b : option value) : bool :=
  match a, b with
  | Some (VArr _), _ | Some (VObj _), _ => true
  | _, _ => negb (bool_decide (a = b))
  end.

(** [snapshot.forEach(doc => list.push({ id: doc.id, ...doc.data() }))] *)
Definition listed (q : snapshot) : value :=
  VArr (map (λ kv, with_id kv.1 kv.2) q).

Definition count (q : snapshot) : value := VNum (Z.of_nat (length q)).

Section Handlers.
  (** [now n] is what the n-th [new Date().toISOString()] of the request
      returns. *)
  Variable now : nat → string.
  (** The id the store generates for the document a request adds. *)
  Variable newId : string.
  (** JavaScript's [parseInt] and [parseFloat] on a JSON value. *)
  Variable parseInt : value → value.
  Variable parseFloat : value → value.
  (** [c.orderBy("createdAt", "desc").limit(n).get()]: the store's
      ordering and limit, on the documents of the collection. *)
  Variable orderBy_createdAt_desc : gmap string doc → value → outcome snapshot.

(** [await c.add(data)]: a new document under a generated id. *)
Definition add (c : path) (data : literal) : M string :=
  match fields data with
  | None => throw "Cannot use undefined as a Firestore value"
  | Some d =>
      λ s, match coll s c !! newId with
           | None => (Ok newId, set_doc c newId d s)
           | Some _ => (Threw "ALREADY_EXISTS: Document already exists", s)
           end
  end.

Definition ordered (c : path) (n : value) : M snapshot :=
  λ s, (orderBy_createdAt_desc (coll s c) n, s).

Definition stamp (n : nat) : option value := Some (VStr (now n)).

(** *** [routes/organizations.js] *)

Definition organizations_failed (what : string) (e : string) : response :=
  res_status_json 500 [("error", VStr what); ("message", VStr e)].

(** [GET /organizations] *)
Definition get_organizations (query : doc) : db → response * db :=
  try_catch
    (let lim := default (VNum 100) (query !! "limit") in
     let organizationId := query !! "organizationId" in
     if truthy_opt organizationId then
       let* id := docRef organizationId in
       let* d := get organizations id in
       match d with
       | None => ret (res_status_json 404 [("error", VStr "Organization not found")])
       | Some data =>
           ret (res_json [("success", VBool true); ("data", with_id id data)])
       end
     else
       let* q := ordered organizations (parseInt lim) in
       ret (res_json [("success", VBool true); ("data", listed q); ("count", count q)]))
    (organizations_failed "Failed to fetch organizations").

(** [POST /organizations] *)
Definition post_organizations (u : claims) (body : doc) : db → response * db :=
  try_catch
    (let name := body !! "name" in
     let email := body !! "email" in
     let phone := body !! "phone" in
     let address := body !! "address" in
     let status := body !! "status" in
     if negb (truthy_opt name) || negb (truthy_opt email) then
       ret (res_status_json 400
              [("error", VStr "Validation failed");
               ("details", VArr [VStr "Name and email are required"])])
     else
       let* existingOrg := limit 1 (where_eq organizations "email" email) in
       if negb (snapshot_empty existingOrg) then
         ret (res_status_json 409
                [("error", VStr "Organization with this email already exists")])
       else
         let organizationData :=
           [("name", name); ("email", email);
            ("phone", Some (js_or phone (VStr "")));
            ("address", Some (js_or address (VStr "")));
            ("status", Some (js_or status (VStr "active")));
            ("createdAt", stamp 0); ("updatedAt", stamp 1);
            ("createdBy", Some (VStr (uid u)))] in
         let* id := add organizations organizationData in
         let* createdDoc := get organizations id in
         ret (res_status_json 201
                [("success", VBool true);
                 ("message", VStr "Organization created successfully");
                 ("data", with_id id (default ∅ createdDoc))]))
    (organizations_failed "Failed to create organization").

(** [PUT /organizations/:id] *)
Definition put_organizations_id (u : claims) (id : string) (body : doc)
  : db → response * db :=
  try_catch
    (let name := body !! "name" in
     let email := body !! "email" in
     let phone := body !! "phone" in
     let address := body !! "address" in
     let status := body !! "status" in
     let* d := get organizations id in
     match d with
     | None =>
         ret (res_status_json 404
                [("success", VBool false); ("error", VStr "Organization not found")])
     | Some _ =>
         let updateData :=
           ([("updatedAt", stamp 0); ("lastModifiedBy", Some (VStr (uid u)))]
            ++ set_if (truthy_opt name) "name" name
            ++ set_if (truthy_opt email) "email" email
            ++ set_if (defined phone) "phone" phone
            ++ set_if (defined address) "address" address
            ++ set_if (truthy_opt status) "status" status)%list in
         run update organizations id updateData in
         let* updatedDoc := get organizations id in
         ret (res_json
                [("success", VBool true);
                 ("message", VStr "Organization updated successfully");
                 ("data", with_id id (default ∅ updatedDoc))])
     end)
    (organizations_failed "Failed to update organization").

(** [DELETE /organizations/:id] *)
Definition delete_organizations_id (u : claims) (id : string)
  : db → response * db :=
  try_catch
    (let* d := get organizations id in
     match d with
     | None =>
         ret (res_status_json 404
                [("success", VBool false); ("error", VStr "Organization not found")])
     | Some data =>
         let* devicesSnapshot :=
           limit 1 (where_eq devices "organizationId" (Some (VStr id))) in
         if negb (snapshot_empty devicesSnapshot) then
           ret (res_status_json 409
                  [("error", VStr "Cannot delete organization with associated devices");
                   ("message", VStr "Please reassign or delete all devices first")])
         else
           run delete_doc organizations id in
           run add audit_logs
                 [("action", Some (VStr "delete_organization"));
                  ("organizationId", Some (VStr id));
                  ("performedBy", Some (VStr (uid u)));
                  ("timestamp", stamp 0);
                  ("details", Some (VObj data))] in
           ret (res_json
                  [("success", VBool true);
                   ("message", VStr "Organization deleted successfully")])
     end)
    (organizations_failed "Failed to delete organization").

(** *** [routes/devices.js] *)

Definition devices_failed (what : string) (e : string) : response :=
  res_status_json 500 [("error", VStr what); ("message", VStr e)].

(** [(await db.collection("organizations").doc(organizationId).get()).data()?.name] *)
Definition organization_name (organizationId : option value) : M (option value) :=
  let* oid := docRef organizationId in
  let* orgDoc := get organizations oid in
  ret (orgDoc ≫= (λ o, o !! "name")).

(** [POST /devices] *)
Definition post_devices (u : claims) (body : doc) : db → response * db :=
  try_catch
    (let deviceName := body !! "deviceName" in
     let type := body !! "type" in
     let serialNumber := body !! "serialNumber" in
     let model := body !! "model" in
     let manufacturer := body !! "manufacturer" in
     let organizationId := body !! "organizationId" in
     let status := body !! "status" in
     let location := body !! "location" in
     let ipAddress := body !! "ipAddress" in
     let macAddress := body !! "macAddress" in
     if negb (truthy_opt deviceName) || negb (truthy_opt type)
        || negb (truthy_opt serialNumber) then
       ret (res_status_json 400
              [("error", VStr "Validation failed");
               ("details",
                VArr [VStr "Device name, type, and serial number are required"])])
     else
       let* existingDevice := limit 1 (where_eq devices "serialNumber" serialNumber) in
       if negb (snapshot_empty existingDevice) then
         ret (res_status_json 409
                [("error", VStr "Device with this serial number already exists")])
       else
         let* orgFound :=
           (if truthy_opt organizationId then
              let* oid := docRef organizationId in
              let* orgDoc := get organizations oid in
              ret (bool_decide (is_Some orgDoc))
            else ret true) in
         if negb orgFound then
           ret (res_status_json 404 [("error", VStr "Organization not found")])
         else
           let* organizationName :=
             (if truthy_opt organizationId then organization_name organizationId
              else ret (Some (VStr "Unassigned"))) in
           let deviceData :=
             [("deviceName", deviceName); ("type", type);
              ("serialNumber", serialNumber);
              ("model", Some (js_or model (VStr "")));
              ("manufacturer", Some (js_or manufacturer (VStr "")));
              ("organizationId", Some (js_or organizationId VNull));
              ("organizationName", organizationName);
              ("status", Some (js_or status (VStr "active")));
              ("location", Some (js_or location (VStr "")));
              ("ipAddress", Some (js_or ipAddress (VStr "")));
              ("macAddress", Some (js_or macAddress (VStr "")));
              ("createdAt", stamp 0); ("updatedAt", stamp 1);
              ("createdBy", Some (VStr (uid u)))] in
           let* id := add devices deviceData in
           let* createdDoc := get devices id in
           ret (res_status_json 201
                  [("success", VBool true);
                   ("message", VStr "Device created successfully");
                   ("data", with_id id (default ∅ createdDoc))]))
    (devices_failed "Failed to create device").

(** The organization part of the update of a device: [None] when the
    organization named by the body does not exist. *)
Definition organization_assignment (organizationId : option value)
  : M (option literal) :=
  if defined organizationId then
    if truthy_opt organizationId then
      let* oid := docRef organizationId in
      let* orgDoc := get organizations oid in
      match orgDoc with
      | None => ret None
      | Some o =>
          ret (Some [("organizationId", organizationId);
                     ("organizationName", o !! "name")])
      end
    else
      ret (Some [("organizationId", Some VNull);
                 ("organizationName", Some (VStr "Unassigned"))])
  else ret (Some []).

(** [PUT /devices/:id] *)
Definition put_devices_id (u : claims) (id : string) (body : doc)
  : db → response * db :=
  try_catch
    (let deviceName := body !! "deviceName" in
     let type := body !! "type" in
     let serialNumber := body !! "serialNumber" in
     let model := body !! "model" in
     let manufacturer := body !! "manufacturer" in
     let organizationId := body !! "organizationId" in
     let status := body !! "status" in
     let location := body !! "location" in
     let ipAddress := body !! "ipAddress" in
     let macAddress := body !! "macAddress" in
     let* d := get devices id in
     match d with
     | None =>
         ret (res_status_json 404
                [("success", VBool false); ("error", VStr "Device not found")])
     | Some data =>
         let* taken :=
           (if truthy_opt serialNumber
               && strict_neq serialNumber (data !! "serialNumber") then
              let* existingDevice :=
                limit 1 (where_eq devices "serialNumber" serialNumber) in
              ret (negb (snapshot_empty existingDevice))
            else ret false) in
         if taken then
           ret (res_status_json 409
                  [("error", VStr "Device with this serial number already exists")])
         else
           let updateData :=
             ([("updatedAt", stamp 0); ("lastModifiedBy", Some (VStr (uid u)))]
              ++ set_if (truthy_opt deviceName) "deviceName" deviceName
              ++ set_if (truthy_opt type) "type" type
              ++ set_if (truthy_opt serialNumber) "serialNumber" serialNumber
              ++ set_if (defined model) "model" model
              ++ set_if (defined manufacturer) "manufacturer" manufacturer
              ++ set_if (truthy_opt status) "status" status
              ++ set_if (defined location) "location" location
              ++ set_if (defined ipAddress) "ipAddress" ipAddress
              ++ set_if (defined macAddress) "macAddress" macAddress)%list in
           let* assignment := organization_assignment organizationId in
           match assignment with
           | None => ret (res_status_json 404 [("error", VStr "Organization not found")])
           | Some orgData =>
               run update devices id (updateData ++ orgData)%list in
               let* updatedDoc := get devices id in
               ret (res_json
                      [("success", VBool true);
                       ("message", VStr "Device updated successfully");
                       ("data", with_id id (default ∅ updatedDoc))])
           end
     end)
    (devices_failed "Failed to update device").

(** The loop of the bulk assignment: every id is looked up, the update
    of an existing device is staged and its id recorded. *)
Fixpoint stage_devices (u : claims) (organizationId organizationName : option value)
    (deviceIds : list value) (staged : batch) (updatedDevices : list value)
  : M (batch * list value) :=
  match deviceIds with
  | [] => ret (staged, updatedDevices)
  | deviceId :: rest =>
      let* ref := docRef (Some deviceId) in
      let* deviceDoc := get devices ref in
      match deviceDoc with
      | Some _ =>
          let* staged' :=
            batch_update staged devices ref
              [("organizationId", Some (js_or organizationId VNull));
               ("organizationName", organizationName);
               ("updatedAt", stamp (length updatedDevices));
               ("lastModifiedBy", Some (VStr (uid u)))] in
          stage_devices u organizationId organizationName rest staged'
            (updatedDevices ++ [deviceId])%list
      | None =>
          stage_devices u organizationId organizationName rest staged updatedDevices
      end
  end.

(** [POST /devices/bulk-assign] *)
Definition post_devices_bulk_assign (u : claims) (body : doc)
  : db → response * db :=
  try_catch
    (let organizationId := body !! "organizationId" in
     match body !! "deviceIds" with
     | Some (VArr ((_ :: _) as deviceIds)) =>
         let* target :=
           (if truthy_opt organizationId then
              let* oid := docRef organizationId in
              let* orgDoc := get organizations oid in
              match orgDoc with
              | None => ret None
              | Some o => ret (Some (o !! "name"))
              end
            else ret (Some (Some (VStr "Unassigned")))) in
         match target with
         | None => ret (res_status_json 404 [("error", VStr "Organization not found")])
         | Some organizationName =>
             let* r := stage_devices u organizationId organizationName deviceIds [] [] in
             run commit r.1 in
             ret (res_json
                    [("success", VBool true);
                     ("message",
                      VStr ("Successfully assigned " +:+ pretty (length r.2)
                            +:+ " devices"));
                     ("updatedCount", VNum (Z.of_nat (length r.2)))])
         end
     | _ => ret (res_status_json 400 [("error", VStr "Device IDs array is required")])
     end)
    (devices_failed "Failed to assign devices").

(** *** [routes/gyms-routes.js] *)

Definition gyms_failed (what : string) (e : string) : response :=
  res_status_json 500
    [("success", VBool false); ("error", VStr what); ("message", VStr e)].

(** [GET /organizations/:orgId/gyms] *)
Definition get_gyms (orgId : string) (query : doc) : db → response * db :=
  try_catch
    (let lim := default (VNum 100) (query !! "limit") in
     let* orgDoc := get organizations orgId in
     match orgDoc with
     | None =>
         ret (res_json
                [("success", VBool true); ("data", VArr []); ("count", VNum 0);
                 ("message", VStr "No gyms found (organization doesn't exist yet)")])
     | Some _ =>
         let* q := ordered (gyms orgId) (parseInt lim) in
         if snapshot_empty q then
           ret (res_json
                  [("success", VBool true); ("data", VArr []); ("count", VNum 0);
                   ("message", VStr "No gyms found")])
         else
           ret (res_json
                  [("success", VBool true); ("data", listed q); ("count", count q)])
     end)
    (gyms_failed "Failed to fetch gyms").

(** The same handler on any path parameter: both [doc(orgId)] of the
    source are run as the client runs them, on the path they read. *)
Definition get_gyms_by_path (orgId : string) (query : doc) : db → response * db :=
  try_catch
    (let lim := default (VNum 100) (query !! "limit") in
     let* orgRef := located organizations orgId in
     let* orgDoc := get orgRef.1 orgRef.2 in
     match orgDoc with
     | None =>
         ret (res_json
                [("success", VBool true); ("data", VArr []); ("count", VNum 0);
                 ("message", VStr "No gyms found (organization doesn't exist yet)")])
     | Some _ =>
         let* orgRef := located organizations orgId in
         let gymsRef := (orgRef.1 ++ [orgRef.2; "gyms"])%list in
         let* q := ordered gymsRef (parseInt lim) in
         if snapshot_empty q then
           ret (res_json
                  [("success", VBool true); ("data", VArr []); ("count", VNum 0);
                   ("message", VStr "No gyms found")])
         else
           ret (res_json
                  [("success", VBool true); ("data", listed q); ("count", count q)])
     end)
    (gyms_failed "Failed to fetch gyms").

Definition requiredFields : list string :=
  ["name"; "address"; "phone"; "email"; "capacity"; "manager"].

(** [requiredFields.filter(field => !req.body[field])] *)
Definition missingFields (body : doc) : list string :=
  filter (λ field, negb (truthy_opt (body !! field)) = true) requiredFields.

(** [POST /organizations/:orgId/gyms] *)
Definition post_gyms (u : claims) (orgId : string) (body : doc)
  : db → response * db :=
  try_catch
    (let name := body !! "name" in
     let address := body !! "address" in
     let phone := body !! "phone" in
     let email := body !! "email" in
     let capacity := body !! "capacity" in
     let manager := body !! "manager" in
     let status := body !! "status" in
     let openingTime := body !! "openingTime" in
     let closingTime := body !! "closingTime" in
     let amenities := body !! "amenities" in
     let latitude := body !! "latitude" in
     let longitude := body !! "longitude" in
     if negb (bool_decide (missingFields body = [])) then
       ret (res_status_json 400
              [("success", VBool false); ("error", VStr "Validation failed");
               ("details",
                VArr (map (λ field, VStr (field +:+ " is required"))
                        (missingFields body)))])
     else
       let* orgDoc := get organizations orgId in
       match orgDoc with
       | None =>
           ret (res_status_json 404
                  [("success", VBool false);
                   ("error",
                    VStr "Organization not found. Please create the organization first.")])
       | Some _ =>
           let gymData :=
             [("name", name); ("address", address); ("phone", phone);
              ("email", email);
              ("capacity", Some (js_or (parseInt <$> capacity) (VNum 0)));
              ("manager", manager);
              ("status", Some (js_or status (VStr "ACTIVE")));
              ("openingTime", Some (js_or openingTime (VStr "")));
              ("closingTime", Some (js_or closingTime (VStr "")));
              ("amenities", Some (js_or amenities (VArr [])));
              ("latitude",
               if truthy_opt latitude then parseFloat <$> latitude else Some VNull);
              ("longitude",
               if truthy_opt longitude then parseFloat <$> longitude else Some VNull);
              ("members", Some (VNum 0)); ("monthlyRevenue", Some (VNum 0));
              ("organizationId", Some (VStr orgId));
              ("createdAt", stamp 0); ("updatedAt", stamp 1);
              ("createdBy", Some (VStr (uid u)))] in
           let* id := add (gyms orgId) gymData in
           let* createdDoc := get (gyms orgId) id in
           ret (res_status_json 201
                  [("success", VBool true);
                   ("message", VStr "Gym created successfully");
                   ("data", with_id id (default ∅ createdDoc))])
       end)
    (gyms_failed "Failed to create gym").

(** [PUT /organizations/:orgId/gyms/:gymId] *)
Definition put_gyms_id (u : claims) (orgId gymId : string) (body : doc)
  : db → response * db :=
  try_catch
    (let name := body !! "name" in
     let address := body !! "address" in
     let phone := body !! "phone" in
     let email := body !! "email" in
     let capacity := body !! "capacity" in
     let manager := body !! "manager" in
     let status := body !! "status" in
     let openingTime := body !! "openingTime" in
     let closingTime := body !! "closingTime" in
     let amenities := body !! "amenities" in
     let latitude := body !! "latitude" in
     let longitude := body !! "longitude" in
     let members := body !! "members" in
     let monthlyRevenue := body !! "monthlyRevenue" in
     let* d := get (gyms orgId) gymId in
     match d with
     | None =>
         ret (res_status_json 404
                [("success", VBool false); ("error", VStr "Gym not found")])
     | Some _ =>
         let updateData :=
           ([("updatedAt", stamp 0); ("lastModifiedBy", Some (VStr (uid u)))]
            ++ set_if (truthy_opt name) "name" name
            ++ set_if (truthy_opt address) "address" address
            ++ set_if (truthy_opt phone) "phone" phone
            ++ set_if (truthy_opt email) "email" email
            ++ set_if (defined capacity) "capacity" (parseInt <$> capacity)
            ++ set_if (truthy_opt manager) "manager" manager
            ++ set_if (truthy_opt status) "status" status
            ++ set_if (defined openingTime) "openingTime" openingTime
            ++ set_if (defined closingTime) "closingTime" closingTime
            ++ set_if (defined amenities) "amenities" amenities
            ++ set_if (defined latitude) "latitude"
                 (if truthy_opt latitude then parseFloat <$> latitude else Some VNull)
            ++ set_if (defined longitude) "longitude"
                 (if truthy_opt longitude then parseFloat <$> longitude else Some VNull)
            ++ set_if (defined members) "members" (parseInt <$> members)
            ++ set_if (defined monthlyRevenue) "monthlyRevenue"
                 (parseFloat <$> monthlyRevenue))%list in
         run update (gyms orgId) gymId updateData in
         let* updatedDoc := get (gyms orgId) gymId in
         ret (res_json
                [("success", VBool true);
                 ("message", VStr "Gym updated successfully");
                 ("data", with_id gymId (default ∅ updatedDoc))])
     end)
    (gyms_failed "Failed to update gym").

(** *** The routing table *)

Inductive endpoint :=
  | GET_organizations
  | POST_organizations
  | PUT_organizations_id (id : string)
  | DELETE_organizations_id (id : string)
  | POST_devices
  | PUT_devices_id (id : string)
  | POST_devices_bulk_assign
  | GET_gyms (orgId : string)
  | POST_gyms (orgId : string)
  | PUT_gyms_id (orgId gymId : string).

(** The handler a matched route runs, once the authenticator has
    attached the caller's claims. *)
Definition handle (e : endpoint) (u : claims) (query body : doc)
  : db → response * db :=
  match e with
  | GET_organizations => get_organizations query
  | POST_organizations => post_organizations u body
  | PUT_organizations_id id => put_organizations_id u id body
  | DELETE_organizations_id id => delete_organizations_id u id
  | POST_devices => post_devices u body
  | PUT_devices_id id => put_devices_id u id body
  | POST_devices_bulk_assign => post_devices_bulk_assign u body
  | GET_gyms orgId => get_gyms orgId query
  | POST_gyms orgId => post_gyms u orgId body
  | PUT_gyms_id orgId gymId => put_gyms_id u orgId gymId body
  end.

End Handlers.

(** The collection and id a [PUT] route writes to. *)
Definition put_target (e : endpoint) : option (path * string) :=
  match e with
  | PUT_organizations_id id => Some (organizations, id)
  | PUT_devices_id id => Some (devices, id)
  | PUT_gyms_id orgId gymId => Some (gyms orgId, gymId)
  | _ => None
  end.

(** The fields a [POST] route requires. *)
Definition required (e : endpoint) : option (list string) :=
  match e with
  | POST_organizations => Some ["name"; "email"]
  | POST_devices => Some ["deviceName"; "type"; "serialNumber"]
  | POST_gyms _ => Some requiredFields
  | _ => None
  end.

(** The collection and field a [POST] route keeps unique. *)
Definition unique_field (e : endpoint) : option (path * string) :=
  match e with
  | POST_organizations => Some (organizations, "email")
  | POST_devices => Some (devices, "serialNumber")
  | _ => None
  end.

(** A property of the JSON body of a response. *)
Definition field (r : response) (k : string) : option value :=
  match json r with
  | VObj m => m !! k
  | _ => None
  end.

(** * Properties *)

(** ** Strings *)

Lemma occurs_cons sep c s :
  occurs sep (String c s) = String.prefix sep (String c s) || occurs sep s.
Proof. reflexivity. Qed.

Lemma app_empty_r (s : string) : s +:+ "" = s.
Proof. induction s as [|a s IH]; simpl; [done|]. unfold String.app in *. by rewrite IH. Qed.

Lemma app_snoc (cur : string) c s : (cur +:+ String c "") +:+ s = cur +:+ String c s.
Proof.
  unfold String.app. induction cur as [|a cur IH]; simpl; [done|]. by rewrite IH.
Qed.

Lemma split_go_no_occurrence sep cur s :
  occurs sep s = false → split_go sep 0 cur s = [cur +:+ s].
Proof.
  revert cur. induction s as [|c s IH]; intros cur Hocc.
  - simpl. by rewrite app_empty_r.
  - rewrite occurs_cons in Hocc. apply orb_false_iff in Hocc as [Hp Ho].
    cbn [split_go]. rewrite Hp. rewrite IH by exact Ho.
    by rewrite app_snoc.
Qed.

Example split_two : split "Bearer abc" "Bearer " = [""; "abc"].
Proof. reflexivity. Qed.

Example split_three : split "Bearer abcBearer def" "Bearer " = [""; "abc"; "def"].
Proof. reflexivity. Qed.

Example split_none : split "Basic abc" "Bearer " = ["Basic abc"].
Proof. reflexivity. Qed.

Lemma prefix_app (p t : string) : String.prefix p (p +:+ t) = true.
Proof.
  induction p as [|a p IH]; simpl; [by destruct t|].
  destruct (Ascii.ascii_dec a a); [exact IH|done].
Qed.

Lemma strip_prefix_Some (p s t : string) :
  strip_prefix p s = Some t ↔ s = p +:+ t.
Proof.
  revert s. induction p as [|a p IH]; intros s; simpl.
  - split; [by intros [= ->]|by intros ->].
  - destruct s as [|b s].
    + split; [done|]. unfold String.app. simpl. discriminate.
    + destruct (Ascii.eqb a b) eqn:E.
      * apply Ascii.eqb_eq in E as ->. rewrite IH.
        unfold String.app; simpl.
        split; [by intros ->|by intros [= ->]].
      * apply Ascii.eqb_neq in E.
        split; [done|]. unfold String.app; simpl. by intros [= ? ?].
Qed.

Lemma strip_prefix_None (p s : string) :
  strip_prefix p s = None ↔ String.prefix p s = false.
Proof.
  revert s. induction p as [|a p IH]; intros s; simpl.
  - by destruct s.
  - destruct s as [|b s]; [done|]. simpl.
    destruct (Ascii.ascii_dec a b) as [->|Hne].
    + rewrite Ascii.eqb_refl. apply IH.
    + apply Ascii.eqb_neq in Hne. by rewrite Hne.
Qed.

Lemma split_go_skip sep cur (p t : string) :
  split_go sep (String.length p) cur (p +:+ t) = split_go sep 0 cur t.
Proof.
  induction p as [|a p IH]; [done|].
  change (String a p +:+ t) with (String a (p +:+ t)). exact IH.
Qed.

(** A string that starts with the separator splits into an empty first
    piece and the pieces of the rest. *)
Lemma split_prefix a sep t :
  split (String a sep +:+ t) (String a sep) = "" :: split t (String a sep).
Proof.
  unfold split.
  change (String a sep +:+ t) with (String a (sep +:+ t)) at 1.
  cbn [split_go].
  change (String a (sep +:+ t)) with (String a sep +:+ t).
  rewrite prefix_app. f_equal.
  replace (String.length (String a sep) - 1) with (String.length sep)
    by (cbn [String.length]; lia).
  apply split_go_skip.
Qed.

(** When the text after the prefix holds no further ["Bearer "], the
    second piece of the split is that text. *)
Lemma bearer_token_remainder (t : string) :
  occurs "Bearer " t = false → bearer_token ("Bearer " +:+ t) = Some t.
Proof.
  intros Hocc. unfold bearer_token. rewrite split_prefix.
  unfold split. by rewrite split_go_no_occurrence.
Qed.

(** In general the token is the piece that ends at the next ["Bearer "]. *)
Lemma bearer_token_first_piece (t : string) :
  bearer_token ("Bearer " +:+ t) = head (split t "Bearer ").
Proof.
  unfold bearer_token. rewrite split_prefix.
  by destruct (split t "Bearer ").
Qed.

(** ** Document ids and document paths *)

Lemma occurs_longer (a : Ascii.ascii) (sep s : string) :
  occurs (String a "") s = false → occurs (String a sep) s = false.
Proof.
  induction s as [|c s IH]; [done|].
  rewrite !occurs_cons. intros [Hp Ho]%orb_false_iff.
  rewrite (IH Ho), orb_false_r.
  cbn [String.prefix] in *. destruct (Ascii.ascii_dec a c); [|done].
  by destruct s.
Qed.

Lemma segment_inv (id : string) : segment id → id ≠ "" ∧ occurs "/" id = false.
Proof.
  unfold segment, document_id. intros H.
  repeat (apply andb_true_iff in H as [H ?]).
  apply negb_true_iff, String.eqb_neq in H.
  split; [done|]. by apply negb_true_iff.
Qed.

Lemma components_segment (id : string) : segment id → components id = [id].
Proof.
  intros [Hne Hocc]%segment_inv. unfold components, split.
  rewrite (split_go_no_occurrence _ _ _ Hocc).
  change ("" +:+ id) with id. rewrite filter_cons, filter_nil.
  by case_decide.
Qed.

(** Read as a path below a collection, a document id addresses the
    document of that id in that collection: on document ids, the keys
    of this model and the paths of the client are the same. *)
Lemma locate_segment (c : path) (id : string) :
  Nat.odd (length c) = true → segment id → locate c id = Ok (c, id).
Proof.
  intros Hc Hid. unfold locate. rewrite (components_segment id Hid).
  apply segment_inv in Hid as [Hne Hocc].
  apply String.eqb_neq in Hne as ->.
  rewrite (occurs_longer _ "/" _ Hocc).
  cbv zeta. rewrite length_app, Nat.add_1_r, Nat.even_succ, Hc.
  by rewrite removelast_last, last_last.
Qed.

(** Other strings address other documents, or none. *)
Example locate_trailing_slash :
  locate organizations "o1/" = Ok (organizations, "o1").
Proof. reflexivity. Qed.

Example locate_below :
  locate organizations "o1/gyms/g1" = Ok (gyms "o1", "g1").
Proof. reflexivity. Qed.

Example locate_collection :
  locate organizations "x/y" = Threw (not_a_document "x/y").
Proof. reflexivity. Qed.

Example locate_empty_piece :
  locate organizations "x//y"
  = Threw (not_a_resource_path "Paths must not contain //.").
Proof. reflexivity. Qed.

(** ** The authenticator *)

Section AuthenticatorProperties.
  Variable verifySessionCookie : string → bool → outcome claims.
  Variable verifyIdToken : option string → outcome claims.
  Variable no_credentials : string.

  #[local] Abbreviation auth := (verifyAuth verifySessionCookie verifyIdToken no_credentials).

(** A non-empty session cookie decides alone: the result is the result of
    the revocation-checked cookie verification, and the headers of the
    request are not read. *)
Lemma verifyAuth_session_cookie (req : request) (c : string) :
  cookies req !! "session" = Some c → c ≠ "" →
  auth req = finish req (verifySessionCookie c true).
Proof.
  intros Hc Hne. unfold verifyAuth. rewrite Hc. simpl.
  by apply String.eqb_neq in Hne as ->.
Qed.

(** Without a usable cookie, a header that starts with ["Bearer "] sends
    the second piece of its split to the ID-token verification. *)
Lemma verifyAuth_bearer (req : request) (t : string) :
  truthy_str (cookies req !! "session") = false →
  headers req !! "authorization" = Some ("Bearer " +:+ t) →
  auth req = finish req (verifyIdToken (head (split t "Bearer "))).
Proof.
  intros Hc Hh. unfold verifyAuth. rewrite Hc, Hh.
  cbn [is_bearer mbind option_bind]. unfold startsWith.
  by rewrite prefix_app, bearer_token_first_piece.
Qed.

(** Neither: the request is answered 401. *)
Lemma verifyAuth_no_credentials (req : request) :
  truthy_str (cookies req !! "session") = false →
  is_bearer (headers req !! "authorization") = false →
  auth req = Respond (res_status_json 401 [("error", VStr no_credentials)]).
Proof.
  intros Hc Hh. unfold verifyAuth. by rewrite Hc, Hh.
Qed.

(** A request is handed on only with the claims of a successful
    verification attached, and otherwise as it came. *)
Lemma verifyAuth_next (req req' : request) :
  auth req = Next req' →
  ∃ c, req' = attach req c
       ∧ (verifySessionCookie (default "" (cookies req !! "session")) true = Ok c
          ∨ verifyIdToken (headers req !! "authorization" ≫= bearer_token) = Ok c).
Proof.
  unfold verifyAuth.
  destruct (truthy_str _); [|destruct (is_bearer _); [|done]].
  - destruct (verifySessionCookie _ true) as [c|] eqn:E; [|done].
    intros [= <-]. exists c. by split; [|left].
  - destruct (verifyIdToken _) as [c|] eqn:E; [|done].
    intros [= <-]. exists c. by split; [|right].
Qed.

End AuthenticatorProperties.

(** C1, as amended: the authenticator resolves credentials cookie-first,
    on every request.  A session cookie that is present and not empty is
    verified as a revocation-checked session cookie, and the headers are
    not looked at.  When the cookie is absent or empty, and the
    Authorization header starts with ["Bearer "], the text after that
    prefix, up to the next ["Bearer "] if there is one, is verified as an
    ID token; without such a header the answer is 401.  A successful
    verification attaches the decoded claims to the request.  Unless the
    cookie is present and empty, or the text after the prefix holds a
    second ["Bearer "], this is what the specification says. *)
Theorem verifyAuth_cookie_first
    (verifySessionCookie : string → bool → outcome claims)
    (verifyIdToken : option string → outcome claims)
    (no_credentials : string) (req : request) :
  (∀ c, cookies req !! "session" = Some c → c ≠ "" →
        verifyAuth verifySessionCookie verifyIdToken no_credentials req
        = finish req (verifySessionCookie c true))
  ∧ (cookies req !! "session" = None ∨ cookies req !! "session" = Some "" →
     verifyAuth verifySessionCookie verifyIdToken no_credentials req
     = match headers req !! "authorization" ≫= after_bearer with
       | Some t => finish req (verifyIdToken (head (split t "Bearer ")))
       | None => Respond (res_status_json 401 [("error", VStr no_credentials)])
       end)
  ∧ (∀ t, occurs "Bearer " t = false → head (split t "Bearer ") = Some t)
  ∧ (cookies req !! "session" ≠ Some "" →
     (cookies req !! "session" = None →
      ∀ h t, headers req !! "authorization" = Some h →
             after_bearer h = Some t → occurs "Bearer " t = false) →
     verifyAuth verifySessionCookie verifyIdToken no_credentials req
     = spec_verifyAuth verifySessionCookie verifyIdToken no_credentials req).
Proof.
  assert (truthy_str (cookies req !! "session") = false →
          verifyAuth verifySessionCookie verifyIdToken no_credentials req
          = match headers req !! "authorization" ≫= after_bearer with
            | Some t => finish req (verifyIdToken (head (split t "Bearer ")))
            | None => Respond (res_status_json 401 [("error", VStr no_credentials)])
            end) as Hsecond.
  { intros Hc.
    destruct (headers req !! "authorization") as [h|] eqn:Eh;
      [|by apply verifyAuth_no_credentials; [|rewrite Eh]].
    cbn [mbind option_bind].
    destruct (after_bearer h) as [t|] eqn:Et.
    - apply strip_prefix_Some in Et as ->.
      by rewrite (verifyAuth_bearer _ _ _ _ t).
    - apply strip_prefix_None in Et.
      by apply verifyAuth_no_credentials; [|rewrite Eh]. }
  assert (∀ t, occurs "Bearer " t = false → head (split t "Bearer ") = Some t)
    as Hpiece.
  { intros t Hocc. unfold split. by rewrite split_go_no_occurrence. }
  split_and!.
  - intros c Hc Hne. by apply verifyAuth_session_cookie.
  - intros [Hc|Hc]; apply Hsecond; by rewrite Hc.
  - exact Hpiece.
  - intros Hcookie Hheader. unfold spec_verifyAuth.
    destruct (cookies req !! "session") as [c|] eqn:Ec.
    + apply verifyAuth_session_cookie; [done|]. by intros ->.
    + rewrite Hsecond by done.
      destruct (headers req !! "authorization") as [h|] eqn:Eh; [|done].
      cbn [mbind option_bind].
      destruct (after_bearer h) as [t|] eqn:Et; [|done].
      by rewrite (Hpiece t (Hheader eq_refl h t eq_refl Et)).
Qed.

(** An identity provider for the examples: it knows one session cookie
    and one ID token, and says why it refuses anything else. *)
Definition example_verifySessionCookie (c : string) (checkRevoked : bool)
  : outcome claims :=
  if String.eqb c "cookie-of-u1" then Ok {| uid := "u1" |}
  else Threw "Decoding Firebase session cookie failed".

Definition example_verifyIdToken (t : option string) : outcome claims :=
  if bool_decide (t = Some "token-of-u2") then Ok {| uid := "u2" |}
  else Threw "Firebase ID token has invalid signature".

Definition bearer_request : request :=
  {| cookies := ∅;
     headers := {["authorization" := "Bearer token-of-u2"]};
     user := None |}.

(** A request that carries both credentials, of two users: the cookie
    decides. *)
Definition cookie_and_bearer_request : request :=
  {| cookies := {["session" := "cookie-of-u1"]};
     headers := {["authorization" := "Bearer token-of-u2"]};
     user := None |}.

Lemma verifyAuth_cookie_first_witness :
  verifyAuth example_verifySessionCookie example_verifyIdToken
    organizations_no_credentials cookie_and_bearer_request
  = Next (attach cookie_and_bearer_request {| uid := "u1" |})
  ∧ verifyAuth example_verifySessionCookie example_verifyIdToken
      organizations_no_credentials bearer_request
    = Next (attach bearer_request {| uid := "u2" |}).
Proof.
  split.
  - destruct (verifyAuth_cookie_first example_verifySessionCookie
                example_verifyIdToken organizations_no_credentials
                cookie_and_bearer_request) as (Hfirst & _ & _ & _).
    by rewrite (Hfirst "cookie-of-u1").
  - destruct (verifyAuth_cookie_first example_verifySessionCookie
                example_verifyIdToken organizations_no_credentials
                bearer_request) as (_ & Hsecond & _ & _).
    rewrite Hsecond; [reflexivity|by left].
Defined.

Definition empty_cookie_request : request :=
  {| cookies := {["session" := ""]};
     headers := {["authorization" := "Bearer token-of-u2"]};
     user := None |}.

(** C1 as stated fails on a session cookie that is present and empty:
    the specification verifies it (and rejects), the code passes on to
    the Authorization header and lets the request in. *)
Lemma verifyAuth_empty_cookie_consults_header :
  cookies empty_cookie_request !! "session" = Some ""
  ∧ verifyAuth example_verifySessionCookie example_verifyIdToken
      organizations_no_credentials empty_cookie_request
    = Next (attach empty_cookie_request {| uid := "u2" |})
  ∧ spec_verifyAuth example_verifySessionCookie example_verifyIdToken
      organizations_no_credentials empty_cookie_request
    = Respond invalid_token.
Proof. repeat split; reflexivity. Qed.

(** What [split('Bearer ')[1]] does when the text after the prefix holds
    a second ["Bearer "]: only the piece before it is verified. *)
Example verifyAuth_second_bearer :
  verifyAuth example_verifySessionCookie example_verifyIdToken
    organizations_no_credentials
    {| cookies := ∅;
       headers := {["authorization" := "Bearer token-of-u2Bearer x"]};
       user := None |}
  = Next {| cookies := ∅;
            headers := {["authorization" := "Bearer token-of-u2Bearer x"]};
            user := Some {| uid := "u2" |} |}.
Proof. repeat split; reflexivity. Qed.

(** C2: every rejection of the authenticator is a 401, and it is one of
    two fixed bodies: the one for a request without credentials, or the
    one for a credential that did not verify.  Which of the two is sent
    depends on the request alone: whatever the identity provider gives as
    the reason of a failed verification (malformed, expired, revoked, bad
    signature), and whatever another provider would have given, the
    caller receives the same response. *)
Theorem verifyAuth_rejection_uniform
    (verifySessionCookie verifySessionCookie' : string → bool → outcome claims)
    (verifyIdToken verifyIdToken' : option string → outcome claims)
    (no_credentials : string) (req : request) (r : response) :
  verifyAuth verifySessionCookie verifyIdToken no_credentials req = Respond r →
  status r = 401
  ∧ (r = invalid_token
     ∨ r = res_status_json 401 [("error", VStr no_credentials)]
       ∧ truthy_str (cookies req !! "session") = false
       ∧ is_bearer (headers req !! "authorization") = false)
  ∧ (∀ r', verifyAuth verifySessionCookie' verifyIdToken' no_credentials req
           = Respond r' → r' = r).
Proof.
  unfold verifyAuth.
  destruct (truthy_str (cookies req !! "session")) eqn:Ec.
  - (* the cookie is verified *)
    destruct (verifySessionCookie _ true) as [c|why]; simpl; [done|].
    intros [= <-]. split_and!; [done|by left|].
    intros r'. by destruct (verifySessionCookie' _ true); simpl; [|intros [= <-]].
  - destruct (is_bearer (headers req !! "authorization")) eqn:Eb.
    + (* the bearer token is verified *)
      destruct (verifyIdToken _) as [c|why]; simpl; [done|].
      intros [= <-]. split_and!; [done|by left|].
      intros r'. by destruct (verifyIdToken' _); simpl; [|intros [= <-]].
    + (* no credential *)
      intros [= <-]. split_and!; [done|by right|].
      by intros r' [= <-].
Qed.

Definition expired_cookie_request : request :=
  {| cookies := {["session" := "expired"]}; headers := ∅; user := None |}.

Lemma verifyAuth_rejection_uniform_witness :
  verifyAuth example_verifySessionCookie example_verifyIdToken
    devices_no_credentials expired_cookie_request
  = Respond invalid_token
  ∧ status invalid_token = 401
  ∧ ∀ r', verifyAuth (λ _ _, Threw "auth/session-cookie-revoked")
            example_verifyIdToken devices_no_credentials expired_cookie_request
          = Respond r' → r' = invalid_token.
Proof.
  assert (verifyAuth example_verifySessionCookie example_verifyIdToken
            devices_no_credentials expired_cookie_request
          = Respond invalid_token) as H by reflexivity.
  split; [exact H|].
  destruct (verifyAuth_rejection_uniform
              example_verifySessionCookie (λ _ _, Threw "auth/session-cookie-revoked")
              example_verifyIdToken example_verifyIdToken
              devices_no_credentials expired_cookie_request invalid_token H)
    as (Hs & _ & Hu).
  split; [exact Hs|exact Hu].
Defined.

(** ** The store *)

Lemma coll_insert (c c' : path) (m : gmap string doc) (s : db) :
  coll (<[c := m]> s) c' = if decide (c = c') then m else coll s c'.
Proof. unfold coll at 1. rewrite lookup_insert. by case_decide. Qed.

Lemma coll_set_doc (c c' : path) (id : string) (d : doc) (s : db) :
  coll (set_doc c id d s) c'
  = if decide (c = c') then <[id := d]> (coll s c) else coll s c'.
Proof.
  unfold coll at 1, set_doc. rewrite lookup_insert.
  case_decide; [done|]. done.
Qed.

Lemma coll_set_doc_same (c : path) (id : string) (d : doc) (s : db) :
  coll (set_doc c id d s) c = <[id := d]> (coll s c).
Proof. rewrite coll_set_doc. by case_decide. Qed.

Lemma coll_set_doc_other (c c' : path) (id : string) (d : doc) (s : db) :
  c ≠ c' → coll (set_doc c id d s) c' = coll s c'.
Proof. intros. rewrite coll_set_doc. by case_decide. Qed.

(** The uniqueness probe [c.where(f, "==", v).limit(1).get()] finds
    something exactly when some document of [c] holds [v] in [f]. *)
Lemma probe_found (c : path) (f : string) (v : value) (s : db) id d :
  coll s c !! id = Some d → d !! f = Some v →
  ∃ q, limit 1 (where_eq c f (Some v)) s = (Ok q, s) ∧ snapshot_empty q = false.
Proof.
  intros Hd Hf. unfold limit, bind, where_eq, ret.
  eexists; split; [reflexivity|].
  destruct (map_to_list (matching f v (coll s c))) as [|kv l] eqn:E; [|done].
  apply map_to_list_empty_iff in E.
  assert (matching f v (coll s c) !! id = Some d) as Hm
    by (by apply map_lookup_filter_Some).
  rewrite E in Hm. by rewrite lookup_empty in Hm.
Qed.

Lemma probe_not_found (c : path) (f : string) (v : value) (s : db) :
  (∀ id d, coll s c !! id = Some d → d !! f ≠ Some v) →
  limit 1 (where_eq c f (Some v)) s = (Ok [], s).
Proof.
  intros Hnone. unfold limit, bind, where_eq, ret.
  replace (matching f v (coll s c)) with (∅ : gmap string doc);
    [by rewrite map_to_list_empty|].
  symmetry. apply map_empty. intros id.
  destruct (matching f v (coll s c) !! id) as [d|] eqn:E; [|done].
  apply map_lookup_filter_Some in E as [Hd Hf]. by destruct (Hnone id d).
Qed.

(** ** Deleting an organization *)


(** A store for the examples: two organizations, a device of the first,
    and a gym under it. *)
Definition example_now (n : nat) : string :=
  "2024-05-01T10:00:0" +:+ pretty n +:+ "Z".

Definition acme : doc :=
  <["name" := VStr "Acme"]> (<["email" := VStr "a@acme.com"]>
  (<["phone" := VStr "555-0100"]> (<["status" := VStr "active"]> ∅))).

Definition beta : doc :=
  <["name" := VStr "Beta"]> (<["email" := VStr "b@beta.com"]>
  (<["status" := VStr "active"]> ∅)).

Definition treadmill : doc :=
  <["deviceName" := VStr "Treadmill 1"]> (<["type" := VStr "treadmill"]>
  (<["serialNumber" := VStr "SN-1"]> (<["organizationId" := VStr "o1"]>
  (<["organizationName" := VStr "Acme"]> (<["status" := VStr "active"]> ∅))))).

Definition downtown : doc :=
  <["name" := VStr "Downtown"]> (<["manager" := VStr "Kim"]>
  (<["status" := VStr "ACTIVE"]> (<["organizationId" := VStr "o1"]> ∅))).

Definition example_store : db :=
  set_doc organizations "o1" acme
    (set_doc organizations "o2" beta
       (set_doc devices "d1" treadmill
          (set_doc (gyms "o1") "g1" downtown ∅))).

Definition u1 : claims := {| uid := "u1" |}.

(** The list query of the examples,
    [c.orderBy("createdAt", "desc").limit(n).get()] on a collection
    whose [createdAt] fields are ISO time stamps: the documents without
    the field are not in the result; the others come latest first (by
    id, descending, among equal stamps), at most [n] of them.  The
    client refuses a limit that is not a number. *)
Definition createdAt (kv : string * doc) : option string :=
  match kv.2 !! "createdAt" with
  | Some (VStr t) => Some t
  | _ => None
  end.

Definition later (x y : string * doc) : bool :=
  match String.compare (default "" (createdAt x)) (default "" (createdAt y)) with
  | Gt => true
  | Lt => false
  | Eq => negb (String.ltb x.1 y.1)
  end.

Fixpoint place (x : string * doc) (q : snapshot) : snapshot :=
  match q with
  | [] => [x]
  | y :: q' => if later x y then x :: y :: q' else y :: place x q'
  end.

Definition latest_first (q : snapshot) : snapshot := foldr place [] q.

Definition example_orderBy (c : gmap string doc) (n : value) : outcome snapshot :=
  match n with
  | VNum k =>
      Ok (take (Z.to_nat k)
            (latest_first
               (filter (λ kv, is_Some (createdAt kv)) (map_to_list c))))
  | _ =>
      Threw ("Value for argument " +:+ quoted "limit"
             +:+ " is not a valid integer.")
  end.

(** The store of the examples, with the time each record was created. *)
Definition created (t : string) (d : doc) : doc := <["createdAt" := VStr t]> d.

Definition dated_store : db :=
  set_doc organizations "o1" (created "2024-04-01T09:00:00Z" acme)
    (set_doc organizations "o2" (created "2024-04-02T09:00:00Z" beta)
       (set_doc devices "d1" (created "2024-04-03T09:00:00Z" treadmill)
          (set_doc (gyms "o1") "g1" (created "2024-04-04T09:00:00Z" downtown) ∅))).


(** ** Listing the gyms of an organization *)

(** On a document id, the handler that reads its path parameter as the
    client does is the handler on document ids. *)
Lemma get_gyms_by_path_segment
    (parseInt : value → value)
    (orderBy_createdAt_desc : gmap string doc → value → outcome snapshot)
    (orgId : string) (query : doc) (s : db) :
  segment orgId →
  get_gyms_by_path parseInt orderBy_createdAt_desc orgId query s
  = get_gyms parseInt orderBy_createdAt_desc orgId query s.
Proof.
  intros Hid.
  assert (located organizations orgId = ret (organizations, orgId)) as Hloc.
  { unfold located, ret. by rewrite (locate_segment organizations orgId eq_refl Hid). }
  unfold get_gyms_by_path. rewrite Hloc. reflexivity.
Qed.

(** C9, as amended: listing the gyms of an organization whose id is a
    document id (a single path segment that the store accepts) and that
    is not in the store is answered 200 with [success: true], an empty
    [data] array, [count: 0] and a message, and writes nothing, also
    when the path parameter is read as the store client reads it; the
    message is not the one sent for an organization that exists and has
    no gyms. *)
Theorem get_gyms_unknown_organization
    (parseInt : value → value)
    (orderBy_createdAt_desc : gmap string doc → value → outcome snapshot)
    (orgId : string) (query : doc) (s : db) :
  segment orgId →
  coll s organizations !! orgId = None →
  ∃ r, get_gyms parseInt orderBy_createdAt_desc orgId query s = (r, s)
       ∧ get_gyms_by_path parseInt orderBy_createdAt_desc orgId query s = (r, s)
       ∧ status r = 200
       ∧ field r "success" = Some (VBool true)
       ∧ field r "data" = Some (VArr [])
       ∧ field r "count" = Some (VNum 0)
       ∧ field r "message"
         = Some (VStr "No gyms found (organization doesn't exist yet)")
       ∧ ∀ s' org r',
           coll s' organizations !! orgId = Some org →
           orderBy_createdAt_desc (coll s' (gyms orgId))
             (parseInt (default (VNum 100) (query !! "limit"))) = Ok [] →
           get_gyms parseInt orderBy_createdAt_desc orgId query s' = (r', s') →
           field r' "message" = Some (VStr "No gyms found").
Proof.
  intros Hid Horg.
  assert (∃ r, get_gyms parseInt orderBy_createdAt_desc orgId query s = (r, s)
               ∧ r = res_json
                       [("success", VBool true); ("data", VArr []);
                        ("count", VNum 0);
                        ("message",
                         VStr "No gyms found (organization doesn't exist yet)")])
    as (r & Hrun & ->).
  { eexists. split; [|reflexivity].
    unfold get_gyms, try_catch, bind, get. by rewrite Horg. }
  eexists. split; [exact Hrun|].
  split; [by rewrite get_gyms_by_path_segment|].
  split_and!; try reflexivity.
  intros s' org r' Horg' Hq.
  unfold get_gyms, try_catch, bind, get, ordered. rewrite Horg', Hq.
  cbn [snapshot_empty ret]. by intros [= <-].
Qed.

Lemma get_gyms_unknown_organization_witness :
  ∃ r, get_gyms (λ v, v) example_orderBy "o9" ∅ example_store
       = (r, example_store)
       ∧ get_gyms_by_path (λ v, v) example_orderBy "o9" ∅ example_store
         = (r, example_store)
       ∧ status r = 200
       ∧ field r "success" = Some (VBool true)
       ∧ field r "data" = Some (VArr [])
       ∧ field r "count" = Some (VNum 0).
Proof.
  destruct (get_gyms_unknown_organization (λ v, v) example_orderBy
              "o9" ∅ example_store)
    as (r & H1 & H1' & H2 & H3 & H4 & H5 & _); [by split|reflexivity|].
  exists r. by split_and!.
Defined.

(** C9 as stated fails on a path parameter that is not a document id:
    [GET /organizations/x%2Fy/gyms] hands ["x/y"] to [doc()], no
    organization has that id, and the client refuses the path, which
    would name a collection; the handler's [catch] answers 500. *)
Lemma get_gyms_path_parameter_refused :
  coll example_store organizations !! "x/y" = None
  ∧ get_gyms_by_path (λ v, v) example_orderBy "x/y" ∅ example_store
    = (gyms_failed "Failed to fetch gyms" (not_a_document "x/y"), example_store)
  ∧ status (gyms_failed "Failed to fetch gyms" (not_a_document "x/y")) = 500
  ∧ field (gyms_failed "Failed to fetch gyms" (not_a_document "x/y")) "success"
    = Some (VBool false).
Proof. repeat split; reflexivity. Qed.

(** ** Updates *)

(** The body [{ status: "inactive" }]. *)
Definition status_inactive : doc := {["status" := VStr "inactive"]}.

Lemma status_inactive_status : status_inactive !! "status" = Some (VStr "inactive").
Proof. apply lookup_singleton_eq. Qed.

Lemma status_inactive_other (k : string) :
  k ≠ "status" → status_inactive !! k = None.
Proof. intros. by apply lookup_singleton_ne. Qed.

(** What the three update handlers hand to the store for that body. *)
Definition status_patch (now : nat → string) (u : claims) : doc :=
  <["status" := VStr "inactive"]>
    (<["lastModifiedBy" := VStr (uid u)]> (<["updatedAt" := VStr (now 0)]> ∅)).

Lemma status_patch_frame now u (d : doc) (k : string) :
  k ≠ "status" → k ≠ "updatedAt" → k ≠ "lastModifiedBy" →
  (status_patch now u ∪ d) !! k = d !! k.
Proof.
  intros H1 H2 H3. rewrite lookup_union_r; [done|].
  unfold status_patch. by rewrite !lookup_insert_ne.
Qed.

Lemma update_existing (c : path) (id : string) (data : literal) (p d : doc) (s : db) :
  fields data = Some p → coll s c !! id = Some d →
  update c id data s = (Ok (), set_doc c id (p ∪ d) s).
Proof. intros Hp Hd. unfold update. by rewrite Hp, Hd. Qed.

Lemma get_set_doc (c : path) (id : string) (d : doc) (s : db) :
  get c id (set_doc c id d s) = (Ok (Some d), set_doc c id d s).
Proof. unfold get. by rewrite coll_set_doc_same, lookup_insert_eq. Qed.

Lemma bind_get {A} (c : path) (id : string) (k : option doc → M A) (s : db) :
  (let* d := get c id in k d) s = k (coll s c !! id) s.
Proof. reflexivity. Qed.

Lemma bind_ret {A B} (a : A) (k : A → M B) (s : db) :
  (let* x := ret a in k x) s = k a s.
Proof. reflexivity. Qed.

Lemma bind_run {A B} (m : M A) (k : A → M B) (s s' : db) (a : A) :
  m s = (Ok a, s') → (let* x := m in k x) s = k a s'.
Proof. intros H. unfold bind. by rewrite H. Qed.

Ltac body_lookups :=
  rewrite ?status_inactive_status;
  rewrite ?status_inactive_other by done;
  unfold stamp;
  cbn [truthy_opt truthy defined set_if negb String.eqb Ascii.eqb Bool.eqb app].

(** C5: an update whose body is only [{ status: "inactive" }], on a
    record that exists, is answered 200 and rewrites that one record;
    the rewritten record holds the new status, the update time and the
    caller's id as last modifier, and agrees with the old record on every
    other field. No other document of the store changes. *)
Theorem put_status_only_frame
    (now : nat → string) (newId : string) (parseInt parseFloat : value → value)
    (orderBy_createdAt_desc : gmap string doc → value → outcome snapshot)
    (u : claims) (e : endpoint) (c : path) (id : string) (d : doc)
    (query : doc) (s : db) :
  put_target e = Some (c, id) →
  coll s c !! id = Some d →
  ∃ r d',
    handle now newId parseInt parseFloat orderBy_createdAt_desc e u query
      status_inactive s
    = (r, set_doc c id d' s)
    ∧ status r = 200
    ∧ field r "data" = Some (with_id id d')
    ∧ d' !! "status" = Some (VStr "inactive")
    ∧ d' !! "updatedAt" = Some (VStr (now 0))
    ∧ d' !! "lastModifiedBy" = Some (VStr (uid u))
    ∧ ∀ k, k ≠ "status" → k ≠ "updatedAt" → k ≠ "lastModifiedBy" →
           d' !! k = d !! k.
Proof.
  intros He Hd.
  assert (fields [("updatedAt", Some (VStr (now 0)));
                  ("lastModifiedBy", Some (VStr (uid u)));
                  ("status", Some (VStr "inactive"))]
          = Some (status_patch now u)) as Hfields by reflexivity.
  exists (res_json
            [("success", VBool true);
             ("message",
              VStr match e with
                   | PUT_organizations_id _ => "Organization updated successfully"
                   | PUT_devices_id _ => "Device updated successfully"
                   | _ => "Gym updated successfully"
                   end);
             ("data", with_id id (status_patch now u ∪ d))]),
         (status_patch now u ∪ d).
  split.
  { destruct e; simplify_eq/=.
    - unfold put_organizations_id, try_catch. rewrite bind_get, Hd.
      body_lookups.
      rewrite (bind_run _ _ _ _ _ (update_existing _ _ _ _ _ _ Hfields Hd)).
      by rewrite bind_get, coll_set_doc_same, lookup_insert_eq.
    - unfold put_devices_id, try_catch. rewrite bind_get, Hd.
      body_lookups. unfold organization_assignment. body_lookups.
      cbn [andb]. rewrite bind_ret. cbv beta iota.
      rewrite bind_ret. cbv beta iota. cbn [app].
      rewrite (bind_run _ _ _ _ _ (update_existing _ _ _ _ _ _ Hfields Hd)).
      by rewrite bind_get, coll_set_doc_same, lookup_insert_eq.
    - unfold put_gyms_id, try_catch. rewrite bind_get, Hd.
      body_lookups.
      rewrite (bind_run _ _ _ _ _ (update_existing _ _ _ _ _ _ Hfields Hd)).
      by rewrite bind_get, coll_set_doc_same, lookup_insert_eq. }
  split_and!; try done.
  - apply lookup_union_Some_l. unfold status_patch. by simplify_map_eq.
  - apply lookup_union_Some_l. unfold status_patch. by simplify_map_eq.
  - apply lookup_union_Some_l. unfold status_patch. by simplify_map_eq.
  - intros k. apply status_patch_frame.
Qed.

Lemma put_status_only_frame_witness :
  ∃ r d',
    put_devices_id example_now u1 "d1" status_inactive example_store
    = (r, set_doc devices "d1" d' example_store)
    ∧ status r = 200
    ∧ d' !! "status" = Some (VStr "inactive")
    ∧ d' !! "serialNumber" = Some (VStr "SN-1")
    ∧ d' !! "organizationName" = Some (VStr "Acme").
Proof.
  destruct (put_status_only_frame example_now "unused" (λ v, v) (λ v, v)
              (λ c n, Ok (map_to_list c)) u1 (PUT_devices_id "d1") devices "d1"
              treadmill ∅ example_store eq_refl)
    as (r & d' & Hrun & Hstatus & _ & Hs & _ & _ & Hframe); [reflexivity|].
  exists r, d'. split_and!; [exact Hrun|exact Hstatus|exact Hs| |].
  - rewrite Hframe by done. reflexivity.
  - rewrite Hframe by done. reflexivity.
Defined.

(** ** Bulk assignment *)

(** The devices of the list that exist, in the order of the list. *)
Definition existing_ids (s : db) (ids : list string) : list string :=
  filter (λ i, is_Some (coll s devices !! i)) ids.

(** The organization a bulk assignment resolves: none when the body
    names none, else the stored name of the organization it names. *)
Inductive target (s : db) : option value → value → Prop :=
  | target_unassigned (o : option value) :
      truthy_opt o = false → target s o (VStr "Unassigned")
  | target_organization (oid : string) (org : doc) (name : value) :
      oid ≠ "" → coll s organizations !! oid = Some org →
      org !! "name" = Some name → target s (Some (VStr oid)) name.

(** The fields one staged update sets; [k] numbers the clock reading. *)
Definition assignment_patch (now : nat → string) (u : claims)
    (organizationId : option value) (name : value) (k : nat) : doc :=
  <["lastModifiedBy" := VStr (uid u)]>
    (<["updatedAt" := VStr (now k)]>
       (<["organizationName" := name]>
          (<["organizationId" := js_or organizationId VNull]> ∅))).

Fixpoint staged_updates (now : nat → string) (u : claims)
    (organizationId : option value) (name : value) (k : nat) (ids : list string)
  : batch :=
  match ids with
  | [] => []
  | i :: rest =>
      (devices, i, assignment_patch now u organizationId name k)
      :: staged_updates now u organizationId name (S k) rest
  end.

(** A device after its assignment, against the device before. *)
Definition assigned (now : nat → string) (u : claims)
    (organizationId : option value) (name : value) (d d' : doc) : Prop :=
  d' !! "organizationId" = Some (js_or organizationId VNull)
  ∧ d' !! "organizationName" = Some name
  ∧ d' !! "lastModifiedBy" = Some (VStr (uid u))
  ∧ (∃ k, d' !! "updatedAt" = Some (VStr (now k)))
  ∧ ∀ f, f ≠ "organizationId" → f ≠ "organizationName" →
         f ≠ "updatedAt" → f ≠ "lastModifiedBy" → d' !! f = d !! f.

Section BulkAssign.
  Variable now : nat → string.
  Variable u : claims.
  Variable organizationId : option value.
  Variable name : value.

  #[local] Abbreviation patch := (assignment_patch now u organizationId name).
  #[local] Abbreviation updates := (staged_updates now u organizationId name).

Lemma existing_ids_cons (s : db) (i : string) (ids : list string) :
  existing_ids s (i :: ids)
  = match coll s devices !! i with
    | Some _ => i :: existing_ids s ids
    | None => existing_ids s ids
    end.
Proof.
  unfold existing_ids. rewrite filter_cons.
  destruct (coll s devices !! i) eqn:E; case_decide as H; try done.
  destruct H. by eexists.
Qed.

Lemma docRef_string (i : string) : i ≠ "" → docRef (Some (VStr i)) = ret i.
Proof. intros Hi. unfold docRef. by apply String.eqb_neq in Hi as ->. Qed.

(** The loop stages one update per existing device and writes nothing. *)
Lemma stage_devices_run (s : db) (ids : list string) :
  Forall (λ i, i ≠ "") ids →
  ∀ staged updated,
    stage_devices now u organizationId (Some name) (VStr <$> ids) staged updated s
    = (Ok ((staged ++ updates (length updated) (existing_ids s ids))%list,
           (updated ++ (VStr <$> existing_ids s ids))%list),
       s).
Proof.
  induction 1 as [|i ids Hi _ IH]; intros staged updated.
  - simpl. by rewrite !app_nil_r.
  - rewrite fmap_cons. cbn [stage_devices].
    rewrite (docRef_string i Hi), bind_ret, bind_get.
    rewrite existing_ids_cons.
    destruct (coll s devices !! i) as [d|] eqn:Ed; [|apply IH].
    unfold batch_update, stamp. cbn [fields fields_go]. rewrite bind_ret, IH.
    rewrite length_app, Nat.add_1_r. cbn [staged_updates fmap list_fmap].
    by rewrite <- !app_assoc.
Qed.

Lemma patch_assigned (d : doc) (k : nat) :
  assigned now u organizationId name d (patch k ∪ d).
Proof.
  unfold assigned, assignment_patch.
  split_and!; try (apply lookup_union_Some_l; by simplify_map_eq).
  - exists k. apply lookup_union_Some_l. by simplify_map_eq.
  - intros f ????. rewrite lookup_union_r; [done|]. by simplify_map_eq.
Qed.

Lemma patch_assigned_again (d d1 : doc) (k : nat) :
  assigned now u organizationId name d d1 →
  assigned now u organizationId name d (patch k ∪ d1).
Proof.
  intros (_ & _ & _ & _ & Hframe).
  destruct (patch_assigned d1 k) as (H1 & H2 & H3 & H4 & H5).
  split_and!; try done.
  intros f ????. rewrite H5 by done. by apply Hframe.
Qed.

Lemma updates_elem (w : path * string * doc) (k : nat) (ids : list string) :
  w ∈ updates k ids → ∃ i k', i ∈ ids ∧ w = (devices, i, patch k').
Proof.
  revert k. induction ids as [|i ids IH]; intros k; cbn [staged_updates].
  - by intros ?%elem_of_nil.
  - intros [->|Hin]%elem_of_cons.
    + exists i, k. split; [left|done].
    + destruct (IH _ Hin) as (j & k' & ? & ->). exists j, k'. split; [by right|done].
Qed.

(** The staged updates all find their device: the commit goes through. *)
Lemma updates_exist (s : db) (k : nat) (ids : list string) :
  forallb (staged_exists s) (updates k (existing_ids s ids)) = true.
Proof.
  apply forallb_forall. intros w Hw%list_elem_of_In.
  apply updates_elem in Hw as (i & k' & Hi & ->).
  unfold existing_ids in Hi. apply list_elem_of_filter in Hi as [Hi _].
  unfold staged_exists. by apply bool_decide_eq_true.
Qed.

Lemma updates_mem (j : string) (k : nat) (ids : list string) :
  j ∈ ids → ∃ k', (devices, j, patch k') ∈ updates k ids.
Proof.
  revert k. induction ids as [|i ids IH]; intros k; [by intros ?%elem_of_nil|].
  cbn [staged_updates]. intros [->|Hin]%elem_of_cons.
  - exists k. by left.
  - destruct (IH (S k) Hin) as [k' ?]. exists k'. by right.
Qed.

(** Applying staged updates of devices leaves the other collections. *)
Lemma apply_updates_other_collections (b : batch) (c : path) :
  (∀ w, w ∈ b → ∃ i k, w = (devices, i, patch k)) → c ≠ devices →
  ∀ s, coll (foldl apply_update s b) c = coll s c.
Proof.
  intros Hb Hc. induction b as [|w b IH]; intros s; [done|].
  cbn [foldl]. rewrite IH by (intros; apply Hb; by right).
  destruct (Hb w) as (i & k & ->); [by left|].
  unfold apply_update. destruct (coll s devices !! i); [|done].
  by rewrite coll_set_doc_other.
Qed.

(** ... and the devices no staged update names. *)
Lemma apply_updates_untouched (b : batch) (j : string) :
  (∀ w, w ∈ b → ∃ i k, i ≠ j ∧ w = (devices, i, patch k)) →
  ∀ s, coll (foldl apply_update s b) devices !! j = coll s devices !! j.
Proof.
  intros Hb. induction b as [|w b IH]; intros s; [done|].
  cbn [foldl]. rewrite IH by (intros; apply Hb; by right).
  destruct (Hb w) as (i & k & Hij & ->); [by left|].
  unfold apply_update. destruct (coll s devices !! i); [|done].
  by rewrite coll_set_doc_same, lookup_insert_ne.
Qed.

(** A device some staged update names ends up assigned. *)
Lemma apply_updates_assigned (b : batch) (j : string) (d0 : doc) :
  (∀ w, w ∈ b → ∃ i k, w = (devices, i, patch k)) →
  ∀ s d,
    coll s devices !! j = Some d →
    assigned now u organizationId name d0 d
    ∨ d = d0 ∧ (∃ k, (devices, j, patch k) ∈ b) →
    ∃ d', coll (foldl apply_update s b) devices !! j = Some d'
          ∧ assigned now u organizationId name d0 d'.
Proof.
  intros Hb. induction b as [|w b IH]; intros s d Hd Hcase.
  - destruct Hcase as [?|[_ [k Hin]]]; [by exists d|]. by apply elem_of_nil in Hin.
  - cbn [foldl].
    destruct (Hb w) as (i & k & ->); [by left|].
    assert (∀ w, w ∈ b → ∃ i k, w = (devices, i, patch k)) as Hb'
      by (intros; apply Hb; by right).
    destruct (decide (i = j)) as [->|Hij].
    + unfold apply_update. rewrite Hd.
      apply (IH Hb' _ (patch k ∪ d)).
      * by rewrite coll_set_doc_same, lookup_insert_eq.
      * left. destruct Hcase as [?|[-> _]];
          [by apply patch_assigned_again|apply patch_assigned].
    + apply (IH Hb' _ d).
      * unfold apply_update. destruct (coll s devices !! i); [|done].
        by rewrite coll_set_doc_same, lookup_insert_ne.
      * destruct Hcase as [?|[-> [k' Hin]]]; [by left|right].
        split; [done|]. exists k'.
        apply elem_of_cons in Hin as [[= ? ?]|?]; [done|done].
Qed.

End BulkAssign.


(** One valid and one invalid id: [updatedCount] is 1, the valid device
    moves to the organization and keeps its serial number. *)
Definition assign_two : doc :=
  <["deviceIds" := VArr [VStr "d1"; VStr "no-such-device"]]>
    (<["organizationId" := VStr "o2"]> ∅).


(** C7 as stated fails on a list with an id that the store client
    refuses, such as the empty string: that id refers to no device, but
    it is not passed over; the lookup throws, the answer is 500, and the
    existing device of the list is not assigned. *)
Definition assign_with_empty_id : doc :=
  <["deviceIds" := VArr [VStr "d1"; VStr ""]]>
    (<["organizationId" := VStr "o2"]> ∅).


(** ** Creating a record *)

(** C8, as amended: a [POST] of an organization or of a device that
    passes the required-field validation, and whose uniqueness field
    (email, serial number) holds the value some stored record of the same
    kind already holds, is answered 409 and writes nothing, whatever the
    other fields of the body are. *)
Theorem post_duplicate_conflict
    (now : nat → string) (newId : string) (parseInt parseFloat : value → value)
    (orderBy_createdAt_desc : gmap string doc → value → outcome snapshot)
    (u : claims) (e : endpoint) (c : path) (f : string) (fs : list string)
    (query body : doc) (v : value) (id0 : string) (d0 : doc) (s : db) :
  unique_field e = Some (c, f) →
  required e = Some fs →
  Forall (λ k, truthy_opt (body !! k) = true) fs →
  body !! f = Some v →
  coll s c !! id0 = Some d0 →
  d0 !! f = Some v →
  ∃ r, handle now newId parseInt parseFloat orderBy_createdAt_desc e u query body s
       = (r, s)
       ∧ status r = 409
       ∧ is_Some (field r "error").
Proof.
  intros He Hfs Hreq Hv Hd0 Hf0.
  destruct (probe_found c f v s id0 d0 Hd0 Hf0) as (q & Hq & Hne).
  destruct e; simplify_eq/=.
  - apply Forall_cons in Hreq as [Hname [Hemail _]%Forall_cons].
    eexists. split.
    + unfold post_organizations, try_catch. rewrite Hname, Hemail. cbn [negb orb].
      rewrite Hv. rewrite (bind_run _ _ _ _ _ Hq), Hne. reflexivity.
    + split; [done|]. eexists; reflexivity.
  - apply Forall_cons in Hreq as [Hname [Htype [Hserial _]%Forall_cons]%Forall_cons].
    eexists. split.
    + unfold post_devices, try_catch. rewrite Hname, Htype, Hserial. cbn [negb orb].
      rewrite Hv. rewrite (bind_run _ _ _ _ _ Hq), Hne. reflexivity.
    + split; [done|]. eexists; reflexivity.
Qed.

(** A second organization with the e-mail address of Acme. *)
Definition acme_again : doc :=
  <["name" := VStr "Acme Europe"]> (<["email" := VStr "a@acme.com"]>
  (<["phone" := VStr "555-0199"]> ∅)).

Lemma post_duplicate_conflict_witness :
  ∃ r, post_organizations example_now "o3" u1 acme_again example_store
       = (r, example_store)
       ∧ status r = 409.
Proof.
  destruct (post_duplicate_conflict example_now "o3" (λ v, v) (λ v, v)
              (λ c n, Ok (map_to_list c)) u1 POST_organizations
              organizations "email" ["name"; "email"] ∅ acme_again
              (VStr "a@acme.com") "o1" acme example_store)
    as (r & Hrun & Hstatus & _);
    [reflexivity|reflexivity|by repeat constructor|reflexivity|reflexivity
    |reflexivity|].
  exists r. by split.
Defined.

Definition serial_only : doc := {["serialNumber" := VStr "SN-1"]}.

(** C8 as stated fails on a body that repeats a stored serial number and
    leaves out a required field: the validation comes first and the
    answer is 400. *)
Lemma post_duplicate_serial_without_name :
  (coll example_store devices !! "d1" ≫= (λ d, d !! "serialNumber"))
  = serial_only !! "serialNumber"
  ∧ status (post_devices example_now "d2" u1 serial_only example_store).1 = 400
  ∧ (post_devices example_now "d2" u1 serial_only example_store).2 = example_store.
Proof. repeat split; reflexivity. Qed.

(** The sentences the organization and the device handlers answer a
    failed validation with. *)
Definition organizations_required_message : string := "Name and email are required".
Definition devices_required_message : string :=
  "Device name, type, and serial number are required".

Lemma missingFields_elem (body : doc) (g : string) :
  g ∈ missingFields body ↔ g ∈ requiredFields ∧ truthy_opt (body !! g) = false.
Proof.
  unfold missingFields. rewrite list_elem_of_filter.
  destruct (truthy_opt (body !! g)); simpl; split; intros [? ?]; done.
Qed.

(** C4, as amended: a [POST] that leaves out a required field (or sends
    a falsy value for it) is answered 400 ["Validation failed"] and
    writes nothing.  For a gym the details list one entry
    ["<field> is required"] for every required field that is missing, in
    the order of the required fields.  For an organization and for a
    device the details are one fixed sentence that lists all required
    fields, the same whichever of them is missing; for a device that
    sentence mentions [type]. *)
Theorem post_missing_field_rejected
    (now : nat → string) (newId : string) (parseInt parseFloat : value → value)
    (orderBy_createdAt_desc : gmap string doc → value → outcome snapshot)
    (u : claims) (e : endpoint) (fs : list string) (f : string)
    (query body : doc) (s : db) :
  required e = Some fs →
  f ∈ fs →
  truthy_opt (body !! f) = false →
  ∃ r details,
    handle now newId parseInt parseFloat orderBy_createdAt_desc e u query body s
    = (r, s)
    ∧ status r = 400
    ∧ field r "error" = Some (VStr "Validation failed")
    ∧ field r "details" = Some (VArr details)
    ∧ match e with
      | POST_gyms _ =>
          details = map (λ g, VStr (g +:+ " is required")) (missingFields body)
          ∧ ∀ g, g ∈ fs → truthy_opt (body !! g) = false →
                 VStr (g +:+ " is required") ∈ details
      | POST_organizations => details = [VStr organizations_required_message]
      | _ =>
          details = [VStr devices_required_message]
          ∧ occurs "type" devices_required_message = true
      end.
Proof.
  intros Hfs Hf Hmissing. destruct e; simplify_eq/=.
  - (* organizations *)
    exists (res_status_json 400
              [("error", VStr "Validation failed");
               ("details", VArr [VStr organizations_required_message])]),
           [VStr organizations_required_message].
    split_and!; try done.
    unfold post_organizations, try_catch.
    apply elem_of_cons in Hf as [->|[->|[]%elem_of_nil]%elem_of_cons];
      rewrite Hmissing; cbn [negb orb]; [done|].
    by rewrite orb_true_r.
  - (* devices *)
    exists (res_status_json 400
              [("error", VStr "Validation failed");
               ("details", VArr [VStr devices_required_message])]),
           [VStr devices_required_message].
    split_and!; try done.
    unfold post_devices, try_catch.
    apply elem_of_cons in Hf
      as [->|[->|[->|[]%elem_of_nil]%elem_of_cons]%elem_of_cons];
      rewrite Hmissing; cbn [negb orb]; [done| |];
      by rewrite ?orb_true_r.
  - (* gyms *)
    assert (f ∈ missingFields body) as Hin by (by apply missingFields_elem).
    exists (res_status_json 400
              [("success", VBool false); ("error", VStr "Validation failed");
               ("details",
                VArr (map (λ g, VStr (g +:+ " is required")) (missingFields body)))]),
           (map (λ g, VStr (g +:+ " is required")) (missingFields body)).
    split_and!; try done.
    + unfold post_gyms, try_catch.
      case_bool_decide as Hnil; [|done].
      rewrite Hnil in Hin. by apply elem_of_nil in Hin.
    + intros g Hg Hgm.
      apply (list_elem_of_fmap_2 (λ g, VStr (g +:+ " is required"))).
      by apply missingFields_elem.
Qed.

(** A device without [type]. *)
Definition device_without_type : doc :=
  <["deviceName" := VStr "Bike 7"]> (<["serialNumber" := VStr "SN-7"]> ∅).

Lemma post_missing_field_rejected_witness :
  ∃ r, post_devices example_now "d7" u1 device_without_type example_store
       = (r, example_store)
       ∧ status r = 400
       ∧ field r "details" = Some (VArr [VStr devices_required_message])
       ∧ occurs "type" devices_required_message = true.
Proof.
  destruct (post_missing_field_rejected example_now "d7" (λ v, v) (λ v, v)
              (λ c n, Ok (map_to_list c)) u1 POST_devices
              ["deviceName"; "type"; "serialNumber"] "type" ∅
              device_without_type example_store)
    as (r & details & Hrun & Hstatus & _ & Hdetails & -> & Htype);
    [reflexivity|by right; left|reflexivity|].
  exists r. by split_and!.
Defined.

Definition device_without_name : doc :=
  <["type" := VStr "bike"]> (<["serialNumber" := VStr "SN-7"]> ∅).

(** C4 as stated fails on a device without [deviceName]: the details
    are the fixed sentence, which does not hold the name of the missing
    field, and are the very details sent for a device without [type]. *)
Lemma post_device_details_do_not_name_field :
  status (post_devices example_now "d7" u1 device_without_name example_store).1 = 400
  ∧ field (post_devices example_now "d7" u1 device_without_name example_store).1
      "details"
    = Some (VArr [VStr devices_required_message])
  ∧ occurs "deviceName" devices_required_message = false
  ∧ (post_devices example_now "d7" u1 device_without_name example_store).1
    = (post_devices example_now "d7" u1 device_without_type example_store).1.
Proof. repeat split; reflexivity. Qed.

(** ** Listing organizations *)

(** C10, as amended: a [GET /organizations] whose [organizationId] query
    parameter is a document id (a single path segment that the store
    accepts) is not a filtered list: the answer is the one document of
    that id, as an object, or a 404, and the store's ordering, the
    [limit] parameter and the [count] field play no part in it. *)
Theorem get_organizations_by_id
    (parseInt : value → value)
    (orderBy_createdAt_desc : gmap string doc → value → outcome snapshot)
    (query : doc) (id : string) (s : db) :
  query !! "organizationId" = Some (VStr id) →
  segment id →
  ∃ r, get_organizations parseInt orderBy_createdAt_desc query s = (r, s)
       ∧ field r "count" = None
       ∧ match coll s organizations !! id with
         | Some d =>
             r = res_json [("success", VBool true); ("data", with_id id d)]
             ∧ status r = 200
             ∧ field r "data" = Some (VObj (d ∪ {["id" := VStr id]}))
         | None =>
             r = res_status_json 404 [("error", VStr "Organization not found")]
             ∧ status r = 404
             ∧ field r "data" = None
         end.
Proof.
  intros Hq [Hid _]%segment_inv.
  assert (get_organizations parseInt orderBy_createdAt_desc query s
          = (match coll s organizations !! id with
             | Some d => res_json [("success", VBool true); ("data", with_id id d)]
             | None => res_status_json 404 [("error", VStr "Organization not found")]
             end, s)) as Hrun.
  { unfold get_organizations, try_catch. rewrite Hq. cbn [truthy_opt truthy].
    apply String.eqb_neq in Hid as Hid'. rewrite Hid'. cbn [negb].
    rewrite (docRef_string id Hid), bind_ret, bind_get.
    by destruct (coll s organizations !! id). }
  eexists. split; [exact Hrun|].
  destruct (coll s organizations !! id) as [d|].
  - split_and!; try done;
      unfold field, res_json, obj; cbn [json foldl fst snd];
      by rewrite ?lookup_insert_eq, ?lookup_insert_ne.
  - split_and!; done.
Qed.

Lemma get_organizations_by_id_witness :
  ∃ r, get_organizations (λ v, v) example_orderBy
         (<["organizationId" := VStr "o2"]> (<["limit" := VStr "1"]> ∅))
         example_store
       = (r, example_store)
       ∧ status r = 200
       ∧ field r "count" = None
       ∧ field r "data" = Some (VObj (beta ∪ {["id" := VStr "o2"]})).
Proof.
  destruct (get_organizations_by_id (λ v, v) example_orderBy
              (<["organizationId" := VStr "o2"]> (<["limit" := VStr "1"]> ∅))
              "o2" example_store)
    as (r & Hrun & Hcount & Hr); [reflexivity|by split|].
  change (coll example_store organizations !! "o2") with (Some beta) in Hr.
  destruct Hr as (_ & Hstatus & Hdata).
  exists r. by split_and!.
Defined.

(** C10 as stated fails on [?organizationId=]: the parameter is
    supplied, no organization has the empty id, and the answer is the
    200 of the list, with the array, latest first, and its count. *)
Lemma get_organizations_empty_id_lists :
  coll dated_store organizations !! "" = None
  ∧ status (get_organizations (λ v, v) example_orderBy
              {["organizationId" := VStr ""]} dated_store).1 = 200
  ∧ field (get_organizations (λ v, v) example_orderBy
             {["organizationId" := VStr ""]} dated_store).1 "count"
    = Some (VNum 2)
  ∧ field (get_organizations (λ v, v) example_orderBy
             {["organizationId" := VStr ""]} dated_store).1 "data"
    = Some (VArr [with_id "o2" (created "2024-04-02T09:00:00Z" beta);
                  with_id "o1" (created "2024-04-01T09:00:00Z" acme)]).
Proof. repeat split; reflexivity. Qed.

(** ** Changing a uniqueness field *)

(** C3 on the organization handler: it gives an organization the e-mail
    address of another one, and answers 200. *)
Theorem put_organization_duplicate_email_accepted :
  status (put_organizations_id example_now u1 "o2"
            {["email" := VStr "a@acme.com"]} example_store).1 = 200
  ∧ (coll (put_organizations_id example_now u1 "o2"
             {["email" := VStr "a@acme.com"]} example_store).2 organizations
       !! "o1" ≫= (λ d, d !! "email")) = Some (VStr "a@acme.com")
  ∧ (coll (put_organizations_id example_now u1 "o2"
             {["email" := VStr "a@acme.com"]} example_store).2 organizations
       !! "o2" ≫= (λ d, d !! "email")) = Some (VStr "a@acme.com").
Proof. repeat split; reflexivity. Qed.

(** No update of an organization is ever answered 409. *)
Lemma put_organization_never_conflict
    (now : nat → string) (u : claims) (id : string) (body : doc) (s : db) :
  status (put_organizations_id now u id body s).1 ∈ [200; 404; 500]%list.
Proof.
  unfold put_organizations_id, try_catch. rewrite bind_get.
  destruct (coll s organizations !! id) as [d|]; [|set_solver].
  unfold bind.
  destruct (update _ _ _ s) as [[[]|why] s']; cbn [fst]; set_solver.
Qed.

(** The device handler does run the check: a serial number that changes
    to the one of another device is answered 409 and nothing is
    written. *)
Lemma put_device_duplicate_serial_conflict
    (now : nat → string) (u : claims) (id : string) (body : doc) (d : doc)
    (v : value) (id' : string) (d' : doc) (s : db) :
  coll s devices !! id = Some d →
  body !! "serialNumber" = Some v → truthy v = true →
  strict_neq (Some v) (d !! "serialNumber") = true →
  coll s devices !! id' = Some d' → d' !! "serialNumber" = Some v →
  put_devices_id now u id body s
  = (res_status_json 409
       [("error", VStr "Device with this serial number already exists")], s).
Proof.
  intros Hd Hv Ht Hchg Hd' Hv'.
  destruct (probe_found devices "serialNumber" v s id' d' Hd' Hv') as (q & Hq & Hne).
  unfold put_devices_id, try_catch. rewrite bind_get, Hd, Hv.
  cbn [truthy_opt]. rewrite Ht, Hchg. cbn [andb].
  unfold bind at 1. unfold bind at 1. rewrite Hq. unfold ret at 1.
  rewrite Hne. reflexivity.
Qed.

(** ** Every organization keeps a name

    The bulk assignment reads the name of its target organization.  The
    handlers never leave an organization without one: a store in which
    every organization has a [name] stays so under every route. *)

Definition named (s : db) : Prop :=
  ∀ id d, coll s organizations !! id = Some d → is_Some (d !! "name").

(** [m] writes nothing. *)
Definition reads {A} (m : M A) : Prop := ∀ s, (m s).2 = s.

(** [m] keeps the property [P] of the store. *)
Definition keeps (P : db → Prop) {A} (m : M A) : Prop := ∀ s, P s → P (m s).2.

Lemma reads_keeps (P : db → Prop) {A} (m : M A) : reads m → keeps P m.
Proof. intros Hm s Hs. by rewrite Hm. Qed.

Lemma reads_ret {A} (a : A) : reads (ret a).
Proof. done. Qed.

Lemma reads_throw {A} (e : string) : reads (@throw A e).
Proof. done. Qed.

Lemma reads_bind {A B} (m : M A) (k : A → M B) :
  reads m → (∀ a, reads (k a)) → reads (let* x := m in k x).
Proof.
  intros Hm Hk s. unfold bind. specialize (Hm s).
  destruct (m s) as [[a|e] s']; simpl in *; subst; [apply Hk|done].
Qed.

Lemma reads_get (c : path) (id : string) : reads (get c id).
Proof. done. Qed.

Lemma reads_docRef (v : option value) : reads (docRef v).
Proof. destruct v as [[| | |i| |]|]; try done. unfold docRef. by destruct (String.eqb i ""). Qed.

Lemma reads_where_eq (c : path) (f : string) (v : option value) :
  reads (where_eq c f v).
Proof. by destruct v. Qed.

Lemma reads_limit (n : nat) (q : M snapshot) : reads q → reads (limit n q).
Proof. intros. apply reads_bind; [done|]. intros. apply reads_ret. Qed.

Lemma reads_batch_update (b : batch) (c : path) (id : string) (data : literal) :
  reads (batch_update b c id data).
Proof. unfold batch_update. by destruct (fields data). Qed.

Lemma reads_stage_devices now u organizationId organizationName deviceIds :
  ∀ staged updated,
    reads (stage_devices now u organizationId organizationName deviceIds
             staged updated).
Proof.
  induction deviceIds as [|i ids IH]; intros staged updated; [apply reads_ret|].
  cbn [stage_devices].
  apply reads_bind; [apply reads_docRef|]. intros ref.
  apply reads_bind; [apply reads_get|]. intros [d|]; [|apply IH].
  apply reads_bind; [apply reads_batch_update|]. intros. apply IH.
Qed.

Lemma keeps_bind (P : db → Prop) {A B} (m : M A) (k : A → M B) :
  keeps P m → (∀ a, keeps P (k a)) → keeps P (let* x := m in k x).
Proof.
  intros Hm Hk s Hs. unfold bind. specialize (Hm s Hs).
  destruct (m s) as [[a|e] s']; simpl in *; [by apply Hk|done].
Qed.

Lemma keeps_try_catch (P : db → Prop) (m : M response) (h : string → response) :
  keeps P m → ∀ s, P s → P (try_catch m h s).2.
Proof.
  intros Hm s Hs. unfold try_catch. specialize (Hm s Hs).
  by destruct (m s) as [[r|e] s'].
Qed.

Lemma fields_go_keeps_key (k : string) (l : literal) :
  ∀ acc d, fields_go acc l = Some d → is_Some (acc !! k) → is_Some (d !! k).
Proof.
  induction l as [|[k' [v|]] l IH]; intros acc d; cbn [fields_go];
    [by intros [= <-]| |done].
  intros Hd Hk. apply (IH _ _ Hd).
  destruct (decide (k' = k)) as [->|]; [by rewrite lookup_insert_eq|].
  by rewrite lookup_insert_ne.
Qed.

Lemma named_set_doc (c : path) (id : string) (d : doc) (s : db) :
  named s → (c = organizations → is_Some (d !! "name")) → named (set_doc c id d s).
Proof.
  intros Hs Hd id' d'. rewrite coll_set_doc. case_decide as Hc; [|apply Hs].
  subst c. destruct (decide (id = id')) as [->|].
  - rewrite lookup_insert_eq. intros [= <-]. by apply Hd.
  - rewrite lookup_insert_ne by done. apply Hs.
Qed.

Lemma keeps_named_add (newId : string) (c : path) (data : literal) :
  (c = organizations → ∃ o rest, data = ("name", o) :: rest) →
  keeps named (add newId c data).
Proof.
  intros Hc s Hs. unfold add. destruct (fields data) as [d|] eqn:Ed; [|done].
  destruct (coll s c !! newId); [done|]. cbn [snd].
  apply named_set_doc; [done|]. intros ->.
  destruct (Hc eq_refl) as (o & rest & ->).
  unfold fields in Ed. cbn [fields_go] in Ed. destruct o as [v|]; [|done].
  apply (fields_go_keeps_key _ _ _ _ Ed). by rewrite lookup_insert_eq.
Qed.

Lemma named_merge (c : path) (id : string) (p old : doc) (s : db) :
  named s → coll s c !! id = Some old → named (set_doc c id (p ∪ old) s).
Proof.
  intros Hs Hold. apply named_set_doc; [done|]. intros ->.
  destruct (p !! "name") as [v|] eqn:E.
  - exists v. by apply lookup_union_Some_l.
  - rewrite lookup_union_r by done. by apply (Hs id).
Qed.

Lemma keeps_named_update (c : path) (id : string) (data : literal) :
  keeps named (update c id data).
Proof.
  intros s Hs. unfold update. destruct (fields data) as [p|]; [|done].
  destruct (coll s c !! id) as [old|] eqn:E; [|done]. by apply named_merge.
Qed.

Lemma keeps_named_delete_doc (c : path) (id : string) :
  keeps named (delete_doc c id).
Proof.
  intros s Hs id' d. unfold delete_doc. cbn [snd]. rewrite coll_insert.
  case_decide as Hc; [|apply Hs]. subst c.
  intros [_ Hd]%lookup_delete_Some. by apply (Hs id').
Qed.

Lemma keeps_named_commit (b : batch) : keeps named (commit b).
Proof.
  intros s Hs. unfold commit. destruct (forallb _ b); [|done]. cbn [snd].
  clear -Hs. revert s Hs. induction b as [|[[c i] p] b IH]; intros s Hs; [done|].
  cbn [foldl]. apply IH. unfold apply_update.
  destruct (coll s c !! i) eqn:E; [|done]. by apply named_merge.
Qed.

Lemma reads_ordered
    (orderBy_createdAt_desc : gmap string doc → value → outcome snapshot)
    (c : path) (n : value) :
  reads (ordered orderBy_createdAt_desc c n).
Proof. done. Qed.

Ltac reads_step :=
  first
    [ apply reads_ret | apply reads_throw | apply reads_get | apply reads_docRef
    | apply reads_where_eq | apply reads_limit | apply reads_ordered
    | apply reads_stage_devices | apply reads_batch_update ].

Ltac keeps_step :=
  first
    [ apply keeps_bind; [|intros ?]
    | apply reads_keeps; solve [repeat reads_step]
    | apply keeps_named_update
    | apply keeps_named_delete_doc
    | apply keeps_named_commit
    | apply keeps_named_add; solve [intros [=] | intros _; eexists _, _; reflexivity]
    | match goal with
      | |- keeps _ (if ?b then _ else _) => destruct b
      | |- keeps _ (match ?x with _ => _ end) => destruct x
      end ].

(** Whatever the route and the request, a store whose organizations all
    have a name is left with that property. *)
Theorem handlers_keep_organizations_named
    (now : nat → string) (newId : string) (parseInt parseFloat : value → value)
    (orderBy_createdAt_desc : gmap string doc → value → outcome snapshot)
    (e : endpoint) (u : claims) (query body : doc) (s : db) :
  named s →
  named (handle now newId parseInt parseFloat orderBy_createdAt_desc e u query body s).2.
Proof.
  destruct e; cbn [handle];
    unfold get_organizations, post_organizations, put_organizations_id,
      delete_organizations_id, post_devices, put_devices_id,
      post_devices_bulk_assign, get_gyms, post_gyms, put_gyms_id,
      organization_name, organization_assignment;
    apply keeps_try_catch; cbv zeta; repeat keeps_step.
Qed.

Lemma named_empty : named ∅.
Proof. intros id d. unfold coll. by rewrite lookup_empty. Qed.

(** The two list routes write nothing. *)
Lemma get_routes_write_nothing
    (parseInt : value → value)
    (orderBy_createdAt_desc : gmap string doc → value → outcome snapshot)
    (orgId : string) (query : doc) (s : db) :
  (get_organizations parseInt orderBy_createdAt_desc query s).2 = s
  ∧ (get_gyms parseInt orderBy_createdAt_desc orgId query s).2 = s.
Proof.
  split;
    apply (keeps_try_catch (λ s', s' = s)); [|done| |done];
    cbv zeta; apply reads_keeps.
  - destruct (truthy_opt _).
    + apply reads_bind; [apply reads_docRef|]. intros id.
      apply reads_bind; [apply reads_get|]. intros [d|]; apply reads_ret.
    + apply reads_bind; [apply reads_ordered|]. intros q. apply reads_ret.
  - apply reads_bind; [apply reads_get|]. intros [d|]; [|apply reads_ret].
    apply reads_bind; [apply reads_ordered|]. intros q.
    destruct (snapshot_empty q); apply reads_ret.
Qed.

(** The scenario of the specification: an organization is created, and a
    second one with the same e-mail address is refused. *)
Definition acme_body : doc :=
  <["name" := VStr "Acme"]> (<["email" := VStr "a@acme.com"]> ∅).

Example create_organization_twice :
  status (post_organizations example_now "o1" u1 acme_body ∅).1 = 201
  ∧ field (post_organizations example_now "o1" u1 acme_body ∅).1 "data"
      ≫= (λ d, match d with VObj m => m !! "id" | _ => None end)
    = Some (VStr "o1")
  ∧ status (post_organizations example_now "o2" u1 acme_body
              (post_organizations example_now "o1" u1 acme_body ∅).2).1 = 409
  ∧ (post_organizations example_now "o2" u1 acme_body
       (post_organizations example_now "o1" u1 acme_body ∅).2).2
    = (post_organizations example_now "o1" u1 acme_body ∅).2.
Proof. repeat split; reflexivity. Qed.

(** * The remaining routes of the three routers *)

(** [query = query.where(field, "==", v)] for each entry of [filters], on
    the documents of a collection. *)
Definition where_all (filters : literal) (c : gmap string doc) : gmap string doc :=
  foldl (λ m fv, match fv.2 with
                 | Some v => matching fv.1 v m
                 | None => m
                 end) c filters.

Section MoreHandlers.
  Variable now : nat → string.
  Variable newId : string.
  Variable parseInt : value → value.
  Variable parseFloat : value → value.
  Variable orderBy_createdAt_desc : gmap string doc → value → outcome snapshot.

(** [await query.orderBy("createdAt", "desc").limit(n).get()] on a query
    that carries equality filters. *)
Definition ordered_where (c : path) (filters : literal) (n : value) : M snapshot :=
  λ s, (orderBy_createdAt_desc (where_all filters (coll s c)) n, s).

(** [GET /organizations/:id] *)
Definition get_organizations_id (id : string) : db → response * db :=
  try_catch
    (let* d := get organizations id in
     match d with
     | None =>
         ret (res_status_json 404
                [("success", VBool false); ("error", VStr "Organization not found")])
     | Some data =>
         ret (res_json [("success", VBool true); ("data", with_id id data)])
     end)
    (organizations_failed "Failed to fetch organization").

(** [GET /devices] *)
Definition get_devices (query : doc) : db → response * db :=
  try_catch
    (let lim := default (VNum 100) (query !! "limit") in
     let organizationId := query !! "organizationId" in
     let type := query !! "type" in
     let status := query !! "status" in
     let filters :=
       (set_if (truthy_opt organizationId) "organizationId" organizationId
        ++ set_if (truthy_opt type) "type" type
        ++ set_if (truthy_opt status) "status" status)%list in
     let* q := ordered_where devices filters (parseInt lim) in
     ret (res_json [("success", VBool true); ("data", listed q); ("count", count q)]))
    (devices_failed "Failed to fetch devices").

(** [GET /devices/:id] *)
Definition get_devices_id (id : string) : db → response * db :=
  try_catch
    (let* d := get devices id in
     match d with
     | None =>
         ret (res_status_json 404
                [("success", VBool false); ("error", VStr "Device not found")])
     | Some data =>
         ret (res_json [("success", VBool true); ("data", with_id id data)])
     end)
    (devices_failed "Failed to fetch device").

(** [DELETE /devices/:id] *)
Definition delete_devices_id (u : claims) (id : string) : db → response * db :=
  try_catch
    (let* d := get devices id in
     match d with
     | None =>
         ret (res_status_json 404
                [("success", VBool false); ("error", VStr "Device not found")])
     | Some data =>
         run delete_doc devices id in
         run add newId audit_logs
               [("action", Some (VStr "delete_device"));
                ("deviceId", Some (VStr id));
                ("performedBy", Some (VStr (uid u)));
                ("timestamp", stamp now 0);
                ("details", Some (VObj data))] in
         ret (res_json
                [("success", VBool true);
                 ("message", VStr "Device deleted successfully")])
     end)
    (devices_failed "Failed to delete device").

(** [GET /organizations/:orgId/gyms/:gymId] *)
Definition get_gyms_id (orgId gymId : string) : db → response * db :=
  try_catch
    (let* d := get (gyms orgId) gymId in
     match d with
     | None =>
         ret (res_status_json 404
                [("success", VBool false); ("error", VStr "Gym not found")])
     | Some data =>
         ret (res_json [("success", VBool true); ("data", with_id gymId data)])
     end)
    (gyms_failed "Failed to fetch gym").

(** [DELETE /organizations/:orgId/gyms/:gymId] *)
Definition delete_gyms_id (u : claims) (orgId gymId : string)
  : db → response * db :=
  try_catch
    (let* d := get (gyms orgId) gymId in
     match d with
     | None =>
         ret (res_status_json 404
                [("success", VBool false); ("error", VStr "Gym not found")])
     | Some data =>
         run delete_doc (gyms orgId) gymId in
         run add newId audit_logs
               [("action", Some (VStr "delete_gym"));
                ("gymId", Some (VStr gymId));
                ("organizationId", Some (VStr orgId));
                ("performedBy", Some (VStr (uid u)));
                ("timestamp", stamp now 0);
                ("details", Some (VObj data))] in
         ret (res_json
                [("success", VBool true);
                 ("message", VStr "Gym deleted successfully")])
     end)
    (gyms_failed "Failed to delete gym").

(** *** All the routes behind the authenticator *)

Inductive route :=
  | Route (e : endpoint)
  | GET_organizations_id (id : string)
  | GET_devices
  | GET_devices_id (id : string)
  | DELETE_devices_id (id : string)
  | GET_gyms_id (orgId gymId : string)
  | DELETE_gyms_id (orgId gymId : string).

Definition serve (r : route) (u : claims) (query body : doc)
  : db → response * db :=
  match r with
  | Route e => handle now newId parseInt parseFloat orderBy_createdAt_desc e u query body
  | GET_organizations_id id => get_organizations_id id
  | GET_devices => get_devices query
  | GET_devices_id id => get_devices_id id
  | DELETE_devices_id id => delete_devices_id u id
  | GET_gyms_id orgId gymId => get_gyms_id orgId gymId
  | DELETE_gyms_id orgId gymId => delete_gyms_id u orgId gymId
  end.

End MoreHandlers.

(** *** The ids of a request

    The path parameters of a route, and the values of the body and of
    the query string that its handler hands to [doc()]. *)
Definition params (r : route) : list string :=
  match r with
  | Route (PUT_organizations_id id) | Route (DELETE_organizations_id id)
  | GET_organizations_id id
  | Route (PUT_devices_id id) | GET_devices_id id | DELETE_devices_id id => [id]
  | Route (GET_gyms orgId) | Route (POST_gyms orgId) => [orgId]
  | Route (PUT_gyms_id orgId gymId) | GET_gyms_id orgId gymId
  | DELETE_gyms_id orgId gymId => [orgId; gymId]
  | Route GET_organizations | Route POST_organizations | Route POST_devices
  | Route POST_devices_bulk_assign | GET_devices => []
  end.

Definition named_ids (r : route) (query body : doc) : list value :=
  match r with
  | Route GET_organizations => option_list (query !! "organizationId")
  | Route POST_devices | Route (PUT_devices_id _) =>
      option_list (body !! "organizationId")
  | Route POST_devices_bulk_assign =>
      (option_list (body !! "organizationId")
       ++ match body !! "deviceIds" with
          | Some (VArr deviceIds) => deviceIds
          | _ => []
          end)%list
  | _ => []
  end.

(** A value of a request that can be taken as a document id when it is
    handed to [doc()]: not a string with a slash.  (A value that is not
    a string, and the empty string, are refused by the client and by
    [docRef] alike.) *)
Definition slash_free (v : value) : Prop :=
  ∀ id, v = VStr id → occurs "/" id = false.

(** Every id of the request is a document id. *)
Definition document_ids (r : route) (query body : doc) : Prop :=
  Forall segment (params r) ∧ Forall slash_free (named_ids r query body).

(** ** What every route answers, and when it writes *)

(** Every response the body [m] returns satisfies [P]. *)
Definition answers (P : response → Prop) (m : M response) : Prop :=
  ∀ s r s', m s = (Ok r, s') → P r.

Definition client_error (r : response) : Prop :=
  status r = 400 ∨ status r = 404 ∨ status r = 409.

Definition success (r : response) : Prop := status r = 200 ∨ status r = 201.

(** A body that has written something does not return a client error. *)
Definition clean (m : M response) : Prop :=
  ∀ s r s', m s = (Ok r, s') → client_error r → s' = s.

Lemma answers_ret (P : response → Prop) (r : response) : P r → answers P (ret r).
Proof. by intros HP s r' s' [= <- _]. Qed.

Lemma answers_bind (P : response → Prop) {A} (m : M A) (k : A → M response) :
  (∀ a, answers P (k a)) → answers P (let* x := m in k x).
Proof.
  intros Hk s r s'. unfold bind. destruct (m s) as [[a|e] s1]; [apply Hk|done].
Qed.

Lemma answers_try_catch (P : response → Prop) (m : M response)
    (h : string → response) (s : db) :
  answers P m → (∀ e, P (h e)) → P (try_catch m h s).1.
Proof.
  intros Hm Hh. unfold try_catch. specialize (Hm s).
  destruct (m s) as [[r|e] s']; [by eapply Hm|apply Hh].
Qed.

Lemma clean_ret (r : response) : clean (ret r).
Proof. by intros s r' s' [= _ <-]. Qed.

Lemma clean_bind {A} (m : M A) (k : A → M response) :
  reads m → (∀ a, clean (k a)) → clean (let* x := m in k x).
Proof.
  intros Hm Hk s r s'. unfold bind. specialize (Hm s).
  destruct (m s) as [[a|e] s1]; simpl in Hm; subst; [apply Hk|done].
Qed.

Lemma clean_success (m : M response) : answers success m → clean m.
Proof.
  intros Hm s r s' Hrun Herr. destruct (Hm s r s' Hrun) as [H|H];
    destruct Herr as [?|[?|?]]; congruence.
Qed.

Lemma clean_try_catch (m : M response) (h : string → response) (s : db) :
  clean m → (∀ e, status (h e) = 500) →
  client_error (try_catch m h s).1 → (try_catch m h s).2 = s.
Proof.
  intros Hm Hh. unfold try_catch. specialize (Hm s).
  destruct (m s) as [[r|e] s']; cbn [fst snd]; [by eapply Hm|].
  unfold client_error. rewrite Hh. by intros [?|[?|?]].
Qed.

Ltac split_body :=
  match goal with
  | |- context [if ?b then _ else _] => destruct b
  | |- context [match ?x with _ => _ end] => destruct x
  end.

Ltac in_list :=
  cbn [status res_json res_status_json];
  solve [repeat first [apply list_elem_of_here | apply list_elem_of_further]].

Ltac answers_step tac :=
  first
    [ apply answers_bind; intros ?
    | apply answers_ret; tac
    | match goal with
      | |- answers _ (if ?b then _ else _) => destruct b
      | |- answers _ (match ?x with _ => _ end) => destruct x
      end ].

Lemma reads_ordered_where
    (orderBy_createdAt_desc : gmap string doc → value → outcome snapshot)
    (c : path) (filters : literal) (n : value) :
  reads (ordered_where orderBy_createdAt_desc c filters n).
Proof. done. Qed.

Ltac reads_tac :=
  repeat first
    [ reads_step
    | apply reads_ordered_where
    | apply reads_bind; [|intros ?]
    | match goal with
      | |- reads (if ?b then _ else _) => destruct b
      | |- reads (match ?x with _ => _ end) => destruct x
      end ].

Ltac clean_step :=
  first
    [ apply clean_ret
    | apply clean_bind; [solve [reads_tac]|intros ?]
    | match goal with
      | |- clean (if ?b then _ else _) => destruct b
      | |- clean (match ?x with _ => _ end) => destruct x
      end
    | apply clean_success;
      repeat answers_step ltac:(cbn [status res_json res_status_json];
                                solve [by left | by right]) ].

Ltac unfold_routes :=
  cbn [serve handle];
  unfold get_organizations, post_organizations, put_organizations_id,
    delete_organizations_id, post_devices, put_devices_id,
    post_devices_bulk_assign, get_gyms, post_gyms, put_gyms_id,
    get_organizations_id, get_devices, get_devices_id, delete_devices_id,
    get_gyms_id, delete_gyms_id, organization_name, organization_assignment.

(** The status codes a route can answer with. *)
Definition statuses_of (r : route) : list nat :=
  match r with
  | Route GET_organizations => [200; 404; 500]
  | Route POST_organizations => [201; 400; 409; 500]
  | Route (PUT_organizations_id _) => [200; 404; 500]
  | Route (DELETE_organizations_id _) => [200; 404; 409; 500]
  | Route POST_devices => [201; 400; 404; 409; 500]
  | Route (PUT_devices_id _) => [200; 404; 409; 500]
  | Route POST_devices_bulk_assign => [200; 400; 404; 500]
  | Route (GET_gyms _) => [200; 500]
  | Route (POST_gyms _) => [201; 400; 404; 500]
  | Route (PUT_gyms_id _ _) => [200; 404; 500]
  | GET_organizations_id _ => [200; 404; 500]
  | GET_devices => [200; 500]
  | GET_devices_id _ => [200; 404; 500]
  | DELETE_devices_id _ => [200; 404; 500]
  | GET_gyms_id _ _ => [200; 404; 500]
  | DELETE_gyms_id _ _ => [200; 404; 500]
  end.

Section AllRoutes.
  Variable now : nat → string.
  Variable newId : string.
  Variable parseInt : value → value.
  Variable parseFloat : value → value.
  Variable orderBy_createdAt_desc : gmap string doc → value → outcome snapshot.

  #[local] Abbreviation serve' :=
    (serve now newId parseInt parseFloat orderBy_createdAt_desc).

(** Each route answers only with the status codes of its list: a create
    answers 201 and never 200, only the routes with a uniqueness or a
    dependency check answer 409, the gym list never answers 404, and no
    update of an organization or of a gym answers 409. *)
Theorem serve_statuses (r : route) (u : claims) (query body : doc) (s : db) :
  status (serve' r u query body s).1 ∈ statuses_of r.
Proof.
  destruct r as [[]| | | | | |]; unfold_routes;
    apply (answers_try_catch (λ r', status r' ∈ _));
    try (intros; in_list);
    cbv zeta; repeat answers_step in_list.
Qed.

(** A response 400, 404 or 409 means that the request wrote nothing. *)
Theorem client_errors_write_nothing
    (r : route) (u : claims) (query body : doc) (s : db) :
  client_error (serve' r u query body s).1 →
  (serve' r u query body s).2 = s.
Proof.
  destruct r as [[]| | | | | |]; unfold_routes;
    apply clean_try_catch; try done;
    cbv zeta; repeat clean_step.
Qed.

End AllRoutes.

Lemma client_errors_write_nothing_witness :
  status (serve example_now "d2" (λ v, v) (λ v, v) example_orderBy
            (Route POST_devices) u1 ∅ serial_only example_store).1 = 400
  ∧ (serve example_now "d2" (λ v, v) (λ v, v) example_orderBy
       (Route POST_devices) u1 ∅ serial_only example_store).2 = example_store.
Proof.
  split; [reflexivity|].
  apply client_errors_write_nothing. left. reflexivity.
Defined.

(** The record a by-id route ([GET], [PUT], [DELETE]) addresses. *)
Definition addressed (r : route) : option (path * string) :=
  match r with
  | Route (PUT_organizations_id id) | Route (DELETE_organizations_id id)
  | GET_organizations_id id => Some (organizations, id)
  | Route (PUT_devices_id id) | GET_devices_id id | DELETE_devices_id id =>
      Some (devices, id)
  | Route (PUT_gyms_id orgId gymId) | GET_gyms_id orgId gymId
  | DELETE_gyms_id orgId gymId => Some (gyms orgId, gymId)
  | _ => None
  end.

(** The routes of the [GET] method. *)
Definition is_get (r : route) : bool :=
  match r with
  | Route GET_organizations | Route (GET_gyms _) | GET_organizations_id _
  | GET_devices | GET_devices_id _ | GET_gyms_id _ _ => true
  | _ => false
  end.

Section AllRoutesMore.
  Variable now : nat → string.
  Variable newId : string.
  Variable parseInt : value → value.
  Variable parseFloat : value → value.
  Variable orderBy_createdAt_desc : gmap string doc → value → outcome snapshot.

  #[local] Abbreviation serve' :=
    (serve now newId parseInt parseFloat orderBy_createdAt_desc).

(** Whatever the route and the request, a store whose organizations all
    have a [name] is left with that property. *)
Theorem routes_keep_organizations_named
    (r : route) (u : claims) (query body : doc) (s : db) :
  named s → named (serve' r u query body s).2.
Proof.
  destruct r as [[]| | | | | |]; unfold_routes;
    apply keeps_try_catch; cbv zeta;
    repeat first [apply reads_keeps; solve [reads_tac] | keeps_step].
Qed.

(** A route of the [GET] method writes nothing, whatever it answers:
    the store after the request is the store before, also when the
    store's list query fails and the answer is 500. *)
Theorem get_routes_read_only
    (r : route) (u : claims) (query body : doc) (s : db) :
  is_get r = true → (serve' r u query body s).2 = s.
Proof.
  intros Hget.
  destruct r as [[]| | | | | |]; try discriminate Hget; unfold_routes;
    apply (keeps_try_catch (λ s', s' = s)); try done;
    cbv zeta; apply reads_keeps; reads_tac; done.
Qed.

(** A by-id route whose path parameters are document ids, on a record
    that is not in the store, answers 404 and writes nothing: an update
    never creates the record it does not find, and a delete of nothing
    leaves no audit entry. *)
Theorem missing_record_not_found
    (r : route) (c : path) (id : string) (u : claims) (query body : doc) (s : db) :
  addressed r = Some (c, id) →
  Forall segment (params r) →
  coll s c !! id = None →
  status (serve' r u query body s).1 = 404
  ∧ field (serve' r u query body s).1 "success" = Some (VBool false)
  ∧ (serve' r u query body s).2 = s.
Proof.
  intros Hr _ Hnone.
  destruct r as [[]| | | | | |]; simplify_eq/=; unfold_routes;
    unfold try_catch; rewrite bind_get, Hnone; by vm_compute.
Qed.

End AllRoutesMore.

Lemma named_example_store : named example_store.
Proof.
  intros id d.
  change (coll example_store organizations)
    with (<["o1" := acme]> (<["o2" := beta]> (∅ : gmap string doc))).
  intros [[_ <-]|[_ [[_ <-]|[_ H]]%lookup_insert_Some]]%lookup_insert_Some;
    [by eexists|by eexists|by rewrite lookup_empty in H].
Qed.

Lemma routes_keep_organizations_named_witness :
  named (serve example_now "o3" (λ v, v) (λ v, v) example_orderBy
           (Route (PUT_organizations_id "o2")) u1 ∅
           {["name" := VStr ""]} example_store).2.
Proof.
  apply routes_keep_organizations_named. exact named_example_store.
Defined.

Lemma get_routes_read_only_witness :
  (serve example_now "unused" (λ v, v) (λ v, v) (λ c n, Threw "DEADLINE_EXCEEDED")
     GET_devices u1 {["type" := VStr "treadmill"]} ∅ example_store).2
  = example_store.
Proof. by apply get_routes_read_only. Defined.

Lemma missing_record_not_found_witness :
  status (serve example_now "log-1" (λ v, v) (λ v, v) example_orderBy
            (DELETE_gyms_id "o1" "g9") u1 ∅ ∅ example_store).1 = 404
  ∧ (serve example_now "log-1" (λ v, v) (λ v, v) example_orderBy
       (DELETE_gyms_id "o1" "g9") u1 ∅ ∅ example_store).2 = example_store.
Proof.
  destruct (missing_record_not_found example_now "log-1" (λ v, v) (λ v, v)
              example_orderBy (DELETE_gyms_id "o1" "g9") (gyms "o1") "g9"
              u1 ∅ ∅ example_store) as (H1 & _ & H2);
    [reflexivity|by repeat constructor|reflexivity|].
  by split.
Defined.

(** ** Running a handler body backwards *)

Lemma bind_inv {A B} (m : M A) (k : A → M B) (s s' : db) (b : B) :
  (let* x := m in k x) s = (Ok b, s') →
  ∃ a s1, m s = (Ok a, s1) ∧ k a s1 = (Ok b, s').
Proof.
  unfold bind. destruct (m s) as [[a|e] s1]; [|done]. intros H. by exists a, s1.
Qed.

Lemma reads_run {A} (m : M A) (s s1 : db) (a : A) :
  reads m → m s = (Ok a, s1) → s1 = s.
Proof. intros Hm H. specialize (Hm s). by rewrite H in Hm. Qed.

Lemma try_catch_inv (m : M response) (h : string → response) (s : db) (n : nat) :
  (∀ e, status (h e) = 500) → n ≠ 500 →
  status (try_catch m h s).1 = n →
  ∃ r s', m s = (Ok r, s') ∧ try_catch m h s = (r, s') ∧ status r = n.
Proof.
  intros Hh Hn. unfold try_catch. destruct (m s) as [[r|e] s']; cbn [fst].
  - intros Hr. by exists r, s'.
  - rewrite Hh. congruence.
Qed.

(** Take one step back in [H : body s = (Ok r, s')]. *)
Ltac back H :=
  lazymatch type of H with
  | ret _ _ = _ => injection H as <- <-
  | throw _ _ = _ => discriminate H
  | (if ?b then _ else _) _ = _ => destruct b eqn:?
  | (match ?x with _ => _ end) _ = _ => destruct x eqn:?
  | bind (add _ _ _) _ _ = _ => fail
  | bind (update _ _ _) _ _ = _ => fail
  | bind (delete_doc _ _) _ _ = _ => fail
  | bind (commit _) _ _ = _ => fail
  | bind _ _ _ = _ =>
      let a := fresh "a" in
      let s1 := fresh "s" in
      let Hm := fresh "Hm" in
      apply bind_inv in H as (a & s1 & Hm & H);
      try (let Hs := fresh in
           assert (s1 = _) as Hs
             by (eapply (λ Hr, reads_run _ _ _ _ Hr Hm); solve [reads_tac]);
           subst s1)
  end.

(** The last entry of a key in an object literal; [acc] when it has
    none. *)
Fixpoint literal_last (k : string) (l : literal) (acc : option value)
  : option value :=
  match l with
  | [] => acc
  | (k', o) :: l' => literal_last k l' (if decide (k' = k) then o else acc)
  end.

Lemma fields_go_lookup (k : string) (l : literal) :
  ∀ acc d, fields_go acc l = Some d → d !! k = literal_last k l (acc !! k).
Proof.
  induction l as [|[k' [v|]] l IH]; intros acc d; cbn [fields_go literal_last];
    [by intros [= <-]| |done].
  intros Hd. rewrite (IH _ _ Hd). f_equal.
  case_decide; [subst; by rewrite lookup_insert_eq|by rewrite lookup_insert_ne].
Qed.

Lemma fields_lookup (k : string) (l : literal) (d : doc) :
  fields l = Some d → d !! k = literal_last k l None.
Proof. intros H. by rewrite (fields_go_lookup k l ∅ d H), lookup_empty. Qed.

Lemma literal_last_app (k : string) (l1 l2 : literal) (acc : option value) :
  literal_last k (l1 ++ l2) acc = literal_last k l2 (literal_last k l1 acc).
Proof. revert acc. induction l1 as [|[k' o] l1 IH]; intros acc; [done|apply IH]. Qed.

Lemma literal_last_set_if (k k' : string) (c : bool) (o acc : option value) :
  literal_last k (set_if c k' o) acc
  = if c then (if decide (k' = k) then o else acc) else acc.
Proof. by destruct c. Qed.

(** ** Creating, and reading back *)

(** The collection a [POST] route adds to, and the route that reads the
    new record back. *)
Definition creates (r : route) : option (path * (string → route)) :=
  match r with
  | Route POST_organizations => Some (organizations, GET_organizations_id)
  | Route POST_devices => Some (devices, GET_devices_id)
  | Route (POST_gyms orgId) => Some (gyms orgId, GET_gyms_id orgId)
  | _ => None
  end.

(** The end of every create handler: add, fetch, answer 201. *)
Lemma create_tail (newId : string) (c : path) (data : literal) (message : string)
    (s s' : db) (r : response) :
  (let* id := add newId c data in
   let* createdDoc := get c id in
   ret (res_status_json 201
          [("success", VBool true); ("message", VStr message);
           ("data", with_id id (default ∅ createdDoc))])) s = (Ok r, s') →
  ∃ d, fields data = Some d
       ∧ coll s c !! newId = None
       ∧ s' = set_doc c newId d s
       ∧ r = res_status_json 201
               [("success", VBool true); ("message", VStr message);
                ("data", with_id newId d)].
Proof.
  intros H. apply bind_inv in H as (id & s1 & Hadd & H).
  unfold add in Hadd. destruct (fields data) as [d|]; [|done].
  destruct (coll s c !! newId) eqn:Efresh; [done|].
  injection Hadd as <- <-.
  rewrite bind_get, coll_set_doc_same, lookup_insert_eq in H.
  injection H as <- <-. by exists d.
Qed.

Section Create.
  Variable now : nat → string.
  Variable newId : string.
  Variable parseInt : value → value.
  Variable parseFloat : value → value.
  Variable orderBy_createdAt_desc : gmap string doc → value → outcome snapshot.

  #[local] Abbreviation serve' :=
    (serve now newId parseInt parseFloat orderBy_createdAt_desc).

(** A create that answers 201 has stored exactly one new record, under
    the generated id, which was free; the record carries the caller as
    its creator and the two time stamps; the response returns it with
    its id; and the by-id [GET] of the same kind, on the store the create
    left, answers 200 with the same data. *)
Theorem created_record_reads_back
    (r : route) (c : path) (reader : string → route)
    (u : claims) (query body : doc) (s : db) :
  creates r = Some (c, reader) →
  status (serve' r u query body s).1 = 201 →
  ∃ d, coll s c !! newId = None
       ∧ (serve' r u query body s).2 = set_doc c newId d s
       ∧ field (serve' r u query body s).1 "data" = Some (with_id newId d)
       ∧ d !! "createdBy" = Some (VStr (uid u))
       ∧ d !! "createdAt" = Some (VStr (now 0))
       ∧ d !! "updatedAt" = Some (VStr (now 1))
       ∧ ∀ u' query' body',
           serve' (reader newId) u' query' body' (set_doc c newId d s)
           = (res_json [("success", VBool true); ("data", with_id newId d)],
              set_doc c newId d s).
Proof.
  intros Hr H201.
  assert (∃ d data message,
            serve' r u query body s
            = (res_status_json 201
                 [("success", VBool true); ("message", VStr message);
                  ("data", with_id newId d)], set_doc c newId d s)
            ∧ fields data = Some d
            ∧ coll s c !! newId = None
            ∧ literal_last "createdBy" data None = Some (VStr (uid u))
            ∧ literal_last "createdAt" data None = Some (VStr (now 0))
            ∧ literal_last "updatedAt" data None = Some (VStr (now 1)))
    as (d & data & message & Hrun & Hd & Hfresh & Hby & Hat & Hup).
  { destruct r as [[]| | | | | |]; simplify_eq/=;
      unfold post_organizations, post_devices, post_gyms,
        organization_name in *;
      (apply try_catch_inv in H201 as (r' & s' & Hbody & -> & Hst); [|done|done]);
      cbv zeta in Hbody.
    all: repeat (back Hbody; try discriminate Hst).
    all: apply create_tail in Hbody as (d & Hd & Hfresh & -> & ->).
    all: eexists _, _, _; split_and!; [done|exact Hd|done|reflexivity..]. }
  exists d. rewrite Hrun. cbn [fst snd].
  rewrite !(fields_lookup _ _ _ Hd), Hby, Hat, Hup.
  split_and!; try done.
  intros u' query' body'.
  destruct r as [[]| | | | | |]; simplify_eq/=;
    unfold get_organizations_id, get_devices_id, get_gyms_id, try_catch;
    by rewrite bind_get, coll_set_doc_same, lookup_insert_eq.
Qed.

End Create.

(** A new organization. *)
Definition gamma_body : doc :=
  <["name" := VStr "Gamma"]> (<["email" := VStr "g@gamma.com"]> ∅).

Lemma created_record_reads_back_witness :
  ∃ d, (post_organizations example_now "o3" u1 gamma_body example_store).2
       = set_doc organizations "o3" d example_store
       ∧ d !! "createdBy" = Some (VStr "u1")
       ∧ get_organizations_id "o3" (set_doc organizations "o3" d example_store)
         = (res_json [("success", VBool true); ("data", with_id "o3" d)],
            set_doc organizations "o3" d example_store).
Proof.
  destruct (created_record_reads_back example_now "o3" (λ v, v) (λ v, v)
              example_orderBy (Route POST_organizations) organizations
              GET_organizations_id u1 ∅ gamma_body example_store)
    as (d & _ & Hs & _ & Hby & _ & _ & Hget); [reflexivity|reflexivity|].
  exists d. split_and!; [exact Hs|exact Hby|exact (Hget u1 ∅ ∅)].
Defined.

(** ** Deleting *)

(** The record a [DELETE] route removes, the action its audit entry
    names, and the route that reads the record. *)
Definition deletes (r : route) : option (path * string * string * route) :=
  match r with
  | Route (DELETE_organizations_id id) =>
      Some (organizations, id, "delete_organization", GET_organizations_id id)
  | DELETE_devices_id id => Some (devices, id, "delete_device", GET_devices_id id)
  | DELETE_gyms_id orgId gymId =>
      Some (gyms orgId, gymId, "delete_gym", GET_gyms_id orgId gymId)
  | _ => None
  end.

Definition delete_from (c : path) (id : string) (s : db) : db :=
  <[c := delete id (coll s c)]> s.

Lemma coll_delete_from (c c' : path) (id : string) (s : db) :
  coll (delete_from c id s) c'
  = if decide (c = c') then delete id (coll s c) else coll s c'.
Proof. apply coll_insert. Qed.

(** A uniqueness or dependency probe that comes back empty: no document
    of the collection holds the value. *)
Lemma probe_empty (c : path) (f : string) (v : value) (s s' : db) (q : snapshot) :
  limit 1 (where_eq c f (Some v)) s = (Ok q, s') →
  snapshot_empty q = true →
  ∀ id d, coll s c !! id = Some d → d !! f ≠ Some v.
Proof.
  unfold limit, bind, where_eq, ret. intros [= <- _] Hempty id d Hd Hf.
  destruct (map_to_list (matching f v (coll s c))) as [|kv l] eqn:E; [|done].
  apply map_to_list_empty_iff in E.
  assert (matching f v (coll s c) !! id = Some d) as Hm
    by (by apply map_lookup_filter_Some).
  by rewrite E, lookup_empty in Hm.
Qed.

(** The end of every delete handler: delete, log, answer 200. *)
Lemma delete_tail (newId : string) (c : path) (id : string) (data : literal)
    (message : string) (s s' : db) (r : response) :
  c ≠ audit_logs →
  (run delete_doc c id in
   run add newId audit_logs data in
   ret (res_json [("success", VBool true); ("message", VStr message)])) s
  = (Ok r, s') →
  ∃ entry, fields data = Some entry
           ∧ coll s audit_logs !! newId = None
           ∧ s' = set_doc audit_logs newId entry (delete_from c id s)
           ∧ r = res_json [("success", VBool true); ("message", VStr message)].
Proof.
  intros Hc H. apply bind_inv in H as ([] & s1 & Hdel & H).
  injection Hdel as <-. fold (delete_from c id s) in H.
  apply bind_inv in H as (id' & s2 & Hadd & H).
  unfold add in Hadd. destruct (fields data) as [entry|]; [|done].
  rewrite coll_delete_from in Hadd. case_decide; [done|].
  destruct (coll s audit_logs !! newId) eqn:Efresh; [done|].
  injection Hadd as <- <-. injection H as <- <-. by exists entry.
Qed.

Section Delete.
  Variable now : nat → string.
  Variable newId : string.
  Variable parseInt : value → value.
  Variable parseFloat : value → value.
  Variable orderBy_createdAt_desc : gmap string doc → value → outcome snapshot.

  #[local] Abbreviation serve' :=
    (serve now newId parseInt parseFloat orderBy_createdAt_desc).

(** A delete whose path parameters are document ids, and that answers
    200, found the record, removed it, and added exactly one audit
    entry, under a free generated id: the entry names the action, the
    caller and the time, and holds the record as it was.  Nothing else
    changed; the record's by-id [GET] now answers 404.  For an
    organization, a 200 also means that no device held its id as
    [organizationId]. *)
Theorem deleted_record_is_logged
    (r : route) (c : path) (id action : string) (reader : route)
    (u : claims) (query body : doc) (s : db) :
  deletes r = Some (c, id, action, reader) →
  Forall segment (params r) →
  status (serve' r u query body s).1 = 200 →
  ∃ d entry,
    coll s c !! id = Some d
    ∧ coll s audit_logs !! newId = None
    ∧ (serve' r u query body s).2
      = set_doc audit_logs newId entry (delete_from c id s)
    ∧ entry !! "action" = Some (VStr action)
    ∧ entry !! "performedBy" = Some (VStr (uid u))
    ∧ entry !! "timestamp" = Some (VStr (now 0))
    ∧ entry !! "details" = Some (VObj d)
    ∧ (∀ u' query' body',
         status (serve' reader u' query' body' (serve' r u query body s).2).1 = 404)
    ∧ (c = organizations →
       ∀ deviceId device, coll s devices !! deviceId = Some device →
                          device !! "organizationId" ≠ Some (VStr id)).
Proof.
  intros Hr _ H200.
  assert (∃ d entry data,
            coll s c !! id = Some d
            ∧ c ≠ audit_logs
            ∧ coll s audit_logs !! newId = None
            ∧ (serve' r u query body s).2
              = set_doc audit_logs newId entry (delete_from c id s)
            ∧ fields data = Some entry
            ∧ literal_last "action" data None = Some (VStr action)
            ∧ literal_last "performedBy" data None = Some (VStr (uid u))
            ∧ literal_last "timestamp" data None = Some (VStr (now 0))
            ∧ literal_last "details" data None = Some (VObj d)
            ∧ (c = organizations →
               ∀ deviceId device, coll s devices !! deviceId = Some device →
                                  device !! "organizationId" ≠ Some (VStr id)))
    as (d & entry & data & Hd & Hc & Hfresh & Hrun & Hentry & Ha & Hb & Ht & Hdet & Hdev).
  { destruct r as [[]| | | | | |]; simplify_eq/=;
      unfold delete_organizations_id, delete_devices_id, delete_gyms_id in *;
      (apply try_catch_inv in H200 as (r' & s' & Hbody & -> & Hst); [|done|done]);
      cbv zeta in Hbody; cbn [snd];
      rewrite bind_get in Hbody;
      repeat (back Hbody; try discriminate Hst);
      (apply delete_tail in Hbody as (entry & Hentry & Hfresh & -> & ->); [|done]);
      eexists _, entry, _; split_and!; try done; try reflexivity.
    intros _ deviceId device. apply negb_false_iff in Heqb.
    by apply (probe_empty _ _ _ _ _ _ Hm). }
  exists d, entry. rewrite Hrun.
  rewrite !(fields_lookup _ _ _ Hentry), Ha, Hb, Ht, Hdet.
  split_and!; try done.
  intros u' query' body'.
  destruct r as [[]| | | | | |]; simplify_eq/=;
    unfold get_organizations_id, get_devices_id, get_gyms_id, try_catch;
    rewrite bind_get, coll_set_doc_other, coll_delete_from by done;
    (case_decide; [|done]); by rewrite lookup_delete_eq.
Qed.

End Delete.

Lemma deleted_record_is_logged_witness :
  ∃ entry,
    (delete_devices_id example_now "log-1" u1 "d1" example_store).2
    = set_doc audit_logs "log-1" entry (delete_from devices "d1" example_store)
    ∧ entry !! "details" = Some (VObj treadmill)
    ∧ status (get_devices_id "d1"
                (delete_devices_id example_now "log-1" u1 "d1" example_store).2).1
      = 404.
Proof.
  destruct (deleted_record_is_logged example_now "log-1" (λ v, v) (λ v, v)
              example_orderBy (DELETE_devices_id "d1") devices "d1"
              "delete_device" (GET_devices_id "d1") u1 ∅ ∅ example_store)
    as (d & entry & Hd & _ & Hs & _ & _ & _ & Hdet & Hget & _);
    [reflexivity|by repeat constructor|reflexivity|].
  exists entry. split_and!; [exact Hs| |exact (Hget u1 ∅ ∅)].
  rewrite Hdet. do 2 f_equal.
  change (coll example_store devices !! "d1") with (Some treadmill) in Hd.
  by injection Hd.
Defined.

(** ** Updating *)

(** The end of every update handler: update, fetch, answer 200. *)
Lemma update_tail (c : path) (id : string) (data : literal) (message : string)
    (s s' : db) (r : response) :
  (run update c id data in
   let* updatedDoc := get c id in
   ret (res_json
          [("success", VBool true); ("message", VStr message);
           ("data", with_id id (default ∅ updatedDoc))])) s = (Ok r, s') →
  ∃ p old, fields data = Some p
           ∧ coll s c !! id = Some old
           ∧ s' = set_doc c id (p ∪ old) s
           ∧ r = res_json
                   [("success", VBool true); ("message", VStr message);
                    ("data", with_id id (p ∪ old))].
Proof.
  intros H. apply bind_inv in H as ([] & s1 & Hupd & H).
  unfold update in Hupd. destruct (fields data) as [p|]; [|done].
  destruct (coll s c !! id) as [old|] eqn:Eold; [|done].
  injection Hupd as <-.
  rewrite bind_get, coll_set_doc_same, lookup_insert_eq in H.
  injection H as <- <-. by exists p, old.
Qed.

(** What the organization part of a device update can be. *)
Lemma organization_assignment_inv (o : option value) (s s' : db)
    (a : option literal) :
  organization_assignment o s = (Ok a, s') →
  s' = s
  ∧ match o with
    | None => a = Some []
    | Some v =>
        if truthy v then
          ∃ oid, v = VStr oid
                 ∧ a = (λ org : doc, [("organizationId", Some v);
                                      ("organizationName", org !! "name")])
                       <$> coll s organizations !! oid
        else a = Some [("organizationId", Some VNull);
                       ("organizationName", Some (VStr "Unassigned"))]
    end.
Proof.
  unfold organization_assignment. destruct o as [v|]; cbn [defined truthy_opt].
  - destruct (truthy v) eqn:Ev; [|by intros [= <- <-]].
    intros H. apply bind_inv in H as (oid & s1 & Href & H).
    destruct v as [| | |i| |]; try done.
    unfold docRef, throw, ret in Href. destruct (String.eqb i ""); [done|].
    injection Href as <- <-. rewrite bind_get in H.
    destruct (coll s organizations !! i) as [org|] eqn:Eorg; injection H as <- <-;
      (split; [done|exists i; by rewrite Eorg]).
  - by intros [= <- <-].
Qed.

(** The fields an update route reads from the body, by the test it
    applies: [if (x)] or [if (x !== undefined)]. *)
Definition truthy_fields (e : endpoint) : list string :=
  match e with
  | PUT_organizations_id _ => ["name"; "email"; "status"]
  | PUT_devices_id _ => ["deviceName"; "type"; "serialNumber"; "status"]
  | PUT_gyms_id _ _ => ["name"; "address"; "phone"; "email"; "manager"; "status"]
  | _ => []
  end.

Definition present_fields (e : endpoint) : list string :=
  match e with
  | PUT_organizations_id _ => ["phone"; "address"]
  | PUT_devices_id _ =>
      ["model"; "manufacturer"; "location"; "ipAddress"; "macAddress"]
  | PUT_gyms_id _ _ => ["openingTime"; "closingTime"; "amenities"]
  | _ => []
  end.

(** The fields an update route converts before it stores them. *)
Definition converted_fields (e : endpoint) : list string :=
  match e with
  | PUT_devices_id _ => ["organizationId"; "organizationName"]
  | PUT_gyms_id _ _ =>
      ["capacity"; "latitude"; "longitude"; "members"; "monthlyRevenue"]
  | _ => []
  end.

Definition written_fields (e : endpoint) : list string :=
  (["updatedAt"; "lastModifiedBy"] ++ truthy_fields e ++ present_fields e
   ++ converted_fields e)%list.

(** Compute a field of the patch a literal turns into. *)
Lemma literal_last_set_if_eq (k : string) (c : bool) (o acc : option value) :
  literal_last k (set_if c k o) acc = if c then o else acc.
Proof. rewrite literal_last_set_if. by case_decide. Qed.

Lemma literal_last_set_if_ne (k k' : string) (c : bool) (o acc : option value) :
  k' ≠ k → literal_last k (set_if c k' o) acc = acc.
Proof. intros. rewrite literal_last_set_if. case_decide; [done|by destruct c]. Qed.

Ltac patch_field Hp :=
  rewrite (fields_lookup _ _ _ Hp);
  repeat (rewrite ?literal_last_app;
          repeat first [ rewrite literal_last_set_if_eq
                       | rewrite literal_last_set_if_ne by done ];
          cbn [literal_last]);
  unfold stamp;
  repeat case_decide; simplify_eq; try done;
  repeat match goal with
         | |- context [if truthy_opt ?o then _ else _] => destruct (truthy_opt o)
         | |- context [if defined ?o then _ else _] => destruct o; cbn [defined]
         end;
  try done.

Ltac each_member H :=
  repeat (apply elem_of_cons in H as [->|H]); [..|by apply elem_of_nil in H].

Ltac no_member H :=
  unfold written_fields in H; cbn [truthy_fields present_fields converted_fields app] in H;
  rewrite ?not_elem_of_cons in H; destruct_and?.

Lemma fields_go_defined (l : literal) :
  ∀ acc d, fields_go acc l = Some d → ∀ k o, (k, o) ∈ l → is_Some o.
Proof.
  induction l as [|[k' [v|]] l IH]; intros acc d Hd k o Hin; cbn [fields_go] in Hd;
    [by apply elem_of_nil in Hin| |done].
  apply elem_of_cons in Hin as [[= -> ->]|Hin]; [by eexists|by eapply IH].
Qed.

Ltac converted_field Hp H :=
  rewrite ?H in Hp; cbn [defined set_if fmap option_fmap option_map] in Hp.

Section Update.
  Variable now : nat → string.
  Variable newId : string.
  Variable parseInt : value → value.
  Variable parseFloat : value → value.
  Variable orderBy_createdAt_desc : gmap string doc → value → outcome snapshot.

  #[local] Abbreviation handle' :=
    (handle now newId parseInt parseFloat orderBy_createdAt_desc).

(** What an update that answers 200 did, in terms of the patch [p] it
    handed to the store. *)
Lemma put_inv (e : endpoint) (c : path) (id : string)
    (u : claims) (query body : doc) (s : db) :
  put_target e = Some (c, id) →
  status (handle' e u query body s).1 = 200 →
  ∃ message p old,
    coll s c !! id = Some old
    ∧ handle' e u query body s
      = (res_json [("success", VBool true); ("message", VStr message);
                   ("data", with_id id (p ∪ old))],
         set_doc c id (p ∪ old) s)
    ∧ p !! "updatedAt" = Some (VStr (now 0))
    ∧ p !! "lastModifiedBy" = Some (VStr (uid u))
    ∧ (∀ k, k ∈ truthy_fields e →
            p !! k = if truthy_opt (body !! k) then body !! k else None)
    ∧ (∀ k, k ∈ present_fields e → p !! k = body !! k)
    ∧ (∀ k, k ∉ written_fields e → p !! k = None)
    ∧ (∀ k, k ∈ converted_fields e → body !! k = None →
            k ≠ "organizationName" → p !! k = None)
    ∧ match e with
      | PUT_devices_id _ =>
          match body !! "organizationId" with
          | None => p !! "organizationName" = None
          | Some v =>
              if truthy v then
                ∃ oid org name,
                  v = VStr oid ∧ coll s organizations !! oid = Some org
                  ∧ org !! "name" = Some name
                  ∧ p !! "organizationId" = Some v
                  ∧ p !! "organizationName" = Some name
              else p !! "organizationId" = Some VNull
                   ∧ p !! "organizationName" = Some (VStr "Unassigned")
          end
      | _ => True
      end.
Proof.
  intros He H200.
  destruct e; simplify_eq/=;
    unfold put_organizations_id, put_devices_id, put_gyms_id in *;
    (apply try_catch_inv in H200 as (r' & s' & Hbody & -> & Hst); [|done|done]);
    cbv zeta in Hbody; rewrite bind_get in Hbody.
  - repeat (back Hbody; try discriminate Hst).
    apply update_tail in Hbody as (p & old & Hp & Hold & -> & ->).
    eexists _, p, old. split_and!; try done; try congruence.
    1-2: patch_field Hp.
    1-2: intros k Hk; each_member Hk; patch_field Hp.
    1: intros k Hk; no_member Hk; patch_field Hp.
    1: intros k Hk; each_member Hk.
  - repeat (back Hbody; try discriminate Hst).
    apply update_tail in Hbody as (p & old & Hp & Hold & -> & ->).
    apply organization_assignment_inv in Hm0 as [-> Horg].
    destruct (body !! "organizationId") as [v|] eqn:Eo;
      [destruct (truthy v) eqn:Ev|].
    + destruct Horg as (oid & -> & Hl).
      destruct (coll s organizations !! oid) as [org|] eqn:Eorg; [|done].
      injection Hl as ->.
      destruct (org !! "name") as [name|] eqn:En.
      2:{ destruct (fields_go_defined _ _ _ Hp "organizationName" None) as [? ?];
            [|done].
          apply elem_of_app. right. right. left. }
      eexists _, p, old. split_and!; try done; try congruence.
      1-2: patch_field Hp.
      1-2: intros k Hk; each_member Hk; patch_field Hp.
      1: intros k Hk; no_member Hk; patch_field Hp.
      1: intros k Hk Hnone Hne; each_member Hk; congruence.
      exists oid, org, name. split_and!; try done; patch_field Hp.
    + injection Horg as ->.
      eexists _, p, old. split_and!; try done; try congruence.
      1-2: patch_field Hp.
      1-2: intros k Hk; each_member Hk; patch_field Hp.
      1: intros k Hk; no_member Hk; patch_field Hp.
      1: intros k Hk Hnone Hne; each_member Hk; congruence.
      1-2: patch_field Hp.
    + injection Horg as ->.
      eexists _, p, old. split_and!; try done; try congruence.
      1-2: patch_field Hp.
      1-2: intros k Hk; each_member Hk; patch_field Hp.
      1: intros k Hk; no_member Hk; patch_field Hp.
      1: intros k Hk Hnone Hne; each_member Hk; try done; patch_field Hp.
      patch_field Hp.
  - repeat (back Hbody; try discriminate Hst).
    apply update_tail in Hbody as (p & old & Hp & Hold & -> & ->).
    eexists _, p, old. split_and!; try done; try congruence.
    1-2: patch_field Hp.
    1-2: intros k Hk; each_member Hk; patch_field Hp.
    1: intros k Hk; no_member Hk; patch_field Hp.
    1: intros k Hk Hnone Hne; each_member Hk; converted_field Hp Hnone;
         patch_field Hp.
Qed.

End Update.

Lemma lookup_patch (p old : doc) (k : string) :
  (p ∪ old) !! k = match p !! k with Some v => Some v | None => old !! k end.
Proof.
  destruct (p !! k) as [v|] eqn:E; [by apply lookup_union_Some_l|].
  by rewrite lookup_union_r.
Qed.

Section UpdateProperties.
  Variable now : nat → string.
  Variable newId : string.
  Variable parseInt : value → value.
  Variable parseFloat : value → value.
  Variable orderBy_createdAt_desc : gmap string doc → value → outcome snapshot.

  #[local] Abbreviation handle' :=
    (handle now newId parseInt parseFloat orderBy_createdAt_desc).

(** An update that answers 200 rewrote the one record it addresses and
    returned it.  The new record carries the update time and the caller;
    a field whose name is not in the body is as it was (on a device,
    [organizationName] follows [organizationId]); and so is every field
    the handler does not know, whatever the body says about it: a body
    cannot add fields of its own to a record. *)
Theorem put_leaves_other_fields
    (e : endpoint) (c : path) (id : string)
    (u : claims) (query body : doc) (s : db) :
  put_target e = Some (c, id) →
  status (handle' e u query body s).1 = 200 →
  ∃ old new,
    coll s c !! id = Some old
    ∧ (handle' e u query body s).2 = set_doc c id new s
    ∧ field (handle' e u query body s).1 "data" = Some (with_id id new)
    ∧ new !! "updatedAt" = Some (VStr (now 0))
    ∧ new !! "lastModifiedBy" = Some (VStr (uid u))
    ∧ (∀ k, body !! k = None →
            k ∉ ["updatedAt"; "lastModifiedBy"; "organizationName"] →
            new !! k = old !! k)
    ∧ (∀ k, k ∉ written_fields e → new !! k = old !! k).
Proof.
  intros He H200.
  destruct (put_inv now newId parseInt parseFloat orderBy_createdAt_desc
              e c id u query body s He H200)
    as (message & p & old & Hold & Hrun & Hat & Hby & Htruthy & Hpresent
        & Hother & Hconv & _).
  exists old, (p ∪ old). rewrite Hrun. cbn [fst snd].
  split_and!; try done.
  - by apply lookup_union_Some_l.
  - by apply lookup_union_Some_l.
  - intros k Hnone Hk. rewrite lookup_patch.
    destruct (decide (k ∈ written_fields e)) as [Hin|Hout];
      [|by rewrite Hother].
    unfold written_fields in Hin.
    rewrite !elem_of_app in Hin. destruct Hin as [Hin|[Hin|[Hin|Hin]]].
    + exfalso. apply Hk. rewrite !elem_of_cons, elem_of_nil in Hin.
      rewrite !elem_of_cons. tauto.
    + by rewrite (Htruthy k Hin), Hnone.
    + by rewrite (Hpresent k Hin), Hnone.
    + rewrite (Hconv k Hin Hnone); [done|].
      intros ->. apply Hk. rewrite !elem_of_cons. tauto.
  - intros k Hk. by rewrite lookup_patch, Hother.
Qed.

(** How an update that answers 200 treats the fields of the body.  A
    field the handler tests with [if (x)] is replaced by a truthy value
    of the body and otherwise kept: an empty string for a name, an
    e-mail address or a status changes nothing.  A field it tests with
    [if (x !== undefined)] takes whatever the body holds for it, an
    empty string or [null] included. *)
Theorem put_field_rules
    (e : endpoint) (c : path) (id : string)
    (u : claims) (query body : doc) (s : db) :
  put_target e = Some (c, id) →
  status (handle' e u query body s).1 = 200 →
  ∃ old new,
    coll s c !! id = Some old
    ∧ coll (handle' e u query body s).2 c !! id = Some new
    ∧ (∀ k, k ∈ truthy_fields e →
            new !! k = if truthy_opt (body !! k) then body !! k else old !! k)
    ∧ (∀ k, k ∈ present_fields e →
            new !! k = match body !! k with
                       | Some v => Some v
                       | None => old !! k
                       end).
Proof.
  intros He H200.
  destruct (put_inv now newId parseInt parseFloat orderBy_createdAt_desc
              e c id u query body s He H200)
    as (message & p & old & Hold & Hrun & _ & _ & Htruthy & Hpresent & _).
  exists old, (p ∪ old). rewrite Hrun. cbn [snd].
  split_and!; [done|by rewrite coll_set_doc_same, lookup_insert_eq| |].
  - intros k Hk. rewrite lookup_patch, (Htruthy k Hk).
    destruct (body !! k) as [v|]; cbn [truthy_opt]; [|done].
    by destruct (truthy v).
  - intros k Hk. by rewrite lookup_patch, (Hpresent k Hk).
Qed.

(** How an update of a device that answers 200 treats [organizationId],
    when the path parameter is a document id and the value is not a
    string with a slash.  A truthy value is the id of an organization
    that exists, and the device takes that id and the organization's
    current name; [null] or another falsy value unassigns the device:
    the id becomes [null] and the name ["Unassigned"]. *)
Theorem put_device_assignment
    (id : string) (u : claims) (query body : doc) (v : value) (s : db) :
  segment id →
  body !! "organizationId" = Some v →
  slash_free v →
  status (handle' (PUT_devices_id id) u query body s).1 = 200 →
  ∃ new,
    coll (handle' (PUT_devices_id id) u query body s).2 devices !! id = Some new
    ∧ if truthy v then
        ∃ oid org name,
          v = VStr oid
          ∧ coll s organizations !! oid = Some org
          ∧ org !! "name" = Some name
          ∧ new !! "organizationId" = Some (VStr oid)
          ∧ new !! "organizationName" = Some name
      else
        new !! "organizationId" = Some VNull
        ∧ new !! "organizationName" = Some (VStr "Unassigned").
Proof.
  intros _ Hv _ H200.
  destruct (put_inv now newId parseInt parseFloat orderBy_createdAt_desc
              (PUT_devices_id id) devices id u query body s eq_refl H200)
    as (message & p & old & Hold & Hrun & _ & _ & _ & _ & _ & _ & Horg).
  exists (p ∪ old). rewrite Hrun. cbn [snd].
  split; [by rewrite coll_set_doc_same, lookup_insert_eq|].
  rewrite Hv in Horg. destruct (truthy v).
  - destruct Horg as (oid & org & name & -> & Horg & Hname & Hi & Hn).
    exists oid, org, name. split_and!; try done; by apply lookup_union_Some_l.
  - destruct Horg as [Hi Hn]. split; by apply lookup_union_Some_l.
Qed.

End UpdateProperties.

(** An update that empties the name and the phone number of Acme. *)
Definition clear_name_and_phone : doc :=
  <["name" := VStr ""]> (<["phone" := VStr ""]> ∅).

Lemma put_leaves_other_fields_witness :
  ∃ new,
    (put_organizations_id example_now u1 "o1" clear_name_and_phone example_store).2
    = set_doc organizations "o1" new example_store
    ∧ new !! "email" = Some (VStr "a@acme.com")
    ∧ new !! "lastModifiedBy" = Some (VStr "u1").
Proof.
  destruct (put_leaves_other_fields example_now "unused" (λ v, v) (λ v, v)
              example_orderBy (PUT_organizations_id "o1") organizations "o1"
              u1 ∅ clear_name_and_phone example_store)
    as (old & new & Hold & Hs & _ & _ & Hby & Hframe & _);
    [reflexivity|reflexivity|].
  exists new. split_and!; [exact Hs| |exact Hby].
  rewrite Hframe;
    [|reflexivity
     |repeat (apply not_elem_of_cons; split; [done|]); apply not_elem_of_nil].
  change (coll example_store organizations !! "o1") with (Some acme) in Hold.
  by injection Hold as <-.
Defined.

Lemma put_field_rules_witness :
  ∃ new,
    coll (put_organizations_id example_now u1 "o1" clear_name_and_phone
            example_store).2 organizations !! "o1" = Some new
    ∧ new !! "name" = Some (VStr "Acme")
    ∧ new !! "phone" = Some (VStr "").
Proof.
  destruct (put_field_rules example_now "unused" (λ v, v) (λ v, v)
              example_orderBy (PUT_organizations_id "o1") organizations "o1"
              u1 ∅ clear_name_and_phone example_store)
    as (old & new & Hold & Hnew & Htruthy & Hpresent);
    [reflexivity|reflexivity|].
  change (coll example_store organizations !! "o1") with (Some acme) in Hold.
  injection Hold as <-.
  exists new. split_and!; [exact Hnew| |].
  - rewrite (Htruthy "name"); [reflexivity|]. by left.
  - rewrite (Hpresent "phone"); [reflexivity|]. by left.
Defined.

(** An update that unassigns the treadmill. *)
Definition unassign : doc := {["organizationId" := VNull]}.

(** The treadmill of Acme goes to Beta. *)
Definition reassign : doc := {["organizationId" := VStr "o2"]}.

Lemma put_device_assignment_witness :
  ∃ new,
    coll (put_devices_id example_now u1 "d1" reassign example_store).2 devices
      !! "d1" = Some new
    ∧ new !! "organizationId" = Some (VStr "o2")
    ∧ new !! "organizationName" = Some (VStr "Beta").
Proof.
  destruct (put_device_assignment example_now "unused" (λ v, v) (λ v, v)
              example_orderBy "d1" u1 ∅ reassign (VStr "o2") example_store)
    as (new & Hnew & Horg);
    [by split|reflexivity|by intros oid [= <-]|reflexivity|].
  exists new. split; [exact Hnew|].
  cbn [truthy] in Horg. change (negb (String.eqb "o2" "")) with true in Horg.
  destruct Horg as (oid & org & name & Hoid & Horg & Hname & Hi & Hn).
  injection Hoid as <-.
  change (coll example_store organizations !! "o2") with (Some beta) in Horg.
  injection Horg as <-. rewrite Hi, Hn, <- Hname. by split.
Defined.

(** * Serial numbers stay unique

    The create and the update of a device probe the store for the serial
    number before they write.  With those guards, no sequence of
    requests gives two devices the same serial number.  The property
    needs more than a frame argument: the write is safe because of what
    the probe before it found, so the bodies are followed with pre- and
    postconditions. *)

Definition unique_serials (s : db) : Prop :=
  ∀ i j di dj v,
    coll s devices !! i = Some di → coll s devices !! j = Some dj →
    di !! "serialNumber" = Some v → dj !! "serialNumber" = Some v → i = j.

(** No device holds the serial number [v]. *)
Definition unused_serial (v : value) (s : db) : Prop :=
  ∀ i d, coll s devices !! i = Some d → d !! "serialNumber" ≠ Some v.

(** Started in a store that satisfies [P], [m] returns a value and a
    store that satisfy [Q], or throws in a store that satisfies [E]. *)
Definition hoare {A : Type} (P : db → Prop) (m : M A) (Q : A → db → Prop)
    (E : db → Prop) : Prop :=
  ∀ s, P s → match m s with
             | (Ok a, s') => Q a s'
             | (Threw _, s') => E s'
             end.

Lemma hoare_ret {A : Type} (P : db → Prop) (a : A) (Q : A → db → Prop) (E : db → Prop) :
  (∀ s, P s → Q a s) → hoare P (ret a) Q E.
Proof. intros H s Hs. by apply H. Qed.

Lemma hoare_bind {A B : Type} (P : db → Prop) (m : M A) (k : A → M B)
    (R : A → db → Prop) (Q : B → db → Prop) (E : db → Prop) :
  hoare P m R E → (∀ a, hoare (R a) (k a) Q E) →
  hoare P (let* x := m in k x) Q E.
Proof.
  intros Hm Hk s Hs. unfold bind. specialize (Hm s Hs).
  destruct (m s) as [[a|e] s1]; [by apply Hk|done].
Qed.

Lemma hoare_pre {A : Type} (P P' : db → Prop) (m : M A) (Q : A → db → Prop)
    (E : db → Prop) :
  (∀ s, P s → P' s) → hoare P' m Q E → hoare P m Q E.
Proof. intros HP Hm s Hs. by apply Hm, HP. Qed.

Lemma hoare_pure {A : Type} (φ : Prop) (P : db → Prop) (m : M A) (Q : A → db → Prop)
    (E : db → Prop) :
  (φ → hoare P m Q E) → hoare (λ s, P s ∧ φ) m Q E.
Proof. intros Hm s [Hs Hφ]. by apply Hm. Qed.

Lemma hoare_reads {A : Type} (P : db → Prop) (m : M A) (E : db → Prop) :
  reads m → (∀ s, P s → E s) → hoare P m (λ _, P) E.
Proof.
  intros Hm HE s Hs. specialize (Hm s).
  destruct (m s) as [[a|e] s1]; simpl in Hm; subst; auto.
Qed.

Lemma hoare_keeps {A : Type} (P : db → Prop) (m : M A) :
  keeps P m → hoare P m (λ _, P) P.
Proof. intros Hm s Hs. specialize (Hm s Hs). by destruct (m s) as [[a|e] s1]. Qed.

Lemma hoare_get (P : db → Prop) (c : path) (id : string) (E : db → Prop) :
  hoare P (get c id) (λ d s, P s ∧ coll s c !! id = d) E.
Proof. by intros s Hs. Qed.

Lemma hoare_try_catch (P I : db → Prop) (m : M response) (h : string → response) :
  hoare P m (λ _, I) I → ∀ s, P s → I (try_catch m h s).2.
Proof.
  intros Hm s Hs. unfold try_catch. specialize (Hm s Hs).
  by destruct (m s) as [[r|e] s'].
Qed.

(** The probe for a serial number: an empty answer means that no device
    holds it. *)
Lemma hoare_probe (P : db → Prop) (v : value) (E : db → Prop) :
  hoare P (limit 1 (where_eq devices "serialNumber" (Some v)))
    (λ q s, P s ∧ (snapshot_empty q = true → unused_serial v s)) E.
Proof.
  intros s Hs.
  destruct (limit 1 (where_eq devices "serialNumber" (Some v)) s)
    as [[q|e] s1] eqn:Erun; [|done].
  assert (s1 = s) as -> by (by injection Erun).
  split; [done|]. intros Hq i d Hd Hv.
  destruct (probe_found devices "serialNumber" v s i d Hd Hv) as (q' & Hq' & Hne).
  congruence.
Qed.

Lemma unique_set_device (id : string) (d : doc) (s : db) :
  unique_serials s →
  (∀ v j dj, d !! "serialNumber" = Some v → j ≠ id →
             coll s devices !! j = Some dj → dj !! "serialNumber" ≠ Some v) →
  unique_serials (set_doc devices id d s).
Proof.
  intros Hs Hd i j di dj v. rewrite coll_set_doc_same.
  destruct (decide (i = id)) as [->|Hi]; destruct (decide (j = id)) as [->|Hj];
    [done|..].
  - rewrite lookup_insert_eq, lookup_insert_ne by done.
    intros [= <-] Hj' Hv Hv'. by destruct (Hd v j dj Hv Hj Hj').
  - rewrite lookup_insert_eq, lookup_insert_ne by done.
    intros Hi' [= <-] Hv Hv'. by destruct (Hd v i di Hv' Hi Hi').
  - rewrite !lookup_insert_ne by done. apply Hs.
Qed.

Lemma unique_set_other (c : path) (id : string) (d : doc) (s : db) :
  c ≠ devices → unique_serials s → unique_serials (set_doc c id d s).
Proof. intros Hc Hs i j di dj v. rewrite coll_set_doc_other by done. apply Hs. Qed.

(** A patch that leaves the serial number alone, or sets one that is the
    device's own or unused. *)
Lemma unique_merge (c : path) (id : string) (p old : doc) (s : db) :
  unique_serials s → coll s c !! id = Some old →
  (c = devices → ∀ v, p !! "serialNumber" = Some v →
                      old !! "serialNumber" = Some v ∨ unused_serial v s) →
  unique_serials (set_doc c id (p ∪ old) s).
Proof.
  intros Hs Hold Hp. destruct (decide (c = devices)) as [->|Hc];
    [|by apply unique_set_other].
  apply unique_set_device; [done|]. intros v j dj Hv Hj Hdj Hvj.
  rewrite lookup_patch in Hv. destruct (p !! "serialNumber") as [v'|] eqn:Ep.
  - injection Hv as ->. destruct (Hp eq_refl v eq_refl) as [Hv|Hv].
    + by apply Hj, (Hs j id dj old v).
    + by apply (Hv j dj).
  - by apply Hj, (Hs j id dj old v).
Qed.

Lemma keeps_unique_add (newId : string) (c : path) (data : literal) :
  c ≠ devices → keeps unique_serials (add newId c data).
Proof.
  intros Hc s Hs. unfold add. destruct (fields data) as [d|]; [|done].
  destruct (coll s c !! newId); [done|]. by apply unique_set_other.
Qed.

Lemma keeps_unique_update (c : path) (id : string) (data : literal) :
  c ≠ devices → keeps unique_serials (update c id data).
Proof.
  intros Hc s Hs. unfold update. destruct (fields data) as [d|]; [|done].
  destruct (coll s c !! id); [|done]. by apply unique_set_other.
Qed.

Lemma keeps_unique_delete_doc (c : path) (id : string) :
  keeps unique_serials (delete_doc c id).
Proof.
  intros s Hs i j di dj v. unfold delete_doc. cbn [snd]. rewrite coll_insert.
  case_decide as Hc; [|apply Hs]. subst c.
  intros [_ Hi]%lookup_delete_Some [_ Hj]%lookup_delete_Some. by apply Hs.
Qed.

(** The staged updates of a batch that do not mention the serial
    number. *)
Definition serial_free (b : batch) : Prop :=
  Forall (λ w : path * string * doc, w.2 !! "serialNumber" = None) b.

Lemma keeps_unique_commit (b : batch) :
  serial_free b → keeps unique_serials (commit b).
Proof.
  intros Hb s Hs. unfold commit. destruct (forallb _ b); [|done]. cbn [snd].
  clear -Hb Hs. revert s Hs.
  induction Hb as [|[[c i] p] b Hp Hb IH]; intros s Hs; [done|].
  cbn [foldl]. apply IH. unfold apply_update.
  destruct (coll s c !! i) eqn:E; [|done].
  apply unique_merge; [done..|]. intros _ v Hv. cbn [snd] in Hp. congruence.
Qed.

Lemma stage_devices_serial_free now u organizationId organizationName deviceIds :
  ∀ staged updated (P : db → Prop),
    serial_free staged →
    hoare P
      (stage_devices now u organizationId organizationName deviceIds staged updated)
      (λ r s, P s ∧ serial_free r.1) P.
Proof.
  induction deviceIds as [|i ids IH]; intros staged updated P Hb;
    [by apply hoare_ret|].
  cbn [stage_devices].
  eapply hoare_bind; [apply hoare_reads; [apply reads_docRef|done]|]. intros ref.
  eapply hoare_bind; [apply hoare_reads; [apply reads_get|done]|].
  intros [d|]; [|by apply IH].
  unfold batch_update. destruct (fields _) as [p|] eqn:Ep; [|by intros s Hs].
  intros s Hs. unfold bind at 1, ret at 1. apply (IH _ _ P); [|done].
  apply Forall_app. split; [done|]. apply Forall_singleton. cbn [snd].
  by rewrite (fields_lookup _ _ _ Ep).
Qed.

Ltac keeps_unique_step :=
  first
    [ apply keeps_bind; [|intros ?]
    | apply reads_keeps; solve [reads_tac]
    | apply keeps_unique_delete_doc
    | apply keeps_unique_update; done
    | apply keeps_unique_add; done
    | match goal with
      | |- keeps _ (if ?b then _ else _) => destruct b
      | |- keeps _ (match ?x with _ => _ end) => destruct x
      end ].

(** What the guard of an update has settled when it lets the update
    through: a truthy serial number of the body is the device's own, or
    no device holds it. *)
Definition settled (o : option value) (data : doc) (s : db) : Prop :=
  ∀ v, o = Some v → truthy v = true →
       data !! "serialNumber" = Some v ∨ unused_serial v s.

Lemma hoare_taken (P E : db → Prop) (serialNumber : option value) (data : doc) :
  hoare P
    (if truthy_opt serialNumber
        && strict_neq serialNumber (data !! "serialNumber") then
       let* existingDevice :=
         limit 1 (where_eq devices "serialNumber" serialNumber) in
       ret (negb (snapshot_empty existingDevice))
     else ret false)
    (λ taken s, P s ∧ (taken = false → settled serialNumber data s)) E.
Proof.
  destruct serialNumber as [v|]; cbn [truthy_opt andb];
    [|apply hoare_ret; intros s Hs; split; [done|]; by intros _ v].
  destruct (truthy v) eqn:Ht; cbn [andb];
    [|apply hoare_ret; intros s Hs; split; [done|]; intros _ v' [= <-]; congruence].
  destruct (strict_neq _ _) eqn:En.
  - eapply hoare_bind; [apply hoare_probe|]. intros q. apply hoare_ret.
    intros s [Hs Hq]. split; [done|]. intros Hn v' [= <-] _. right. apply Hq.
    by destruct (snapshot_empty q).
  - apply hoare_ret. intros s Hs. split; [done|]. intros _ v' [= <-] _. left.
    unfold strict_neq in En.
    destruct v; try done; by apply negb_false_iff, bool_decide_eq_true in En.
Qed.

Lemma hoare_assignment (P E : db → Prop) (o : option value) :
  (∀ s, P s → E s) →
  hoare P (organization_assignment o)
    (λ a s, P s ∧ ∀ l, a = Some l →
                       ∀ acc, literal_last "serialNumber" l acc = acc) E.
Proof.
  intros HE. unfold organization_assignment.
  destruct (defined o); [destruct (truthy_opt o)|].
  - eapply hoare_bind; [apply hoare_reads; [apply reads_docRef|done]|]. intros oid.
    eapply hoare_bind; [apply hoare_reads; [apply reads_get|done]|].
    intros [org|]; apply hoare_ret; intros s Hs; (split; [done|]);
      by intros l [= <-].
  - apply hoare_ret. intros s Hs. split; [done|]. by intros l [= <-].
  - apply hoare_ret. intros s Hs. split; [done|]. by intros l [= <-].
Qed.

Lemma hoare_add_device (newId : string) (v : value) (data : literal) :
  literal_last "serialNumber" data None = Some v →
  hoare (λ s, unique_serials s ∧ unused_serial v s) (add newId devices data)
    (λ _, unique_serials) unique_serials.
Proof.
  intros Hv s [Hs Hfree]. unfold add.
  destruct (fields data) as [d|] eqn:Ed; [|done].
  destruct (coll s devices !! newId); [done|].
  apply unique_set_device; [done|]. intros v' j dj Hv' _ Hj.
  rewrite (fields_lookup _ _ _ Ed), Hv in Hv'. injection Hv' as <-.
  by apply (Hfree j).
Qed.

Lemma hoare_update_device (id : string) (o : option value) (old : doc)
    (data : literal) :
  literal_last "serialNumber" data None = (if truthy_opt o then o else None) →
  hoare (λ s, (unique_serials s ∧ coll s devices !! id = Some old)
              ∧ settled o old s)
    (update devices id data) (λ _, unique_serials) unique_serials.
Proof.
  intros Hv s [[Hs Hold] Hset]. unfold update.
  destruct (fields data) as [p|] eqn:Ep; [|done]. rewrite Hold.
  apply unique_merge; [done..|]. intros _ v Hp.
  rewrite (fields_lookup _ _ _ Ep), Hv in Hp.
  destruct o as [v'|]; cbn [truthy_opt] in Hp; [|done].
  destruct (truthy v') eqn:Ht; [|done]. injection Hp as ->. by apply Hset.
Qed.

Section Serials.
  Variable now : nat → string.
  Variable newId : string.
  Variable parseInt : value → value.
  Variable parseFloat : value → value.
  Variable orderBy_createdAt_desc : gmap string doc → value → outcome snapshot.

  #[local] Abbreviation serve' :=
    (serve now newId parseInt parseFloat orderBy_createdAt_desc).

Lemma post_devices_unique (u : claims) (body : doc) (s : db) :
  unique_serials s → unique_serials (post_devices now newId u body s).2.
Proof.
  unfold post_devices. apply (hoare_try_catch unique_serials unique_serials).
  cbv zeta.
  destruct (negb _ || negb _ || negb _) eqn:Eg; [by apply hoare_ret|].
  apply orb_false_iff in Eg as [_ Ht]. apply negb_false_iff in Ht.
  destruct (body !! "serialNumber") as [v|]; [|done].
  eapply hoare_bind; [apply hoare_probe|]. intros q.
  destruct (snapshot_empty q) eqn:Eq; cbn [negb];
    [|apply hoare_ret; by intros s' [? ?]].
  eapply hoare_bind;
    [apply hoare_reads; [reads_tac|by intros s' [? ?]]|]. intros orgFound.
  destruct orgFound; cbn [negb]; [|apply hoare_ret; by intros s' [? ?]].
  eapply hoare_bind;
    [apply hoare_reads; [unfold organization_name; reads_tac|by intros s' [? ?]]|].
  intros organizationName.
  eapply hoare_bind.
  { eapply hoare_pre; [|by apply (hoare_add_device newId v)].
    intros s' [? Hq]. split; [done|]. by apply Hq. }
  intros id.
  eapply hoare_bind; [apply hoare_reads; [apply reads_get|done]|]. intros d.
  by apply hoare_ret.
Qed.

Lemma put_devices_unique (u : claims) (id : string) (body : doc) (s : db) :
  unique_serials s → unique_serials (put_devices_id now u id body s).2.
Proof.
  unfold put_devices_id. apply (hoare_try_catch unique_serials unique_serials).
  cbv zeta.
  eapply hoare_bind; [apply hoare_get|].
  intros [data|]; [|apply hoare_ret; by intros s' [? ?]].
  eapply hoare_bind; [apply hoare_taken|]. intros taken.
  destruct taken; [apply hoare_ret; by intros s' [[? ?] ?]|].
  eapply hoare_bind; [apply hoare_assignment; by intros s' [[? ?] ?]|].
  intros [orgData|]; [|apply hoare_ret; by intros s' [[[? ?] ?] ?]].
  apply hoare_pure. intros Horg.
  eapply hoare_bind;
    [eapply hoare_pre;
       [|apply (hoare_update_device id (body !! "serialNumber") data)]|].
  - intros s' [Hs Hset]. split; [done|]. by apply Hset.
  - rewrite literal_last_app, (Horg _ eq_refl).
    repeat (rewrite ?literal_last_app;
            repeat first [ rewrite literal_last_set_if_eq
                         | rewrite literal_last_set_if_ne by done ];
            cbn [literal_last]).
    by destruct (truthy_opt _).
  - intros []. eapply hoare_bind; [apply hoare_reads; [apply reads_get|done]|].
    intros d. by apply hoare_ret.
Qed.

Lemma bulk_assign_unique (u : claims) (body : doc) (s : db) :
  unique_serials s → unique_serials (post_devices_bulk_assign now u body s).2.
Proof.
  unfold post_devices_bulk_assign.
  apply (hoare_try_catch unique_serials unique_serials). cbv zeta.
  destruct (body !! "deviceIds") as [[| | | |[|i ids]|]|]; try by apply hoare_ret.
  eapply hoare_bind; [apply hoare_reads; [reads_tac|done]|].
  intros [organizationName|]; [|by apply hoare_ret].
  eapply hoare_bind; [apply stage_devices_serial_free; constructor|]. intros r.
  apply hoare_pure. intros Hr.
  eapply hoare_bind; [by apply hoare_keeps, keeps_unique_commit|]. intros [].
  by apply hoare_ret.
Qed.

(** Whatever the route and the request, a store in which no two devices
    share a serial number is left with that property: a create or an
    update that would give a device the serial number of another one is
    refused, and no other route writes a serial number.  (The e-mail
    address of an organization has no such invariant: its update runs no
    probe.) *)
Theorem routes_keep_serials_unique
    (r : route) (u : claims) (query body : doc) (s : db) :
  unique_serials s → unique_serials (serve' r u query body s).2.
Proof.
  destruct r as [[]| | | | | |]; cbn [serve handle];
    try apply post_devices_unique; try apply put_devices_unique;
    try apply bulk_assign_unique;
    unfold_routes; apply keeps_try_catch; cbv zeta; repeat keeps_unique_step.
Qed.

End Serials.

Lemma unique_serials_example_store : unique_serials example_store.
Proof.
  intros i j di dj v.
  change (coll example_store devices)
    with (<["d1" := treadmill]> (∅ : gmap string doc)).
  intros [[<- _]|[_ H]]%lookup_insert_Some; [|by rewrite lookup_empty in H].
  intros [[<- _]|[_ H]]%lookup_insert_Some; [done|by rewrite lookup_empty in H].
Qed.

(** A second device, with a serial number of its own. *)
Definition rower : doc :=
  <["deviceName" := VStr "Rower 1"]> (<["type" := VStr "rower"]>
  (<["serialNumber" := VStr "SN-2"]> ∅)).

Lemma routes_keep_serials_unique_witness :
  unique_serials
    (serve example_now "d2" (λ v, v) (λ v, v) example_orderBy
       (Route POST_devices) u1 ∅ rower example_store).2.
Proof.
  apply routes_keep_serials_unique. exact unique_serials_example_store.
Defined.

(** * Which collections a route writes to *)

(** The collections a route may write to: its own, and the audit log
    for a delete. *)
Definition writes_to (r : route) : list path :=
  match r with
  | Route POST_organizations | Route (PUT_organizations_id _) => [organizations]
  | Route (DELETE_organizations_id _) => [organizations; audit_logs]
  | Route POST_devices | Route (PUT_devices_id _)
  | Route POST_devices_bulk_assign => [devices]
  | DELETE_devices_id _ => [devices; audit_logs]
  | Route (POST_gyms orgId) | Route (PUT_gyms_id orgId _) => [gyms orgId]
  | DELETE_gyms_id orgId _ => [gyms orgId; audit_logs]
  | Route GET_organizations | Route (GET_gyms _) | GET_organizations_id _
  | GET_devices | GET_devices_id _ | GET_gyms_id _ _ => []
  end.

(** The collection [c] is as it is in [s0]. *)
Definition untouched (c : path) (s0 : db) (s : db) : Prop := coll s c = coll s0 c.

Lemma keeps_untouched_add (newId : string) (c c' : path) (s0 : db) (data : literal) :
  c ≠ c' → keeps (untouched c s0) (add newId c' data).
Proof.
  intros Hc s Hs. unfold add. destruct (fields data) as [d|]; [|done].
  destruct (coll s c' !! newId); [done|]. cbn [snd]. unfold untouched.
  by rewrite coll_set_doc_other.
Qed.

Lemma keeps_untouched_update (c c' : path) (s0 : db) (id : string) (data : literal) :
  c ≠ c' → keeps (untouched c s0) (update c' id data).
Proof.
  intros Hc s Hs. unfold update. destruct (fields data) as [d|]; [|done].
  destruct (coll s c' !! id); [|done]. cbn [snd]. unfold untouched.
  by rewrite coll_set_doc_other.
Qed.

Lemma keeps_untouched_delete_doc (c c' : path) (s0 : db) (id : string) :
  c ≠ c' → keeps (untouched c s0) (delete_doc c' id).
Proof.
  intros Hc s Hs. unfold delete_doc, untouched. cbn [snd].
  rewrite coll_insert. by case_decide.
Qed.

(** The staged updates of a batch are all updates of devices. *)
Definition on_devices (b : batch) : Prop :=
  Forall (λ w : path * string * doc, w.1.1 = devices) b.

Lemma keeps_untouched_commit (c : path) (s0 : db) (b : batch) :
  c ≠ devices → on_devices b → keeps (untouched c s0) (commit b).
Proof.
  intros Hc Hb s Hs. unfold commit. destruct (forallb _ b); [|done]. cbn [snd].
  clear -Hc Hb Hs. revert s Hs.
  induction Hb as [|[[c' i] p] b Hp Hb IH]; intros s Hs; [done|].
  cbn [foldl]. apply IH. unfold apply_update. cbn [fst] in Hp. subst c'.
  destruct (coll s devices !! i); [|done]. unfold untouched.
  by rewrite coll_set_doc_other.
Qed.

Lemma stage_devices_on_devices now u organizationId organizationName deviceIds :
  ∀ staged updated (P : db → Prop),
    on_devices staged →
    hoare P
      (stage_devices now u organizationId organizationName deviceIds staged updated)
      (λ r s, P s ∧ on_devices r.1) P.
Proof.
  induction deviceIds as [|i ids IH]; intros staged updated P Hb;
    [by apply hoare_ret|].
  cbn [stage_devices].
  eapply hoare_bind; [apply hoare_reads; [apply reads_docRef|done]|]. intros ref.
  eapply hoare_bind; [apply hoare_reads; [apply reads_get|done]|].
  intros [d|]; [|by apply IH].
  unfold batch_update. destruct (fields _) as [p|] eqn:Ep; [|by intros s Hs].
  intros s Hs. unfold bind at 1, ret at 1. apply (IH _ _ P); [|done].
  apply Forall_app. split; [done|]. by apply Forall_singleton.
Qed.

Ltac keeps_untouched_step :=
  first
    [ apply keeps_bind; [|intros ?]
    | apply reads_keeps; solve [reads_tac]
    | apply keeps_untouched_delete_doc; done
    | apply keeps_untouched_update; done
    | apply keeps_untouched_add; done
    | match goal with
      | |- keeps _ (if ?b then _ else _) => destruct b
      | |- keeps _ (match ?x with _ => _ end) => destruct x
      end ].

Section Collections.
  Variable now : nat → string.
  Variable newId : string.
  Variable parseInt : value → value.
  Variable parseFloat : value → value.
  Variable orderBy_createdAt_desc : gmap string doc → value → outcome snapshot.

  #[local] Abbreviation serve' :=
    (serve now newId parseInt parseFloat orderBy_createdAt_desc).

Lemma bulk_assign_untouched (c : path) (u : claims) (body : doc) (s : db) :
  c ≠ devices →
  coll (post_devices_bulk_assign now u body s).2 c = coll s c.
Proof.
  intros Hc. unfold post_devices_bulk_assign.
  apply (hoare_try_catch (untouched c s) (untouched c s)); [|done]. cbv zeta.
  destruct (body !! "deviceIds") as [[| | | |[|i ids]|]|]; try by apply hoare_ret.
  eapply hoare_bind; [apply hoare_reads; [reads_tac|done]|].
  intros [organizationName|]; [|by apply hoare_ret].
  eapply hoare_bind; [apply stage_devices_on_devices; constructor|]. intros r.
  apply hoare_pure. intros Hr.
  eapply hoare_bind; [by apply hoare_keeps, keeps_untouched_commit|]. intros [].
  by apply hoare_ret.
Qed.

(** On a request whose ids are document ids, a route writes only to
    its own collection, and a delete also to the audit log; every other
    collection is after the request what it was before, whatever the
    response.  So the update of an organization does not reach the
    devices that carry its name, and the delete of an organization
    leaves the gyms under it in place. *)
Theorem routes_write_own_collection
    (r : route) (c : path) (u : claims) (query body : doc) (s : db) :
  document_ids r query body →
  c ∉ writes_to r → coll (serve' r u query body s).2 c = coll s c.
Proof.
  intros _ Hc.
  destruct r as [[]| | | | | |]; cbn [writes_to] in Hc;
    rewrite ?not_elem_of_cons in Hc; destruct_and?; cbn [serve handle];
    try (by apply bulk_assign_untouched);
    unfold_routes; apply (keeps_try_catch (untouched c s)); try done;
    cbv zeta; repeat keeps_untouched_step.
Qed.

End Collections.

(** Acme takes a new name. *)
Definition rename_acme : doc := {["name" := VStr "Acme Fitness"]}.

Lemma routes_write_own_collection_witness :
  status (put_organizations_id example_now u1 "o1" rename_acme example_store).1 = 200
  ∧ coll (put_organizations_id example_now u1 "o1" rename_acme example_store).2
      devices !! "d1" = Some treadmill
  ∧ treadmill !! "organizationName" = Some (VStr "Acme").
Proof.
  split_and!; [reflexivity| |reflexivity].
  rewrite (routes_write_own_collection example_now "unused" (λ v, v) (λ v, v)
             example_orderBy (Route (PUT_organizations_id "o1")) devices
             u1 ∅ rename_acme example_store); [reflexivity| |].
  - by repeat constructor.
  - apply not_elem_of_cons. split; [done|apply not_elem_of_nil].
Defined.

(** * The filters of the device list *)

Lemma where_all_lookup (filters : literal) :
  ∀ (c : gmap string doc) (i : string) (d : doc),
    where_all filters c !! i = Some d
    ↔ c !! i = Some d ∧ ∀ k v, (k, Some v) ∈ filters → d !! k = Some v.
Proof.
  unfold where_all.
  induction filters as [|[k [v|]] l IH]; intros c i d; cbn [foldl fst snd].
  - split; [intros H; split; [done|]; by intros k v ?%elem_of_nil|by intros [? _]].
  - rewrite IH. unfold matching. rewrite map_lookup_filter_Some. cbn [snd].
    split.
    + intros [[Hd Hk] Hl]. split; [done|].
      intros k' v' [[= -> ->]|Hin]%elem_of_cons; [done|by apply Hl].
    + intros [Hd Hl]. split_and!; [done|apply Hl; by left|].
      intros k' v' Hin. apply Hl. by right.
  - rewrite IH. split; intros [Hd Hl]; (split; [done|]); intros k' v' Hin.
    + apply elem_of_cons in Hin as [[=]|Hin]. by apply Hl.
    + apply Hl. by right.
Qed.

Section DeviceList.
  Variable parseInt : value → value.
  Variable orderBy_createdAt_desc : gmap string doc → value → outcome snapshot.

  (** What the store's ordered, limited query returns are documents of
      the query it is run on. *)
  Hypothesis query_sound :
    ∀ c n q, orderBy_createdAt_desc c n = Ok q →
             ∀ i d, (i, d) ∈ q → c !! i = Some d.


End DeviceList.

Lemma elem_of_place (x y : string * doc) (q : snapshot) :
  y ∈ place x q → y = x ∨ y ∈ q.
Proof.
  induction q as [|z q IH]; cbn [place].
  - intros ->%list_elem_of_singleton. by left.
  - destruct (later x z).
    + intros [->|H]%elem_of_cons; [by left|by right].
    + intros [->|H]%elem_of_cons; [right; by left|].
      destruct (IH H) as [->|H']; [by left|right; by right].
Qed.

Lemma elem_of_latest_first (y : string * doc) (q : snapshot) :
  y ∈ latest_first q → y ∈ q.
Proof.
  induction q as [|x q IH]; [done|]. cbn [latest_first foldr].
  intros [->|H]%elem_of_place; [by left|right; by apply IH].
Qed.

Lemma example_orderBy_sound (c : gmap string doc) (n : value) (q : snapshot) :
  example_orderBy c n = Ok q → ∀ i d, (i, d) ∈ q → c !! i = Some d.
Proof.
  destruct n as [| |k| | |]; try done. intros [= <-] i d Hin.
  apply elem_of_take in Hin as (j & Hin & _).
  apply list_elem_of_lookup_2, elem_of_latest_first, list_elem_of_filter in Hin
    as [_ Hin].
  by apply elem_of_map_to_list.
Qed.


(** * The bulk assignment is all or nothing *)

Lemma hoare_commit (P : db → Prop) (b : batch) :
  hoare P (commit b) (λ _ _, True) P.
Proof. intros s Hs. unfold commit. by destruct (forallb _ b). Qed.

Lemma hoare_try_catch_cases (P : db → Prop) (Q : response → db → Prop)
    (E : db → Prop) (m : M response) (h : string → response) (s : db) :
  hoare P m Q E → P s →
  Q (try_catch m h s).1 (try_catch m h s).2
  ∨ ∃ e, (try_catch m h s).1 = h e ∧ E (try_catch m h s).2.
Proof.
  intros Hm Hs. unfold try_catch. specialize (Hm s Hs).
  destruct (m s) as [[r|e] s']; [by left|right; by exists e].
Qed.

Section BulkAssignAtomic.
  Variable now : nat → string.

(** A bulk assignment that does not answer 200 has written nothing: the
    updates are staged in one batch, and the batch is committed after
    the last device id has been looked up.  A request whose list holds
    an id the store refuses is answered 500, and none of the devices
    before it in the list has been assigned. *)
Theorem bulk_assign_all_or_nothing (u : claims) (body : doc) (s : db) :
  status (post_devices_bulk_assign now u body s).1 ≠ 200 →
  (post_devices_bulk_assign now u body s).2 = s.
Proof.
  unfold post_devices_bulk_assign. intros Hst.
  match type of Hst with
  | status (try_catch ?m ?h s).1 ≠ 200 =>
      destruct (hoare_try_catch_cases (λ s', s' = s)
                  (λ r s', status r = 200 ∨ s' = s) (λ s', s' = s) m h s)
        as [[H|H]|(e & _ & H)]; [|done|done|done|done]
  end.
  cbv zeta.
  destruct (body !! "deviceIds") as [[| | | |[|i ids]|]|];
    try (apply hoare_ret; by right).
  eapply hoare_bind; [apply hoare_reads; [reads_tac|done]|].
  intros [organizationName|]; [|apply hoare_ret; by right].
  eapply hoare_bind; [apply hoare_reads; [apply reads_stage_devices|done]|].
  intros r.
  eapply hoare_bind; [apply hoare_commit|]. intros [].
  apply hoare_ret. by left.
Qed.

End BulkAssignAtomic.

(** A list of device ids whose second entry is not a string. *)
Definition assign_with_number : doc :=
  <["deviceIds" := VArr [VStr "d1"; VNum 7]]> (<["organizationId" := VStr "o2"]> ∅).

Lemma bulk_assign_all_or_nothing_witness :
  status (post_devices_bulk_assign example_now u1 assign_with_number
            example_store).1 = 500
  ∧ (post_devices_bulk_assign example_now u1 assign_with_number example_store).2
    = example_store.
Proof.
  split; [reflexivity|].
  apply bulk_assign_all_or_nothing.
  change (status (post_devices_bulk_assign example_now u1 assign_with_number
                    example_store).1) with 500.
  discriminate.
Defined.

(** * The routes behind the authenticator *)

(** The message of the 401 of the router a route belongs to. *)
Definition no_credentials_of (r : route) : string :=
  match r with
  | Route GET_organizations | Route POST_organizations
  | Route (PUT_organizations_id _) | Route (DELETE_organizations_id _)
  | GET_organizations_id _ => organizations_no_credentials
  | Route POST_devices | Route (PUT_devices_id _) | Route POST_devices_bulk_assign
  | GET_devices | GET_devices_id _ | DELETE_devices_id _ => devices_no_credentials
  | Route (GET_gyms _) | Route (POST_gyms _) | Route (PUT_gyms_id _ _)
  | GET_gyms_id _ _ | DELETE_gyms_id _ _ => gyms_no_credentials
  end.

Section Protected.
  Variable verifySessionCookie : string → bool → outcome claims.
  Variable verifyIdToken : option string → outcome claims.
  Variable now : nat → string.
  Variable newId : string.
  Variable parseInt : value → value.
  Variable parseFloat : value → value.
  Variable orderBy_createdAt_desc : gmap string doc → value → outcome snapshot.

(** [router.METHOD(path, verifyAuth, handler)]: the handler runs when the
    authenticator calls [next()], with the claims the authenticator has
    attached to the request.  A handler started on a request without
    claims is outside the model ([None]); it does not happen. *)
Definition protected (r : route) (req : request) (query body : doc) (s : db)
  : option (response * db) :=
  match verifyAuth verifySessionCookie verifyIdToken (no_credentials_of r) req with
  | Respond resp => Some (resp, s)
  | Next req' =>
      u ← user req';
      Some (serve now newId parseInt parseFloat orderBy_createdAt_desc
              r u query body s)
  end.

(** What a request to any route comes to.  Either the identity provider
    has accepted the session cookie or the bearer token of the request,
    and the handler has run with the claims the provider decoded; or the
    request has been answered 401, the handler has not run and the
    store is as it was.  No handler runs without verified claims. *)
Theorem protected_cases (r : route) (req : request) (query body : doc) (s : db) :
  (∃ c, (verifySessionCookie (default "" (cookies req !! "session")) true = Ok c
         ∨ verifyIdToken (headers req !! "authorization" ≫= bearer_token) = Ok c)
        ∧ protected r req query body s
          = Some (serve now newId parseInt parseFloat orderBy_createdAt_desc
                    r c query body s))
  ∨ (∃ resp, protected r req query body s = Some (resp, s)
             ∧ status resp = 401
             ∧ (∃ message, json resp = obj [("error", VStr message)])).
Proof.
  unfold protected.
  destruct (verifyAuth _ _ _ req) as [req'|resp] eqn:Eauth.
  - left. apply verifyAuth_next in Eauth as (c & -> & Hc). by exists c.
  - right. exists resp. split; [done|].
    unfold verifyAuth in Eauth.
    destruct (truthy_str _); [|destruct (is_bearer _)].
    + destruct (verifySessionCookie _ true); [done|].
      injection Eauth as <-. split; [done|]. by eexists.
    + destruct (verifyIdToken _); [done|].
      injection Eauth as <-. split; [done|]. by eexists.
    + injection Eauth as <-. split; [done|]. by eexists.
Qed.

End Protected.

(** The example store with a second device. *)
Definition two_devices : db := set_doc devices "d2" rower example_store.

Lemma put_device_duplicate_serial_conflict_witness :
  put_devices_id example_now u1 "d2" serial_only two_devices
  = (res_status_json 409
       [("error", VStr "Device with this serial number already exists")],
     two_devices).
Proof.
  apply (put_device_duplicate_serial_conflict example_now u1 "d2" serial_only
           rower (VStr "SN-1") "d1" treadmill two_devices); reflexivity.
Defined.

(** * The account routes ([routes/auth.js], [routes/signup.js])

    These routes sit in front of the identity provider.  The provider's
    calls (account creation, verification links, the password sign-in
    endpoint, token and cookie verification, session cookies) are
    parameters: each returns a value or throws an error.  The routes keep
    the user profiles in the collection [users], and two of them set or
    clear the session cookie. *)

Definition users : path := ["users"].

(** A JavaScript error as the handlers read it: its [message], and the
    [code] the errors of the Firebase client carry. *)
Record error := { err_message : string; err_code : option value }.

Inductive result (A : Type) :=
  | Done (a : A)
  | Failed (e : error).
Arguments Done {A} a.
Arguments Failed {A} e.

(** A handler body over the store whose exceptions are errors. *)
Definition Act (A : Type) : Type := db → result A * db.

Definition act_ret {A : Type} (a : A) : Act A := λ s, (Done a, s).
Definition act_fail {A : Type} (e : error) : Act A := λ s, (Failed e, s).
Definition act_bind {A B : Type} (m : Act A) (k : A → Act B) : Act B :=
  λ s, match m s with
       | (Done a, s') => k a s'
       | (Failed e, s') => (Failed e, s')
       end.

Notation "'let+' x := m 'in' k" := (act_bind m (λ x, k))
  (at level 10, x name, m at level 100, k at level 200).
Notation "'run+' m 'in' k" := (act_bind m (λ _, k))
  (at level 10, m at level 100, k at level 200).

(** [await] of a call to the identity provider. *)
Definition call {A : Type} (r : result A) : Act A := λ s, (r, s).

(** [new Error(message)], [new TypeError(message)] *)
Definition Error (message : string) : error :=
  {| err_message := message; err_code := None |}.

(** The errors of the store client: a missing document is reported with
    the status code 5, a refused argument is a plain error. *)
Definition store_error (message : string) : error :=
  {| err_message := message;
     err_code := if String.prefix "NOT_FOUND" message then Some (VNum 5)
                 else None |}.

(** [await] of a store operation. *)
Definition store {A : Type} (m : M A) : Act A :=
  λ s, match m s with
       | (Ok a, s') => (Done a, s')
       | (Threw message, s') => (Failed (store_error message), s')
       end.

(** [await ref.set(data)]: the document becomes [data]. *)
Definition doc_set (c : path) (id : string) (data : literal) : M unit :=
  match fields data with
  | None => throw "Cannot use undefined as a Firestore value"
  | Some d => λ s, (Ok (), set_doc c id d s)
  end.

(** [await ref.set(data, { merge: true })] for [data] without nested
    objects: the fields of [data] replace the fields of the same name of
    the document, which is created when it does not exist. *)
Definition doc_set_merge (c : path) (id : string) (data : literal) : M unit :=
  match fields data with
  | None => throw "Cannot use undefined as a Firestore value"
  | Some d => λ s, (Ok (), set_doc c id (d ∪ default ∅ (coll s c !! id)) s)
  end.

(** The options of [res.cookie]. *)
Record cookie_options := {
  httpOnly : bool;
  secure : bool;
  sameSite : string;
  maxAge : Z
}.

(** What a response does to the cookies of the client. *)
Inductive cookie_effect :=
  | NoCookie
  | SetCookie (name value : string) (options : cookie_options)
  | ClearCookie (name : string).

Record reply := { answer : response; cookie : cookie_effect }.

(** A response that touches no cookie. *)
Definition plain (r : response) : reply := {| answer := r; cookie := NoCookie |}.

(** The JSON text of an object literal: a property that holds
    [undefined] is left out. *)
Definition json_of (l : literal) : value :=
  VObj (foldl (λ m kv, match kv.2 with
                       | Some v => <[kv.1 := v]> m
                       | None => m
                       end) ∅ l).

(** [res.status(code).json({ ... })] *)
Definition respond (code : nat) (l : literal) : response :=
  {| status := code; json := json_of l |}.

(** [try { ... } catch (error) { ... }] around a whole handler. *)
Definition catch (m : Act reply) (handler : error → reply) : db → reply * db :=
  λ s, match m s with
       | (Done r, s') => (r, s')
       | (Failed e, s') => (handler e, s')
       end.

(** The same around a part of a handler. *)
Definition attempt (m : Act reply) (handler : error → reply) : Act reply :=
  λ s, (Done (catch m handler s).1, (catch m handler s).2).

(** [v.k] for a value [v] that is neither [null] nor [undefined]. *)
Definition prop (v : value) (k : string) : option value :=
  match v with
  | VObj m => m !! k
  | _ => None
  end.

(** [60 * 60 * 24 * 5 * 1000] *)
Definition expiresIn : Z := 60 * 60 * 24 * 5 * 1000.

Definition session_options : cookie_options :=
  {| httpOnly := true; secure := false; sameSite := "lax"; maxAge := expiresIn |}.

(** [{ uid: decodedToken.uid, email: decodedToken.email,
       displayName: decodedToken.name }] *)
Definition user_of (decodedToken : doc) : option value :=
  Some (json_of [("uid", decodedToken !! "uid");
                 ("email", decodedToken !! "email");
                 ("displayName", decodedToken !! "name")]).

Section Accounts.
  (** [process.env.FIREBASE_API_KEY] *)
  Variable FIREBASE_API_KEY : option string.
  (** [auth.createUser(properties)]: the [uid] of the new user record. *)
  Variable createUser : literal → result string.
  Variable generateEmailVerificationLink : option value → result string.
  (** The [fetch] of the password sign-in endpoint with the API key and
      the JSON body, and the JSON object of its answer. *)
  Variable signInWithPassword : string → value → result doc.
  (** [auth.verifyIdToken(idToken)]: the decoded token. *)
  Variable verifyIdToken : option value → result doc.
  Variable createSessionCookie : option value → Z → result string.
  (** [auth.verifySessionCookie(cookie, checkRevoked)]: the decoded claims. *)
  Variable verifySessionCookie : string → bool → result doc.
  Variable now : nat → string.
  (** JavaScript's [String(v)]. *)
  Variable String_of : value → string.

(** [new Error(x)] for a value that may be [undefined]. *)
Definition new_Error (x : option value) : error :=
  Error match x with
        | None => ""
        | Some (VStr s) => s
        | Some v => String_of v
        end.

(** [POST /auth/signup] of [routes/auth.js] *)
Definition post_auth_signup (body : doc) : db → reply * db :=
  let name := body !! "name" in
  let email := body !! "email" in
  let password := body !! "password" in
  let phone := body !! "phone" in
  if negb (truthy_opt email) || negb (truthy_opt password)
     || negb (truthy_opt name) then
    λ s, (plain (respond 400 [("message", Some (VStr "Missing required fields"))]), s)
  else
    catch
      (let+ uid :=
         call (createUser
                 [("email", email); ("password", password);
                  ("displayName", name);
                  ("phoneNumber", if truthy_opt phone then phone else None)]) in
       let+ ref := store (docRef (Some (VStr uid))) in
       run+ store (doc_set users ref
                     [("name", name); ("email", email);
                      ("phone", Some (js_or phone VNull));
                      ("createdAt", stamp now 0)]) in
       let+ link := call (generateEmailVerificationLink email) in
       act_ret
         (plain (respond 201
                   [("message",
                     Some (VStr "Account created successfully. Check your email for verification link."));
                    ("uid", Some (VStr uid));
                    ("verificationLink", Some (VStr link))])))
      (λ error, plain (respond 400 [("message", Some (VStr (err_message error)))])).

(** [POST /auth/signup] of [routes/signup.js], the earlier router. *)
Definition signup_post_auth_signup (body : doc) : db → reply * db :=
  let name := body !! "name" in
  let email := body !! "email" in
  let password := body !! "password" in
  let phone := body !! "phone" in
  if negb (truthy_opt email) || negb (truthy_opt password)
     || negb (truthy_opt name) then
    λ s, (plain (respond 400 [("message", Some (VStr "Missing required fields"))]), s)
  else
    catch
      (let+ uid :=
         call (createUser
                 [("email", email); ("password", password);
                  ("displayName", name);
                  ("phoneNumber", if truthy_opt phone then phone else None)]) in
       let+ ref := store (docRef (Some (VStr uid))) in
       run+ store (doc_set users ref
                     [("name", name); ("email", email); ("phone", phone);
                      ("createdAt", stamp now 0)]) in
       let+ link := call (generateEmailVerificationLink email) in
       act_ret
         (plain (respond 201
                   [("message",
                     Some (VStr "Account created successfully. Check your email for verification link."));
                    ("uid", Some (VStr uid))])))
      (λ error, plain (respond 400 [("message", Some (VStr (err_message error)))])).

(** [POST /auth/login] *)
Definition post_auth_login (body : doc) : db → reply * db :=
  let email := body !! "email" in
  let password := body !! "password" in
  if negb (truthy_opt email) || negb (truthy_opt password) then
    λ s, (plain (respond 400
                   [("error", Some (VStr "Email and password are required"))]), s)
  else if negb (truthy_str FIREBASE_API_KEY) then
    λ s, (plain (respond 500 [("error", Some (VStr "Server configuration error"))]), s)
  else
    catch
      (let+ data :=
         call (signInWithPassword (default "" FIREBASE_API_KEY)
                 (json_of [("email", email); ("password", password);
                           ("returnSecureToken", Some (VBool true))])) in
       if truthy_opt (data !! "error") then
         act_fail (new_Error (data !! "error" ≫= (λ e, prop e "message")))
       else
         let idToken := data !! "idToken" in
         let+ decodedToken := call (verifyIdToken idToken) in
         attempt
           (let+ sessionCookie := call (createSessionCookie idToken expiresIn) in
            let+ ref := store (docRef (decodedToken !! "uid")) in
            run+ store (doc_set_merge users ref [("lastLogin", stamp now 0)]) in
            act_ret
              {| answer :=
                   respond 200
                     [("message", Some (VStr "Login successful"));
                      ("user", user_of decodedToken);
                      ("idToken", idToken)];
                 cookie := SetCookie "session" sessionCookie session_options |})
           (λ cookieError,
              plain (respond 200
                       [("message",
                         Some (VStr "Login successful (session creation failed)"));
                        ("user", user_of decodedToken);
                        ("warning", Some (VStr "Session cookie not created"))])))
      (λ err, plain (respond 400 [("error", Some (VStr (err_message err)))])).

(** [decodedToken.name || decodedToken.email.split('@')[0]] *)
Definition google_name (decodedToken : doc) : Act value :=
  if truthy_opt (decodedToken !! "name") then
    act_ret (default VNull (decodedToken !! "name"))
  else
    match decodedToken !! "email" with
    | Some (VStr email) => act_ret (VStr (default "" (head (split email "@"))))
    | None =>
        act_fail (Error "Cannot read properties of undefined (reading 'split')")
    | Some VNull =>
        act_fail (Error "Cannot read properties of null (reading 'split')")
    | Some _ => act_fail (Error "decodedToken.email.split is not a function")
    end.

(** [POST /auth/google-login] *)
Definition post_auth_google_login (body : doc) : db → reply * db :=
  let idToken := body !! "idToken" in
  if negb (truthy_opt idToken) then
    λ s, (plain (respond 400 [("error", Some (VStr "ID token is required"))]), s)
  else
    catch
      (let+ decodedToken := call (verifyIdToken idToken) in
       let+ ref := store (docRef (decodedToken !! "uid")) in
       let+ userDoc := store (get users ref) in
       run+ (match userDoc with
             | None =>
                 let+ name := google_name decodedToken in
                 store (doc_set users ref
                          [("name", Some name);
                           ("email", decodedToken !! "email");
                           ("photoURL",
                            Some (js_or (decodedToken !! "picture") VNull));
                           ("createdAt", stamp now 0);
                           ("provider", Some (VStr "google"))])
             | Some _ =>
                 store (update users ref [("lastLogin", stamp now 0)])
             end) in
       attempt
         (let+ sessionCookie := call (createSessionCookie idToken expiresIn) in
          act_ret
            {| answer :=
                 respond 200
                   [("message", Some (VStr "Login successful"));
                    ("user", user_of decodedToken)];
               cookie := SetCookie "session" sessionCookie session_options |})
         (λ cookieError,
            plain (respond 200
                     [("message",
                       Some (VStr "Login successful (session creation skipped)"));
                      ("user", user_of decodedToken);
                      ("warning",
                       Some (VStr "Session cookie not created - authentication still valid"))])))
      (λ error,
         plain (respond 401 [("error", Some (VStr (err_message error)));
                             ("code", err_code error)])).

(** [GET /auth/profile] *)
Definition get_auth_profile (req : request) : db → reply * db :=
  let sessionCookie := default "" (cookies req !! "session") in
  if String.eqb sessionCookie "" then
    λ s, (plain (respond 401 [("error", Some (VStr "No session found"))]), s)
  else
    catch
      (let+ decodedClaims := call (verifySessionCookie sessionCookie true) in
       let+ ref := store (docRef (decodedClaims !! "uid")) in
       let+ userDoc := store (get users ref) in
       act_ret
         (plain (respond 200
                   [("user", Some (VObj decodedClaims));
                    ("profile",
                     Some match userDoc with
                          | Some data => VObj data
                          | None => VNull
                          end)])))
      (λ err, plain (respond 401 [("error", Some (VStr "Unauthorized"))])).

(** [POST /auth/logout] *)
Definition post_auth_logout : db → reply * db :=
  λ s, ({| answer := respond 200 [("message", Some (VStr "Logged out successfully"))];
           cookie := ClearCookie "session" |}, s).

(** [GET /auth/test] *)
Definition get_auth_test : db → reply * db :=
  λ s, (plain (respond 200
                 [("message", Some (VStr "Auth routes are working"));
                  ("routes",
                   Some (VArr [VStr "POST /auth/signup"; VStr "POST /auth/login";
                               VStr "POST /auth/google-login";
                               VStr "GET /auth/profile"; VStr "POST /auth/logout"]));
                  ("firebaseConfigured", Some (VBool (truthy_str FIREBASE_API_KEY)))]),
        s).

(** The routes of the account router, and the signup of the earlier
    one. *)
Inductive account_route :=
  | POST_auth_signup
  | POST_auth_signup_earlier
  | POST_auth_login
  | POST_auth_google_login
  | GET_auth_profile
  | POST_auth_logout
  | GET_auth_test.

Definition account (r : account_route) (req : request) (body : doc)
  : db → reply * db :=
  match r with
  | POST_auth_signup => post_auth_signup body
  | POST_auth_signup_earlier => signup_post_auth_signup body
  | POST_auth_login => post_auth_login body
  | POST_auth_google_login => post_auth_google_login body
  | GET_auth_profile => get_auth_profile req
  | POST_auth_logout => post_auth_logout
  | GET_auth_test => get_auth_test
  end.

End Accounts.

(** ** Reasoning about the account routes *)

(** As [hoare], for the bodies of the account routes. *)
Definition act_hoare {A : Type} (P : db → Prop) (m : Act A)
    (Q : A → db → Prop) (E : db → Prop) : Prop :=
  ∀ s, P s → match m s with
             | (Done a, s') => Q a s'
             | (Failed _, s') => E s'
             end.

Lemma act_hoare_ret {A : Type} (P : db → Prop) (a : A) (Q : A → db → Prop)
    (E : db → Prop) :
  (∀ s, P s → Q a s) → act_hoare P (act_ret a) Q E.
Proof. intros H s Hs. by apply H. Qed.

Lemma act_hoare_fail {A : Type} (P : db → Prop) (e : error) (Q : A → db → Prop)
    (E : db → Prop) :
  (∀ s, P s → E s) → act_hoare P (act_fail e) Q E.
Proof. intros H s Hs. by apply H. Qed.

Lemma act_hoare_bind {A B : Type} (P : db → Prop) (m : Act A) (k : A → Act B)
    (R : A → db → Prop) (Q : B → db → Prop) (E : db → Prop) :
  act_hoare P m R E → (∀ a, act_hoare (R a) (k a) Q E) →
  act_hoare P (let+ x := m in k x) Q E.
Proof.
  intros Hm Hk s Hs. unfold act_bind. specialize (Hm s Hs).
  destruct (m s) as [[a|e] s1]; [by apply Hk|done].
Qed.

(** A call to the identity provider leaves the store alone; what
    follows it knows what the call returned. *)
Lemma act_hoare_call {A B : Type} (P : db → Prop) (r : result A) (k : A → Act B)
    (Q : B → db → Prop) (E : db → Prop) :
  (∀ s, P s → E s) → (∀ a, r = Done a → act_hoare P (k a) Q E) →
  act_hoare P (let+ x := call r in k x) Q E.
Proof.
  intros HE Hk s Hs. unfold act_bind, call.
  destruct r as [a|e]; [by apply Hk|by apply HE].
Qed.

Lemma act_hoare_store {A : Type} (P : db → Prop) (m : M A) (Q : A → db → Prop)
    (E : db → Prop) :
  hoare P m Q E → act_hoare P (store m) Q E.
Proof.
  intros Hm s Hs. unfold store. specialize (Hm s Hs).
  by destruct (m s) as [[a|e] s1].
Qed.

Lemma act_hoare_pre {A : Type} (P P' : db → Prop) (m : Act A)
    (Q : A → db → Prop) (E : db → Prop) :
  (∀ s, P s → P' s) → act_hoare P' m Q E → act_hoare P m Q E.
Proof. intros HP Hm s Hs. by apply Hm, HP. Qed.

Lemma act_hoare_pure {A : Type} (φ : Prop) (P : db → Prop) (m : Act A)
    (Q : A → db → Prop) (E : db → Prop) :
  (φ → act_hoare P m Q E) → act_hoare (λ s, P s ∧ φ) m Q E.
Proof. intros Hm s [Hs Hφ]. by apply Hm. Qed.

Lemma act_hoare_catch (P : db → Prop) (m : Act reply) (h : error → reply)
    (Q : reply → db → Prop) (E : db → Prop) (s : db) :
  act_hoare P m Q E → (∀ e s', E s' → Q (h e) s') → P s →
  Q (catch m h s).1 (catch m h s).2.
Proof.
  intros Hm Hh Hs. unfold catch. specialize (Hm s Hs).
  destruct (m s) as [[r|e] s']; [done|by apply Hh].
Qed.

Lemma act_hoare_attempt (P : db → Prop) (m : Act reply) (h : error → reply)
    (Q : reply → db → Prop) (E E' : db → Prop) :
  act_hoare P m Q E → (∀ e s', E s' → Q (h e) s') →
  act_hoare P (attempt m h) Q E'.
Proof. intros Hm Hh s Hs. unfold attempt. by apply (act_hoare_catch P _ _ Q E). Qed.

(** What the store operations of the account routes do, when only the
    reply matters. *)
Lemma hoare_any {A : Type} (m : M A) :
  hoare (λ _, True) m (λ _ _, True) (λ _, True).
Proof. intros s _. by destruct (m s) as [[a|e] s']. Qed.

(** The status codes an account route can answer with. *)
Definition account_statuses (r : account_route) : list nat :=
  match r with
  | POST_auth_signup | POST_auth_signup_earlier => [201; 400]
  | POST_auth_login => [200; 400; 500]
  | POST_auth_google_login => [200; 400; 401]
  | GET_auth_profile => [200; 401]
  | POST_auth_logout | GET_auth_test => [200]
  end.

(** The status codes an account route can answer a given request with:
    what the validation of the request leaves open. *)
Definition account_statuses_on (FIREBASE_API_KEY : option string)
    (r : account_route) (req : request) (body : doc) : list nat :=
  match r with
  | POST_auth_signup | POST_auth_signup_earlier =>
      if negb (truthy_opt (body !! "email")) || negb (truthy_opt (body !! "password"))
         || negb (truthy_opt (body !! "name"))
      then [400] else [201; 400]
  | POST_auth_login =>
      if negb (truthy_opt (body !! "email")) || negb (truthy_opt (body !! "password"))
      then [400]
      else if negb (truthy_str FIREBASE_API_KEY) then [500] else [200; 400]
  | POST_auth_google_login =>
      if negb (truthy_opt (body !! "idToken")) then [400] else [200; 401]
  | GET_auth_profile =>
      if String.eqb (default "" (cookies req !! "session")) "" then [401]
      else [200; 401]
  | POST_auth_logout | GET_auth_test => [200]
  end.

Ltac unfold_accounts :=
  cbn [account];
  unfold post_auth_signup, signup_post_auth_signup, post_auth_login,
    post_auth_google_login, get_auth_profile, post_auth_logout, get_auth_test,
    google_name.

(** One step through a body when only the reply matters. *)
Ltac reply_step tac :=
  first
    [ apply act_hoare_ret; intros ? _; first [exact I | tac]
    | apply act_hoare_fail; done
    | apply act_hoare_call; [done|intros ? ?]
    | apply act_hoare_attempt with (E := λ _, True); [|intros ? ? _; tac]
    | eapply act_hoare_bind; [apply act_hoare_store, hoare_any|intros ?]; cbv beta
    | eapply act_hoare_bind with (R := λ _ _, True); [|intros ?]
    | apply act_hoare_store, hoare_any
    | match goal with
      | |- act_hoare _ (if ?b then _ else _) _ _ => destruct b eqn:?
      | |- act_hoare _ (match ?x with _ => _ end) _ _ => destruct x eqn:?
      end ].

Section AccountProperties.
  Variable FIREBASE_API_KEY : option string.
  Variable createUser : literal → result string.
  Variable generateEmailVerificationLink : option value → result string.
  Variable signInWithPassword : string → value → result doc.
  Variable verifyIdToken : option value → result doc.
  Variable createSessionCookie : option value → Z → result string.
  Variable verifySessionCookie : string → bool → result doc.
  Variable now : nat → string.
  Variable String_of : value → string.

  #[local] Abbreviation account' :=
    (account FIREBASE_API_KEY createUser generateEmailVerificationLink
       signInWithPassword verifyIdToken createSessionCookie verifySessionCookie
       now String_of).

(** Each account route answers only with the status codes its
    validation leaves open, whatever the identity provider or the store
    throws.  A signup without email, password or name answers 400, any
    other signup 201 or 400.  A login without email or password answers
    400; any other login answers 500 on a server without API key, and
    200 or 400 on a server with one.  A Google login without ID token
    answers 400, any other 200 or 401.  The profile answers 401 to a
    request without session cookie, and 200 or 401 to any other.  The
    logout and the test route answer 200. *)
Theorem account_route_statuses
    (r : account_route) (req : request) (body : doc) (s : db) :
  status (answer (account' r req body s).1)
    ∈ account_statuses_on FIREBASE_API_KEY r req body
  ∧ status (answer (account' r req body s).1) ∈ account_statuses r.
Proof.
  assert (status (answer (account' r req body s).1)
            ∈ account_statuses_on FIREBASE_API_KEY r req body) as Hon.
  { destruct r; unfold_accounts; cbn [account_statuses_on]; cbv zeta;
      repeat match goal with
             | |- context [if ?b then _ else _] => destruct b
             end;
      try in_list;
      apply (act_hoare_catch (λ _, True) _ _ (λ r' _, status (answer r') ∈ _)
               (λ _, True));
      try done; try (intros; in_list);
      repeat reply_step in_list. }
  split; [exact Hon|].
  revert Hon. generalize (status (answer (account' r req body s).1)).
  destruct r; cbn [account_statuses_on account_statuses];
    repeat match goal with
           | |- context [if ?b then _ else _] => destruct b
           end;
    intros x; rewrite !elem_of_cons; tauto.
Qed.

(** The cookies the account routes touch.  A response sets a cookie only
    on a login or a Google login answered 200; the cookie is [session],
    with the fixed options (HTTP only, not secure, same-site lax, five
    days), and its value is the session cookie the identity provider
    made for an ID token that the provider had verified in the same
    request.  Only the logout clears a cookie, and it is [session]. *)
Theorem session_cookie_minted
    (r : account_route) (req : request) (body : doc) (s : db) :
  match cookie (account' r req body s).1 with
  | NoCookie => True
  | SetCookie name v options =>
      (r = POST_auth_login ∨ r = POST_auth_google_login)
      ∧ name = "session" ∧ options = session_options
      ∧ status (answer (account' r req body s).1) = 200
      ∧ ∃ idToken decodedToken,
          verifyIdToken idToken = Done decodedToken
          ∧ createSessionCookie idToken expiresIn = Done v
  | ClearCookie name => r = POST_auth_logout ∧ name = "session"
  end.
Proof.
  set (ok (r0 : account_route) (r' : reply) :=
         match cookie r' with
         | NoCookie => True
         | SetCookie name v options =>
             (r0 = POST_auth_login ∨ r0 = POST_auth_google_login)
             ∧ name = "session" ∧ options = session_options
             ∧ status (answer r') = 200
             ∧ ∃ idToken decodedToken,
                 verifyIdToken idToken = Done decodedToken
                 ∧ createSessionCookie idToken expiresIn = Done v
         | ClearCookie name => r0 = POST_auth_logout ∧ name = "session"
         end).
  change (ok r (account' r req body s).1).
  destruct r; unfold_accounts; cbv zeta;
    repeat match goal with
           | |- context [if ?b then _ else _] => destruct b
           end;
    try done;
    apply (act_hoare_catch (λ _, True) _ _ (λ r' _, ok _ r') (λ _, True));
    try done;
    repeat reply_step ltac:(first [done | unfold ok; cbn; naive_solver]).
Qed.

End AccountProperties.

(** ** Signing up *)

Lemma hoare_docRef_string (P E : db → Prop) (i : string) :
  (∀ s, P s → E s) →
  hoare P (docRef (Some (VStr i))) (λ ref s, P s ∧ (ref = i ∧ i ≠ "")) E.
Proof.
  intros HE s Hs. unfold docRef. destruct (String.eqb i "") eqn:Ei; [by apply HE|].
  apply String.eqb_neq in Ei. by split.
Qed.

Lemma hoare_docRef (P E : db → Prop) (v : option value) :
  (∀ s, P s → E s) →
  hoare P (docRef v) (λ ref s, P s ∧ (v = Some (VStr ref) ∧ ref ≠ "")) E.
Proof.
  intros HE s Hs. unfold docRef.
  destruct v as [[| | |i| |]|]; try by apply HE.
  destruct (String.eqb i "") eqn:Ei; [by apply HE|].
  apply String.eqb_neq in Ei. by split.
Qed.

(** [set] on an object with an [undefined] property throws before it
    writes. *)
Lemma hoare_doc_set_undefined (P : db → Prop) (c : path) (id : string)
    (data : literal) :
  fields data = None → hoare P (doc_set c id data) (λ _ _, False) P.
Proof. intros Hd s Hs. unfold doc_set. by rewrite Hd. Qed.

Lemma hoare_doc_set (s0 : db) (c : path) (id : string) (data : literal) :
  hoare (λ s, s = s0) (doc_set c id data)
    (λ _ s, ∃ d, fields data = Some d ∧ s = set_doc c id d s0) (λ _, True).
Proof.
  intros s ->. unfold doc_set. destruct (fields data) as [d|] eqn:Ed; [|done].
  by exists d.
Qed.

Section Signup.
  Variable FIREBASE_API_KEY : option string.
  Variable createUser : literal → result string.
  Variable generateEmailVerificationLink : option value → result string.
  Variable signInWithPassword : string → value → result doc.
  Variable verifyIdToken : option value → result doc.
  Variable createSessionCookie : option value → Z → result string.
  Variable verifySessionCookie : string → bool → result doc.
  Variable now : nat → string.
  Variable String_of : value → string.

(** The signup of the earlier router stores [phone] as it comes.  For a
    request without phone number the store client refuses the profile,
    so such a signup is never answered 201: it is answered 400 and no
    profile is written, also when the identity provider has created the
    account. *)
Theorem earlier_signup_without_phone (body : doc) (s : db) :
  body !! "phone" = None →
  status (answer (signup_post_auth_signup createUser
                    generateEmailVerificationLink now body s).1) = 400
  ∧ (signup_post_auth_signup createUser generateEmailVerificationLink now
       body s).2 = s.
Proof.
  intros Hphone. unfold signup_post_auth_signup. cbv zeta.
  destruct (negb _ || negb _ || negb _) eqn:Eg; [done|].
  apply orb_false_iff in Eg as [[He _]%orb_false_iff Hn].
  apply negb_false_iff in He, Hn.
  destruct (body !! "name") as [name|]; [|done].
  destruct (body !! "email") as [email|]; [|done].
  apply (act_hoare_catch (λ s', s' = s) _ _
           (λ r s', status (answer r) = 400 ∧ s' = s) (λ s', s' = s));
    [|done|done].
  apply act_hoare_call; [done|]. intros uid Huid.
  eapply act_hoare_bind;
    [apply act_hoare_store, hoare_reads; [apply reads_docRef|done]|].
  intros ref.
  eapply act_hoare_bind;
    [apply act_hoare_store, hoare_doc_set_undefined; by rewrite Hphone|].
  by intros [] s' [].
Qed.

(** A signup answered 201 has stored the profile of the new account
    under the uid the identity provider returned: the name and the
    e-mail address of the request, the phone number or [null], and the
    creation time, and nothing else, so the password is not stored.  The
    profile route, asked with a session cookie that the provider decodes
    to that uid, answers 200 with the decoded claims and exactly this
    profile. *)
Theorem signup_profile_reads_back (body : doc) (s : db) :
  status (answer (post_auth_signup createUser generateEmailVerificationLink
                    now body s).1) = 201 →
  ∃ uid name email,
    let profile : doc :=
      <["createdAt" := VStr (now 0)]>
        (<["phone" := js_or (body !! "phone") VNull]>
           (<["email" := email]> (<["name" := name]> ∅))) in
    body !! "name" = Some name ∧ body !! "email" = Some email
    ∧ createUser [("email", Some email); ("password", body !! "password");
                  ("displayName", Some name);
                  ("phoneNumber",
                   if truthy_opt (body !! "phone") then body !! "phone"
                   else None)] = Done uid
    ∧ uid ≠ ""
    ∧ (post_auth_signup createUser generateEmailVerificationLink now body s).2
      = set_doc users uid profile s
    ∧ ∀ req c decodedClaims,
        cookies req !! "session" = Some c → c ≠ "" →
        verifySessionCookie c true = Done decodedClaims →
        decodedClaims !! "uid" = Some (VStr uid) →
        get_auth_profile verifySessionCookie req (set_doc users uid profile s)
        = (plain (respond 200 [("user", Some (VObj decodedClaims));
                               ("profile", Some (VObj profile))]),
           set_doc users uid profile s).
Proof.
  unfold post_auth_signup. cbv zeta.
  destruct (negb _ || negb _ || negb _) eqn:Eg; [done|].
  apply orb_false_iff in Eg as [[He _]%orb_false_iff Hn].
  apply negb_false_iff in He, Hn.
  destruct (body !! "name") as [name|]; [|done].
  destruct (body !! "email") as [email|]; [|done].
  set (profile := <["createdAt" := VStr (now 0)]>
                    (<["phone" := js_or (body !! "phone") VNull]>
                       (<["email" := email]> (<["name" := name]> (∅ : doc))))).
  intros H201.
  match type of H201 with
  | status (answer (catch ?m ?h s).1) = 201 =>
      assert (∃ uid, createUser
                       [("email", Some email); ("password", body !! "password");
                        ("displayName", Some name);
                        ("phoneNumber",
                         if truthy_opt (body !! "phone") then body !! "phone"
                         else None)] = Done uid
                     ∧ uid ≠ ""
                     ∧ (catch m h s).2 = set_doc users uid profile s)
        as (uid & Hcreate & Hne & Hs); [|exists uid, name, email; cbv zeta]
  end.
  { revert H201.
    match goal with
    | |- status (answer (catch ?m ?h s).1) = 201 → _ =>
        apply (act_hoare_catch (λ s', s' = s) m h
                 (λ r s', status (answer r) = 201 →
                          ∃ uid, createUser
                                   [("email", Some email);
                                    ("password", body !! "password");
                                    ("displayName", Some name);
                                    ("phoneNumber",
                                     if truthy_opt (body !! "phone")
                                     then body !! "phone" else None)] = Done uid
                                 ∧ uid ≠ "" ∧ s' = set_doc users uid profile s)
                 (λ _, True))
    end; [|done|done].
    apply act_hoare_call; [done|]. intros uid Huid.
    eapply act_hoare_bind;
      [apply act_hoare_store, hoare_docRef_string; done|]. intros ref.
    apply act_hoare_pure. intros [-> Hne].
    eapply act_hoare_bind; [apply act_hoare_store, hoare_doc_set|]. intros [].
    apply act_hoare_call; [done|]. intros link Hlink.
    apply act_hoare_ret. intros s' (d & [= <-] & ->) _. by exists uid. }
  split_and!; [done..|].
  intros req c decodedClaims Hc Hc' Hclaims Huid.
  unfold get_auth_profile. cbv zeta. rewrite Hc.
  change (default "" (Some c)) with c.
  apply String.eqb_neq in Hc' as ->.
  unfold catch, act_bind, call, store. rewrite Hclaims, Huid.
  unfold docRef. apply String.eqb_neq in Hne as ->.
  unfold ret, get. by rewrite coll_set_doc_same, lookup_insert_eq.
Qed.

End Signup.

(** ** Logging in *)

Lemma hoare_conseq {A : Type} (P : db → Prop) (m : M A) (Q Q' : A → db → Prop)
    (E E' : db → Prop) :
  hoare P m Q E → (∀ a s, Q a s → Q' a s) → (∀ s, E s → E' s) →
  hoare P m Q' E'.
Proof.
  intros Hm HQ HE s Hs. specialize (Hm s Hs).
  destruct (m s) as [[a|e] s']; auto.
Qed.

(** A precondition that pins the store down. *)
Lemma act_hoare_at {A : Type} (s0 : db) (φ : Prop) (P : db → Prop) (m : Act A)
    (Q : A → db → Prop) (E : db → Prop) :
  (∀ s, P s → s = s0 ∧ φ) → (φ → act_hoare (λ s, s = s0) m Q E) →
  act_hoare P m Q E.
Proof. intros HP Hm s Hs. destruct (HP s Hs) as [-> Hφ]. by apply Hm. Qed.

Lemma hoare_update_from (s0 : db) (c : path) (id : string) (data : literal) :
  hoare (λ s, s = s0) (update c id data)
    (λ _ s, ∃ d old, fields data = Some d ∧ coll s0 c !! id = Some old
                     ∧ s = set_doc c id (d ∪ old) s0) (λ s, s = s0).
Proof.
  intros s ->. unfold update. destruct (fields data) as [d|] eqn:Ed; [|done].
  destruct (coll s0 c !! id) as [old|] eqn:Eold; [|done]. by exists d, old.
Qed.

Lemma hoare_doc_set_from (s0 : db) (c : path) (id : string) (data : literal) :
  hoare (λ s, s = s0) (doc_set c id data)
    (λ _ s, ∃ d, fields data = Some d ∧ s = set_doc c id d s0) (λ s, s = s0).
Proof.
  intros s ->. unfold doc_set. destruct (fields data) as [d|] eqn:Ed; [|done].
  by exists d.
Qed.

Lemma hoare_doc_set_merge_from (s0 : db) (c : path) (id : string) (data : literal) :
  hoare (λ s, s = s0) (doc_set_merge c id data)
    (λ _ s, ∃ d, fields data = Some d
                 ∧ s = set_doc c id (d ∪ default ∅ (coll s0 c !! id)) s0)
    (λ s, s = s0).
Proof.
  intros s ->. unfold doc_set_merge.
  destruct (fields data) as [d|] eqn:Ed; [|done]. by exists d.
Qed.

(** The profile of the user [uid] after a Google login, in terms of the
    store before it: a first login creates the profile from the decoded
    token, a later one only stamps [lastLogin]. *)
Definition google_profile (now : nat → string) (decodedToken : doc)
    (uid : string) (s s' : db) : Prop :=
  ∃ profile,
    s' = set_doc users uid profile s
    ∧ match coll s users !! uid with
      | Some old =>
          profile !! "lastLogin" = Some (VStr (now 0))
          ∧ ∀ k, k ≠ "lastLogin" → profile !! k = old !! k
      | None =>
          profile !! "provider" = Some (VStr "google")
          ∧ profile !! "email" = decodedToken !! "email"
          ∧ profile !! "photoURL" = Some (js_or (decodedToken !! "picture") VNull)
          ∧ profile !! "createdAt" = Some (VStr (now 0))
          ∧ profile !! "lastLogin" = None
          ∧ match decodedToken !! "name" with
            | Some name =>
                if truthy name then profile !! "name" = Some name
                else ∃ email, decodedToken !! "email" = Some (VStr email)
                              ∧ profile !! "name" = (VStr <$> head (split email "@"))
            | None =>
                ∃ email, decodedToken !! "email" = Some (VStr email)
                         ∧ profile !! "name" = (VStr <$> head (split email "@"))
            end
      end.

Lemma split_go_cons (sep s : string) :
  ∀ skip cur, ∃ x l, split_go sep skip cur s = x :: l.
Proof.
  induction s as [|a s IH]; intros skip cur; [by eexists _, _|].
  cbn [split_go]. destruct skip; [|apply IH].
  destruct (String.prefix sep (String a s)); [by eexists _, _|apply IH].
Qed.

Lemma split_head (s sep : string) :
  VStr <$> head (split s sep) = Some (VStr (default "" (head (split s sep)))).
Proof.
  unfold split. by destruct (split_go_cons sep s 0 "") as (x & l & ->).
Qed.

Section Login.
  Variable FIREBASE_API_KEY : option string.
  Variable createUser : literal → result string.
  Variable generateEmailVerificationLink : option value → result string.
  Variable signInWithPassword : string → value → result doc.
  Variable verifyIdToken : option value → result doc.
  Variable createSessionCookie : option value → Z → result string.
  Variable verifySessionCookie : string → bool → result doc.
  Variable now : nat → string.
  Variable String_of : value → string.

Lemma google_name_run (decodedToken : doc) (s0 : db) :
  act_hoare (λ s, s = s0) (google_name decodedToken)
    (λ name s,
       s = s0
       ∧ match decodedToken !! "name" with
         | Some v =>
             if truthy v then name = v
             else ∃ email, decodedToken !! "email" = Some (VStr email)
                           ∧ Some name = (VStr <$> head (split email "@"))
         | None =>
             ∃ email, decodedToken !! "email" = Some (VStr email)
                      ∧ Some name = (VStr <$> head (split email "@"))
         end)
    (λ _, True).
Proof.
  intros s ->. unfold google_name.
  destruct (decodedToken !! "name") as [v|] eqn:En; cbn [truthy_opt];
    [destruct (truthy v); [done|]|];
    destruct (decodedToken !! "email") as [[| | |email| |]|]; try done;
    (split; [done|]); exists email; by rewrite split_head.
Qed.

(** A Google login answered 200 went through a token the identity
    provider verified, and answers with the user of that token.  It
    wrote the profile of the decoded user id and nothing else: the first
    login of a user creates the profile (provider [google], the e-mail
    address and the picture of the token, the creation time, and as name
    the token's name or else what precedes the [@] of its address); a
    later one keeps every field of the profile and stamps
    [lastLogin]. *)
Theorem google_login_profile (body : doc) (s : db) :
  status (answer (post_auth_google_login verifyIdToken createSessionCookie now
                    body s).1) = 200 →
  ∃ decodedToken uid,
    verifyIdToken (body !! "idToken") = Done decodedToken
    ∧ decodedToken !! "uid" = Some (VStr uid) ∧ uid ≠ ""
    ∧ field (answer (post_auth_google_login verifyIdToken createSessionCookie
                       now body s).1) "user" = user_of decodedToken
    ∧ google_profile now decodedToken uid s
        (post_auth_google_login verifyIdToken createSessionCookie now body s).2.
Proof.
  unfold post_auth_google_login. cbv zeta.
  destruct (negb _); [done|].
  match goal with
  | |- status (answer (catch ?m ?h s).1) = 200 → _ =>
      apply (act_hoare_catch (λ s', s' = s) m h
               (λ r s', status (answer r) = 200 →
                        ∃ decodedToken uid,
                          verifyIdToken (body !! "idToken") = Done decodedToken
                          ∧ decodedToken !! "uid" = Some (VStr uid) ∧ uid ≠ ""
                          ∧ field (answer r) "user" = user_of decodedToken
                          ∧ google_profile now decodedToken uid s s')
               (λ _, True))
  end; [|done|done].
  apply act_hoare_call; [done|]. intros decodedToken Htoken.
  eapply act_hoare_bind; [apply act_hoare_store, hoare_docRef; done|].
  intros uid. apply act_hoare_pure. intros [Huid Hne].
  eapply act_hoare_bind; [apply act_hoare_store, hoare_get|]. intros userDoc.
  eapply act_hoare_bind with
    (R := λ _ s', google_profile now decodedToken uid s s').
  - apply (act_hoare_at s (coll s users !! uid = userDoc)); [by intros s' [-> ?]|].
    intros Hdoc. destruct userDoc as [old|].
    + apply act_hoare_store.
      eapply hoare_conseq; [apply hoare_update_from| |done].
      intros [] s' (d & old' & Hd & Hold & ->). exists (d ∪ old').
      split; [done|]. rewrite Hold.
      split; [by rewrite lookup_patch, (fields_lookup _ _ _ Hd)|].
      intros k Hk. rewrite lookup_patch, (fields_lookup _ _ _ Hd).
      cbn [literal_last]. by case_decide.
    + eapply act_hoare_bind; [apply act_hoare_pre with (P' := λ s', s' = s);
                              [done|apply google_name_run]|].
      intros name. eapply (act_hoare_at s); [intros s' [-> Hname]; by split|].
      intros Hname. apply act_hoare_store.
      eapply hoare_conseq; [apply hoare_doc_set_from| |done].
      intros [] s' (d & Hd & ->). exists d. split; [done|]. rewrite Hdoc.
      rewrite !(fields_lookup _ _ _ Hd). split_and!; try reflexivity.
      cbn [literal_last]. repeat case_decide; try done.
      destruct (decodedToken !! "name") as [v|]; [destruct (truthy v)|].
      * by subst.
      * destruct Hname as (email & ? & ?). by exists email.
      * destruct Hname as (email & ? & ?). by exists email.
  - intros [].
    apply act_hoare_attempt
      with (E := λ s', google_profile now decodedToken uid s s').
    + apply act_hoare_call; [done|]. intros sessionCookie Hcookie.
      apply act_hoare_ret. intros s' Hs' _. by exists decodedToken, uid.
    + intros e s' Hs' _. by exists decodedToken, uid.
Qed.

End Login.

(** The profile of the user [uid] after a login with a session: as
    before, with [lastLogin] stamped; created when there was none. *)
Definition login_stamp (now : nat → string) (uid : string) (s s' : db) : Prop :=
  ∃ profile,
    s' = set_doc users uid profile s
    ∧ profile !! "lastLogin" = Some (VStr (now 0))
    ∧ ∀ k, k ≠ "lastLogin" → profile !! k = coll s users !! uid ≫= (.!! k).

Section LoginProperties.
  Variable FIREBASE_API_KEY : option string.
  Variable createUser : literal → result string.
  Variable generateEmailVerificationLink : option value → result string.
  Variable signInWithPassword : string → value → result doc.
  Variable verifyIdToken : option value → result doc.
  Variable createSessionCookie : option value → Z → result string.
  Variable verifySessionCookie : string → bool → result doc.
  Variable now : nat → string.
  Variable String_of : value → string.

  #[local] Abbreviation login :=
    (post_auth_login FIREBASE_API_KEY signInWithPassword verifyIdToken
       createSessionCookie now String_of).

(** A login that passes the validation, on a server with an API key, is
    answered 200 as soon as the sign-in endpoint accepts it and the ID
    token of its answer verifies, whatever happens to the session. *)
Lemma login_accepted (body : doc) (s : db) (data decodedToken : doc) :
  truthy_opt (body !! "email") = true →
  truthy_opt (body !! "password") = true →
  truthy_str FIREBASE_API_KEY = true →
  signInWithPassword (default "" FIREBASE_API_KEY)
    (json_of [("email", body !! "email"); ("password", body !! "password");
              ("returnSecureToken", Some (VBool true))]) = Done data →
  truthy_opt (data !! "error") = false →
  verifyIdToken (data !! "idToken") = Done decodedToken →
  status (answer (login body s).1) = 200.
Proof.
  intros He Hp Hk Hdata Herror Htoken.
  unfold post_auth_login. cbv zeta. rewrite He, Hp, Hk. cbn [negb orb].
  unfold catch at 1, act_bind at 1, call at 1. rewrite Hdata, Herror.
  unfold act_bind at 1, call at 1. rewrite Htoken.
  unfold attempt, catch.
  match goal with
  | |- context [match ?m s with _ => _ end] => destruct (m s) as [[r|e] s'] eqn:E
  end; [|done].
  cbn [fst]. revert E. unfold act_bind, call, store, act_ret.
  destruct (createSessionCookie _ _); [|done].
  destruct (docRef _ s) as [[ref|?] s1]; [|done].
  destruct (doc_set_merge _ _ _ s1) as [[[]|?] s2]; [|done].
  by intros [= <- <-].
Qed.

(** A login answered 200 went through the sign-in endpoint, whose
    answer held no [error], and through the verification of the ID
    token of that answer; the response carries the user of the decoded
    token.  Then either the response sets the session cookie the
    provider made for that token, and the profile of the user has its
    [lastLogin] stamped and is otherwise as it was; or the response sets
    no cookie, says so in a [warning], and the store is as it was.
    Conversely, a login with email and password, on a server with an API
    key, that the sign-in endpoint accepts and whose ID token verifies,
    is answered 200: also when no session could be created. *)
Theorem login_session (body : doc) (s : db) :
  (status (answer (login body s).1) = 200 →
   ∃ data decodedToken,
     signInWithPassword (default "" FIREBASE_API_KEY)
       (json_of [("email", body !! "email"); ("password", body !! "password");
                 ("returnSecureToken", Some (VBool true))]) = Done data
     ∧ truthy_opt (data !! "error") = false
     ∧ verifyIdToken (data !! "idToken") = Done decodedToken
     ∧ field (answer (login body s).1) "user" = user_of decodedToken
     ∧ match cookie (login body s).1 with
       | SetCookie _ v _ =>
           createSessionCookie (data !! "idToken") expiresIn = Done v
           ∧ field (answer (login body s).1) "idToken" = data !! "idToken"
           ∧ ∃ uid, decodedToken !! "uid" = Some (VStr uid)
                    ∧ login_stamp now uid s (login body s).2
       | _ =>
           (login body s).2 = s
           ∧ field (answer (login body s).1) "warning"
             = Some (VStr "Session cookie not created")
       end)
  ∧ (∀ data decodedToken,
       truthy_opt (body !! "email") = true →
       truthy_opt (body !! "password") = true →
       truthy_str FIREBASE_API_KEY = true →
       signInWithPassword (default "" FIREBASE_API_KEY)
         (json_of [("email", body !! "email"); ("password", body !! "password");
                   ("returnSecureToken", Some (VBool true))]) = Done data →
       truthy_opt (data !! "error") = false →
       verifyIdToken (data !! "idToken") = Done decodedToken →
       status (answer (login body s).1) = 200).
Proof.
  split; [|intros data decodedToken; apply login_accepted].
  unfold post_auth_login. cbv zeta.
  destruct (negb _ || negb _); [done|]. destruct (negb _); [done|].
  match goal with
  | |- status (answer (catch ?m ?h s).1) = 200 → _ =>
      apply (act_hoare_catch (λ s', s' = s) m h
               (λ r s', status (answer r) = 200 →
                  ∃ data decodedToken,
                    signInWithPassword (default "" FIREBASE_API_KEY)
                      (json_of [("email", body !! "email");
                                ("password", body !! "password");
                                ("returnSecureToken", Some (VBool true))])
                    = Done data
                    ∧ truthy_opt (data !! "error") = false
                    ∧ verifyIdToken (data !! "idToken") = Done decodedToken
                    ∧ field (answer r) "user" = user_of decodedToken
                    ∧ match cookie r with
                      | SetCookie _ v _ =>
                          createSessionCookie (data !! "idToken") expiresIn = Done v
                          ∧ field (answer r) "idToken" = data !! "idToken"
                          ∧ ∃ uid, decodedToken !! "uid" = Some (VStr uid)
                                   ∧ login_stamp now uid s s'
                      | _ =>
                          s' = s
                          ∧ field (answer r) "warning"
                            = Some (VStr "Session cookie not created")
                      end)
               (λ _, True))
  end; [|done|done].
  apply act_hoare_call; [done|]. intros data Hdata.
  destruct (truthy_opt (data !! "error")) eqn:Herror; [by apply act_hoare_fail|].
  apply act_hoare_call; [done|]. intros decodedToken Htoken.
  apply act_hoare_attempt with (E := λ s', s' = s).
  - apply act_hoare_call; [done|]. intros sessionCookie Hcookie.
    eapply act_hoare_bind; [apply act_hoare_store, hoare_docRef; done|].
    intros uid. apply act_hoare_pure. intros [Huid Hne].
    eapply act_hoare_bind;
      [apply act_hoare_store, hoare_doc_set_merge_from|]. intros [].
    apply act_hoare_ret. intros s' (d & Hd & ->) _.
    exists data, decodedToken. cbn [cookie answer]. split_and!; try done.
    + unfold field, respond, json_of, user_of.
      cbn [json foldl fst snd]. by destruct (data !! "idToken").
    + unfold field, respond, json_of, user_of.
      cbn [json foldl fst snd]. by destruct (data !! "idToken").
    + exists uid. split; [done|]. eexists. split; [done|].
      split; [by rewrite lookup_patch, (fields_lookup _ _ _ Hd)|].
      intros k Hk. rewrite lookup_patch, (fields_lookup _ _ _ Hd).
      cbn [literal_last]. case_decide; [done|].
      by destruct (coll s users !! uid).
  - intros e s' -> _. by exists data, decodedToken.
Qed.

End LoginProperties.

(** ** What the account routes do to the store *)

Lemma keeps_untouched_doc_set (c c' : path) (s0 : db) (id : string)
    (data : literal) :
  c ≠ c' → keeps (untouched c s0) (doc_set c' id data).
Proof.
  intros Hc s Hs. unfold doc_set. destruct (fields data) as [d|]; [|done].
  cbn [snd]. unfold untouched. by rewrite coll_set_doc_other.
Qed.

Lemma keeps_untouched_doc_set_merge (c c' : path) (s0 : db) (id : string)
    (data : literal) :
  c ≠ c' → keeps (untouched c s0) (doc_set_merge c' id data).
Proof.
  intros Hc s Hs. unfold doc_set_merge. destruct (fields data) as [d|]; [|done].
  cbn [snd]. unfold untouched. by rewrite coll_set_doc_other.
Qed.

Lemma act_hoare_call_only {A : Type} (P E : db → Prop) (r : result A) :
  (∀ s, P s → E s) → act_hoare P (call r) (λ _, P) E.
Proof. intros HE s Hs. unfold call. destruct r; auto. Qed.

(** One step through a body that keeps the invariant [P] of the store,
    also when it throws; [write] handles the store operations. *)
Ltac invariant_step P write :=
  first
    [ apply act_hoare_ret; by intros
    | apply act_hoare_fail; by intros
    | apply act_hoare_call_only; by intros
    | apply act_hoare_attempt with (E := P); [|by intros]
    | apply act_hoare_store, hoare_keeps;
      first [apply reads_keeps; solve [reads_tac] | write]
    | eapply act_hoare_bind with (R := λ _, P); [|intros ?]
    | match goal with
      | |- act_hoare _ (if ?b then _ else _) _ _ => destruct b
      | |- act_hoare _ (match ?x with _ => _ end) _ _ => destruct x
      end ].

(** The routes of the account router that only read. *)
Definition account_reads (r : account_route) : bool :=
  match r with
  | GET_auth_profile | POST_auth_logout | GET_auth_test => true
  | _ => false
  end.

(** The two logins. *)
Definition account_login (r : account_route) : bool :=
  match r with
  | POST_auth_login | POST_auth_google_login => true
  | _ => false
  end.

Section AccountStore.
  Variable FIREBASE_API_KEY : option string.
  Variable createUser : literal → result string.
  Variable generateEmailVerificationLink : option value → result string.
  Variable signInWithPassword : string → value → result doc.
  Variable verifyIdToken : option value → result doc.
  Variable createSessionCookie : option value → Z → result string.
  Variable verifySessionCookie : string → bool → result doc.
  Variable now : nat → string.
  Variable String_of : value → string.

  #[local] Abbreviation account' :=
    (account FIREBASE_API_KEY createUser generateEmailVerificationLink
       signInWithPassword verifyIdToken createSessionCookie verifySessionCookie
       now String_of).

(** What the account routes do to the store.  They write to the
    collection of the user profiles only: every other collection is after
    the request what it was before, whatever the response.  The profile
    route, the logout and the test route write nothing at all. *)
Theorem account_routes_write_profiles_only
    (r : account_route) (req : request) (body : doc) (s : db) :
  (∀ c, c ≠ users → coll (account' r req body s).2 c = coll s c)
  ∧ (account_reads r = true → (account' r req body s).2 = s).
Proof.
  split.
  - intros c Hc. change (untouched c s (account' r req body s).2).
    destruct r; unfold_accounts; cbv zeta;
      repeat match goal with
             | |- context [if ?b then _ else _] => destruct b
             end;
      try done;
      apply (act_hoare_catch (untouched c s) _ _ (λ _, untouched c s)
               (untouched c s)); try done;
      repeat invariant_step (untouched c s)
        ltac:(first [ apply keeps_untouched_doc_set; done
                    | apply keeps_untouched_doc_set_merge; done
                    | apply keeps_untouched_update; done ]).
  - intros Hr. destruct r; try discriminate Hr; unfold_accounts; cbv zeta;
      try done.
    destruct (String.eqb _ _); [done|].
    apply (act_hoare_catch (λ s', s' = s) _ _ (λ _ s', s' = s) (λ s', s' = s));
      try done.
    repeat invariant_step (λ s', s' = s) fail.
Qed.

Lemma login_failed (body : doc) (s : db) :
  status (answer (post_auth_login FIREBASE_API_KEY signInWithPassword
                    verifyIdToken createSessionCookie now String_of body s).1)
  ≠ 200 →
  (post_auth_login FIREBASE_API_KEY signInWithPassword verifyIdToken
     createSessionCookie now String_of body s).2 = s.
Proof.
  unfold post_auth_login. cbv zeta.
  destruct (negb _ || negb _); [done|]. destruct (negb _); [done|].
  intros Hst.
  match type of Hst with
  | status (answer (catch ?m ?h s).1) ≠ 200 =>
      destruct (act_hoare_catch (λ s', s' = s) m h
                  (λ r s', status (answer r) = 200 ∨ s' = s) (λ s', s' = s) s)
        as [H|H]; [|by right|done|done|done]
  end.
  apply act_hoare_call; [done|]. intros data Hdata.
  destruct (truthy_opt _); [by apply act_hoare_fail|].
  apply act_hoare_call; [done|]. intros decodedToken Htoken.
  apply act_hoare_pre with (P' := λ _, True); [done|].
  apply act_hoare_attempt with (E := λ _, True); [|intros; by left].
  repeat reply_step ltac:(by left).
Qed.

Lemma google_login_failed (body : doc) (s : db) :
  status (answer (post_auth_google_login verifyIdToken createSessionCookie now
                    body s).1) ≠ 200 →
  (post_auth_google_login verifyIdToken createSessionCookie now body s).2 = s.
Proof.
  unfold post_auth_google_login. cbv zeta.
  destruct (negb _); [done|].
  intros Hst.
  match type of Hst with
  | status (answer (catch ?m ?h s).1) ≠ 200 =>
      destruct (act_hoare_catch (λ s', s' = s) m h
                  (λ r s', status (answer r) = 200 ∨ s' = s) (λ s', s' = s) s)
        as [H|H]; [|by right|done|done|done]
  end.
  apply act_hoare_call; [done|]. intros decodedToken Htoken.
  eapply act_hoare_bind;
    [apply act_hoare_store, hoare_reads; [apply reads_docRef|done]|]. intros uid.
  eapply act_hoare_bind;
    [apply act_hoare_store, hoare_reads; [apply reads_get|done]|]. intros userDoc.
  eapply act_hoare_bind with (R := λ _ _, True).
  - destruct userDoc as [old|].
    + apply act_hoare_store.
      eapply hoare_conseq; [apply hoare_update_from|done|done].
    + eapply act_hoare_bind with (R := λ _ s', s' = s).
      * unfold google_name.
        repeat invariant_step (λ s', s' = s) fail.
      * intros name. apply act_hoare_store.
        eapply hoare_conseq; [apply hoare_doc_set_from|done|done].
  - intros []. apply act_hoare_attempt with (E := λ _, True); [|intros; by left].
    repeat reply_step ltac:(by left).
Qed.

(** A login or a Google login that is not answered 200 has written
    nothing: the profile is touched only once the identity provider has
    verified the token, and nothing that follows the write can fail.  (A
    signup has no such guarantee: it stores the profile before it asks
    for the verification link.) *)
Theorem failed_login_writes_nothing
    (r : account_route) (req : request) (body : doc) (s : db) :
  account_login r = true →
  status (answer (account' r req body s).1) ≠ 200 →
  (account' r req body s).2 = s.
Proof.
  intros Hr. destruct r; try discriminate Hr; cbn [account];
    [apply login_failed|apply google_login_failed].
Qed.

End AccountStore.

(** ** An identity provider for the examples *)

(** The decoded token of Ann, who has no display name. *)
Definition ann_token : doc :=
  <["uid" := VStr "uid-7"]> (<["email" := VStr "ann@example.org"]> ∅).

Definition account_createUser (properties : literal) : result string :=
  Done "uid-7".

Definition account_link (email : option value) : result string :=
  Done "https://example.org/verify".

Definition account_signIn (key : string) (body : value) : result doc :=
  Done {["idToken" := VStr "token-7"]}.

(** A sign-in endpoint that refuses the password. *)
Definition account_signIn_refused (key : string) (body : value) : result doc :=
  Done {["error" := VObj {["message" := VStr "INVALID_PASSWORD"]}]}.

Definition account_verifyIdToken (idToken : option value) : result doc :=
  if decide (idToken = Some (VStr "token-7")) then Done ann_token
  else Failed (Error "Decoding Firebase ID token failed").

Definition account_createSessionCookie (idToken : option value) (expires : Z)
  : result string :=
  Done "cookie-7".

Definition account_verifySessionCookie (c : string) (checkRevoked : bool)
  : result doc :=
  if String.eqb c "cookie-7" then Done ann_token
  else Failed (Error "Decoding Firebase session cookie failed").

Definition ann_signup : doc :=
  <["name" := VStr "Ann"]> (<["email" := VStr "ann@example.org"]>
  (<["password" := VStr "correct horse"]> ∅)).

Definition ann_login : doc :=
  <["email" := VStr "ann@example.org"]> (<["password" := VStr "correct horse"]> ∅).

Definition ann_google : doc := {["idToken" := VStr "token-7"]}.

Definition ann_request : request :=
  {| cookies := {["session" := "cookie-7"]}; headers := ∅; user := None |}.

Lemma earlier_signup_without_phone_witness :
  status (answer (signup_post_auth_signup account_createUser account_link
                    example_now ann_signup example_store).1) = 400
  ∧ (signup_post_auth_signup account_createUser account_link example_now
       ann_signup example_store).2 = example_store.
Proof.
  apply (earlier_signup_without_phone account_createUser account_link
           example_now ann_signup example_store).
  reflexivity.
Defined.

Lemma signup_profile_reads_back_witness :
  ∃ profile,
    (post_auth_signup account_createUser account_link example_now ann_signup
       example_store).2 = set_doc users "uid-7" profile example_store
    ∧ profile !! "phone" = Some VNull
    ∧ profile !! "password" = None
    ∧ get_auth_profile account_verifySessionCookie ann_request
        (set_doc users "uid-7" profile example_store)
      = (plain (respond 200 [("user", Some (VObj ann_token));
                             ("profile", Some (VObj profile))]),
         set_doc users "uid-7" profile example_store).
Proof.
  destruct (signup_profile_reads_back account_createUser account_link
              account_verifySessionCookie example_now ann_signup example_store)
    as (uid & name & email & _ & _ & Hcreate & _ & Hs & Hget); [reflexivity|].
  injection Hcreate as <-.
  eexists. split_and!; [exact Hs|reflexivity|reflexivity|].
  by apply (Hget ann_request "cookie-7" ann_token).
Defined.

Lemma google_login_profile_witness :
  ∃ profile,
    (post_auth_google_login account_verifyIdToken account_createSessionCookie
       example_now ann_google example_store).2
    = set_doc users "uid-7" profile example_store
    ∧ profile !! "name" = Some (VStr "ann")
    ∧ profile !! "provider" = Some (VStr "google").
Proof.
  destruct (google_login_profile account_verifyIdToken
              account_createSessionCookie example_now ann_google example_store)
    as (decodedToken & uid & Htoken & Huid & _ & _ & profile & Hs & Hprofile);
    [reflexivity|].
  injection Htoken as <-. injection Huid as <-.
  change (coll example_store users !! "uid-7") with (@None doc) in Hprofile.
  destruct Hprofile as (Hprovider & _ & _ & _ & _ & email & Hemail & Hname).
  injection Hemail as <-.
  exists profile. by split_and!.
Defined.

(** A provider that makes no session cookie. *)
Definition account_createSessionCookie_refused (idToken : option value)
    (expires : Z) : result string :=
  Failed (Error "There is no user record corresponding to the provided identifier.").

Lemma login_session_witness :
  (cookie (post_auth_login (Some "key") account_signIn account_verifyIdToken
             account_createSessionCookie example_now (λ _, "") ann_login
             example_store).1
   = SetCookie "session" "cookie-7" session_options
   ∧ login_stamp example_now "uid-7" example_store
       (post_auth_login (Some "key") account_signIn account_verifyIdToken
          account_createSessionCookie example_now (λ _, "") ann_login
          example_store).2)
  ∧ (status (answer (post_auth_login (Some "key") account_signIn
                       account_verifyIdToken account_createSessionCookie_refused
                       example_now (λ _, "") ann_login example_store).1) = 200
     ∧ cookie (post_auth_login (Some "key") account_signIn
                 account_verifyIdToken account_createSessionCookie_refused
                 example_now (λ _, "") ann_login example_store).1 = NoCookie
     ∧ (post_auth_login (Some "key") account_signIn
          account_verifyIdToken account_createSessionCookie_refused
          example_now (λ _, "") ann_login example_store).2 = example_store).
Proof.
  split.
  - split; [reflexivity|].
    destruct (login_session (Some "key") account_signIn account_verifyIdToken
                account_createSessionCookie example_now (λ _, "") ann_login
                example_store) as [Hsession _].
    destruct Hsession
      as (data & decodedToken & Hdata & _ & Htoken & _ & Hcookie); [reflexivity|].
    injection Hdata as <-. injection Htoken as <-.
    change (cookie _) with (SetCookie "session" "cookie-7" session_options)
      in Hcookie.
    destruct Hcookie as (_ & _ & uid & Huid & Hstamp).
    by injection Huid as <-.
  - destruct (login_session (Some "key") account_signIn account_verifyIdToken
                account_createSessionCookie_refused example_now (λ _, "")
                ann_login example_store) as [Hsession Haccepted].
    assert (status (answer (post_auth_login (Some "key") account_signIn
                              account_verifyIdToken
                              account_createSessionCookie_refused
                              example_now (λ _, "") ann_login example_store).1)
            = 200) as H200.
    { eapply Haccepted; reflexivity. }
    split; [exact H200|]. split; [reflexivity|].
    destruct (Hsession H200) as (data & decodedToken & _ & _ & _ & _ & Hcookie).
    change (cookie _) with NoCookie in Hcookie. by destruct Hcookie.
Defined.

Lemma failed_login_writes_nothing_witness :
  status (answer (post_auth_login (Some "key") account_signIn_refused
                    account_verifyIdToken account_createSessionCookie
                    example_now (λ _, "") ann_login example_store).1) = 400
  ∧ (post_auth_login (Some "key") account_signIn_refused account_verifyIdToken
       account_createSessionCookie example_now (λ _, "") ann_login
       example_store).2 = example_store.
Proof.
  split; [reflexivity|].
  apply (failed_login_writes_nothing (Some "key") account_createUser
           account_link account_signIn_refused account_verifyIdToken
           account_createSessionCookie account_verifySessionCookie example_now
           (λ _, "") POST_auth_login ann_request ann_login example_store);
    [reflexivity|].
  change (status _) with 400. discriminate.
Defined.

(** * Devices refer to organizations that exist

    A device holds the id of its organization in [organizationId], or
    [null].  Every route that writes the field checks the organization
    first, and the delete of an organization is refused while a device
    refers to it: the references of the devices never dangle.  (The gyms
    of an organization have no such protection: they stay when the
    organization is deleted.) *)

(** [o] is [undefined], [null], or the id of an organization of [s]. *)
Definition known (s : db) (o : option value) : Prop :=
  ∀ v, o = Some v →
       v = VNull ∨ ∃ oid, v = VStr oid ∧ is_Some (coll s organizations !! oid).

Definition devices_refer (s : db) : Prop :=
  ∀ i d, coll s devices !! i = Some d → known s (d !! "organizationId").

(** No device refers to the organization [id]. *)
Definition unreferenced (id : string) (s : db) : Prop :=
  ∀ i d, coll s devices !! i = Some d → d !! "organizationId" ≠ Some (VStr id).

Lemma known_set_doc (c : path) (id : string) (d : doc) (s : db) (o : option value) :
  known s o → known (set_doc c id d s) o.
Proof.
  intros Ho v Hv. destruct (Ho v Hv) as [->|(oid & -> & Hoid)]; [by left|].
  right. exists oid. split; [done|]. rewrite coll_set_doc.
  case_decide; [|done]. subst c.
  destruct (decide (id = oid)) as [->|]; [by rewrite lookup_insert_eq|].
  by rewrite lookup_insert_ne.
Qed.

Lemma refer_set_other (c : path) (id : string) (d : doc) (s : db) :
  c ≠ devices → devices_refer s → devices_refer (set_doc c id d s).
Proof.
  intros Hc Hs i di. rewrite coll_set_doc_other by done.
  intros Hi. by apply known_set_doc, (Hs i).
Qed.

Lemma refer_set_device (id : string) (d : doc) (s : db) :
  devices_refer s → known s (d !! "organizationId") →
  devices_refer (set_doc devices id d s).
Proof.
  intros Hs Hd i di. rewrite coll_set_doc_same.
  destruct (decide (id = i)) as [->|].
  - rewrite lookup_insert_eq. intros [= <-]. by apply known_set_doc.
  - rewrite lookup_insert_ne by done. intros Hi. by apply known_set_doc, (Hs i).
Qed.

Lemma refer_merge (c : path) (id : string) (p old : doc) (s : db) :
  devices_refer s → coll s c !! id = Some old →
  (c = devices → known s (p !! "organizationId")) →
  devices_refer (set_doc c id (p ∪ old) s).
Proof.
  intros Hs Hold Hp. destruct (decide (c = devices)) as [->|Hc];
    [|by apply refer_set_other].
  apply refer_set_device; [done|]. rewrite lookup_patch.
  destruct (p !! "organizationId") eqn:Ep; [by apply Hp|by apply (Hs id)].
Qed.

Lemma keeps_refer_add (newId : string) (c : path) (data : literal) :
  c ≠ devices → keeps devices_refer (add newId c data).
Proof.
  intros Hc s Hs. unfold add. destruct (fields data) as [d|]; [|done].
  destruct (coll s c !! newId); [done|]. by apply refer_set_other.
Qed.

Lemma keeps_refer_update (c : path) (id : string) (data : literal) :
  c ≠ devices → keeps devices_refer (update c id data).
Proof.
  intros Hc s Hs. unfold update. destruct (fields data) as [d|]; [|done].
  destruct (coll s c !! id); [|done]. by apply refer_set_other.
Qed.

Lemma refer_delete (c : path) (id : string) (s : db) :
  devices_refer s → (c = organizations → unreferenced id s) →
  devices_refer (delete_from c id s).
Proof.
  intros Hs Hid i d. rewrite coll_delete_from. intros Hi v Hv.
  assert (coll s devices !! i = Some d) as Hi'.
  { case_decide as Hc; [|done]. subst c.
    by apply lookup_delete_Some in Hi as [_ ?]. }
  clear Hi.
  destruct (Hs i d Hi' v Hv) as [->|(oid & -> & Hoid)]; [by left|].
  right. exists oid. split; [done|]. rewrite coll_delete_from.
  case_decide as Hc; [|done]. subst c.
  rewrite lookup_delete_ne; [done|]. intros ->. by apply (Hid eq_refl i d).
Qed.

Lemma keeps_refer_delete_doc (c : path) (id : string) :
  c ≠ organizations → keeps devices_refer (delete_doc c id).
Proof. intros Hc s Hs. by apply refer_delete. Qed.

Lemma hoare_probe_field (P : db → Prop) (c : path) (f : string) (v : value)
    (E : db → Prop) :
  hoare P (limit 1 (where_eq c f (Some v)))
    (λ q s, P s ∧ (snapshot_empty q = true →
                   ∀ i d, coll s c !! i = Some d → d !! f ≠ Some v)) E.
Proof.
  intros s Hs.
  destruct (limit 1 (where_eq c f (Some v)) s) as [[q|e] s1] eqn:Erun; [|done].
  assert (s1 = s) as -> by (by injection Erun).
  split; [done|]. intros Hq i d Hd Hv.
  destruct (probe_found c f v s i d Hd Hv) as (q' & Hq' & Hne). congruence.
Qed.

(** The staged updates of a batch are updates of devices that set
    [organizationId] to [v]. *)
Definition assign_to (v : value) (b : batch) : Prop :=
  Forall (λ w : path * string * doc,
            w.1.1 = devices ∧ w.2 !! "organizationId" = Some v) b.

Lemma hoare_commit_refer (v : value) (b : batch) :
  assign_to v b →
  hoare (λ s, devices_refer s ∧ known s (Some v)) (commit b)
    (λ _, devices_refer) devices_refer.
Proof.
  intros Hb s [Hs Hv]. unfold commit. destruct (forallb _ b); [|done].
  revert s Hs Hv.
  induction Hb as [|[[c i] p] b [Hc Hp] Hb IH]; intros s Hs Hv; [done|].
  cbn [foldl]. cbn [fst snd] in Hc, Hp. subst c. unfold apply_update.
  destruct (coll s devices !! i) eqn:E; [|by apply IH].
  apply IH; [|by apply known_set_doc].
  apply refer_merge; [done..|]. intros _. by rewrite Hp.
Qed.

Lemma stage_devices_assign_to (now : nat → string) (u : claims)
    (organizationId organizationName : option value) (deviceIds : list value)
    (P E : db → Prop) :
  (∀ s, P s → E s) →
  ∀ staged updated,
    assign_to (js_or organizationId VNull) staged →
    hoare P
      (stage_devices now u organizationId organizationName deviceIds staged updated)
      (λ r s, P s ∧ assign_to (js_or organizationId VNull) r.1) E.
Proof.
  intros HE.
  induction deviceIds as [|i ids IH]; intros staged updated Hb;
    [by apply hoare_ret|].
  cbn [stage_devices].
  eapply hoare_bind; [apply hoare_reads; [apply reads_docRef|done]|]. intros ref.
  eapply hoare_bind; [apply hoare_reads; [apply reads_get|done]|].
  intros [d|]; [|by apply IH].
  unfold batch_update. destruct (fields _) as [p|] eqn:Ep;
    [|intros s Hs; by apply HE].
  intros s Hs. unfold bind at 1, ret at 1. apply IH; [|done].
  apply Forall_app. split; [done|]. apply Forall_singleton. cbn [fst snd].
  split; [done|]. by rewrite (fields_lookup _ _ _ Ep).
Qed.

(** What the existence check of a request's [organizationId] has
    settled. *)
Definition checked (organizationId : option value) (s : db) : Prop :=
  truthy_opt organizationId = true →
  ∃ oid, organizationId = Some (VStr oid)
         ∧ is_Some (coll s organizations !! oid).

Lemma checked_known (organizationId : option value) (s : db) :
  checked organizationId s → known s (Some (js_or organizationId VNull)).
Proof.
  intros Hc v [= <-]. destruct organizationId as [v|]; cbn [js_or]; [|by left].
  destruct (truthy v) eqn:Ht; [|by left].
  destruct (Hc Ht) as (oid & [= ->] & Hoid). right. by exists oid.
Qed.

Ltac keeps_refer_step :=
  first
    [ apply keeps_bind; [|intros ?]
    | apply reads_keeps; solve [reads_tac]
    | apply keeps_refer_delete_doc; solve [done | by intros [=]]
    | apply keeps_refer_update; solve [done | by intros [=]]
    | apply keeps_refer_add; solve [done | by intros [=]]
    | match goal with
      | |- keeps _ (if ?b then _ else _) => destruct b
      | |- keeps _ (match ?x with _ => _ end) => destruct x
      end ].

Section References.
  Variable now : nat → string.
  Variable newId : string.
  Variable parseInt : value → value.
  Variable parseFloat : value → value.
  Variable orderBy_createdAt_desc : gmap string doc → value → outcome snapshot.

  #[local] Abbreviation serve' :=
    (serve now newId parseInt parseFloat orderBy_createdAt_desc).

Lemma delete_organization_refer (u : claims) (id : string) (s : db) :
  devices_refer s →
  devices_refer (delete_organizations_id now newId u id s).2.
Proof.
  unfold delete_organizations_id.
  apply (hoare_try_catch devices_refer devices_refer). cbv zeta.
  eapply hoare_bind; [apply hoare_reads; [apply reads_get|done]|].
  intros [data|]; [|by apply hoare_ret].
  eapply hoare_bind; [apply hoare_probe_field|]. intros q.
  destruct (snapshot_empty q) eqn:Eq; cbn [negb];
    [|apply hoare_ret; by intros s' [? ?]].
  eapply hoare_bind with (R := λ _, devices_refer).
  - intros s' [Hs' Hq]. apply refer_delete; [done|]. intros _. exact (Hq Eq).
  - intros []. eapply hoare_bind;
      [apply hoare_keeps, keeps_refer_add; done|]. intros ?. by apply hoare_ret.
Qed.

Lemma post_devices_refer (u : claims) (body : doc) (s : db) :
  devices_refer s → devices_refer (post_devices now newId u body s).2.
Proof.
  unfold post_devices. apply (hoare_try_catch devices_refer devices_refer).
  cbv zeta.
  destruct (negb _ || negb _ || negb _); [by apply hoare_ret|].
  eapply hoare_bind; [apply hoare_reads; [reads_tac|done]|]. intros q.
  destruct (negb _); [by apply hoare_ret|].
  eapply hoare_bind with
    (R := λ found s', devices_refer s'
                      ∧ (found = true → checked (body !! "organizationId") s')).
  - destruct (truthy_opt (body !! "organizationId")) eqn:Ht.
    + eapply hoare_bind; [apply hoare_docRef; done|]. intros oid.
      eapply hoare_bind; [apply hoare_get|]. intros orgDoc. apply hoare_ret.
      intros s' [[Hs' [Hoid Hne]] Hdoc]. split; [done|].
      intros Hfound%bool_decide_eq_true _. exists oid.
      split; [exact Hoid|]. rewrite Hdoc. exact Hfound.
    + apply hoare_ret. intros s' Hs'. split; [done|]. intros _ ?; congruence.
  - intros found. destruct found; cbn [negb];
      [|apply hoare_ret; by intros s' [? ?]].
    eapply hoare_bind;
      [apply hoare_reads; [unfold organization_name; reads_tac|by intros s' [? ?]]|].
    intros organizationName.
    eapply hoare_bind with (R := λ _, devices_refer).
    + intros s' [Hs' Hchecked]. unfold add.
      destruct (fields _) as [d|] eqn:Ed; [|done].
      destruct (coll s' devices !! newId); [done|].
      apply refer_set_device; [done|]. rewrite (fields_lookup _ _ _ Ed).
      by apply checked_known, Hchecked.
    + intros id. eapply hoare_bind; [apply hoare_reads; [apply reads_get|done]|].
      intros d. by apply hoare_ret.
Qed.

Lemma put_devices_refer (u : claims) (id : string) (body : doc) (s : db) :
  devices_refer s → devices_refer (put_devices_id now u id body s).2.
Proof.
  unfold put_devices_id. apply (hoare_try_catch devices_refer devices_refer).
  cbv zeta.
  eapply hoare_bind; [apply hoare_reads; [apply reads_get|done]|].
  intros [data|]; [|by apply hoare_ret].
  eapply hoare_bind; [apply hoare_reads; [reads_tac|done]|]. intros taken.
  destruct taken; [by apply hoare_ret|].
  eapply hoare_bind with
    (R := λ a s', devices_refer s'
                  ∧ ∀ l, a = Some l →
                         ∃ o, known s' o
                              ∧ ∀ acc, literal_last "organizationId" l acc
                                       = match o with Some _ => o | None => acc end).
  - unfold organization_assignment.
    destruct (defined (body !! "organizationId")) eqn:Hdef;
      [destruct (truthy_opt (body !! "organizationId")) eqn:Ht|].
    + eapply hoare_bind; [apply hoare_docRef; done|]. intros oid.
      eapply hoare_bind; [apply hoare_get|].
      intros [org|]; apply hoare_ret; intros s' [[Hs' [Hoid Hne]] Hdoc];
        (split; [done|]); intros l [= <-].
      exists (body !! "organizationId"). rewrite Hoid. split; [|done].
      intros v [= <-]. right. exists oid. by rewrite Hdoc.
    + apply hoare_ret. intros s' Hs'. split; [done|]. intros l [= <-].
      exists (Some VNull). split; [|done]. intros v [= <-]. by left.
    + apply hoare_ret. intros s' Hs'. split; [done|]. intros l [= <-].
      exists None. by split.
  - intros [orgData|]; [|apply hoare_ret; by intros s' [? ?]].
    eapply hoare_bind with (R := λ _, devices_refer).
    + intros s' [Hs' Horg]. destruct (Horg _ eq_refl) as (o & Ho & Hlast).
      unfold update. destruct (fields _) as [p|] eqn:Ep; [|done].
      destruct (coll s' devices !! id) as [old|] eqn:Eold; [|done].
      apply refer_merge; [done..|]. intros _.
      rewrite (fields_lookup _ _ _ Ep), literal_last_app, Hlast.
      destruct o; [done|].
      repeat (rewrite ?literal_last_app;
              repeat first [ rewrite literal_last_set_if_eq
                           | rewrite literal_last_set_if_ne by done ];
              cbn [literal_last]).
      by intros v.
    + intros []. eapply hoare_bind; [apply hoare_reads; [apply reads_get|done]|].
      intros d. by apply hoare_ret.
Qed.

Lemma bulk_assign_refer (u : claims) (body : doc) (s : db) :
  devices_refer s → devices_refer (post_devices_bulk_assign now u body s).2.
Proof.
  unfold post_devices_bulk_assign.
  apply (hoare_try_catch devices_refer devices_refer). cbv zeta.
  destruct (body !! "deviceIds") as [[| | | |[|i ids]|]|]; try by apply hoare_ret.
  eapply hoare_bind with
    (R := λ target s', devices_refer s'
                       ∧ (is_Some target → checked (body !! "organizationId") s')).
  - destruct (truthy_opt (body !! "organizationId")) eqn:Ht.
    + eapply hoare_bind; [apply hoare_docRef; done|]. intros oid.
      eapply hoare_bind; [apply hoare_get|].
      intros [org|]; apply hoare_ret; intros s' [[Hs' [Hoid Hne]] Hdoc];
        (split; [done|]); [|by intros []].
      intros _ _. exists oid. by rewrite Hdoc.
    + apply hoare_ret. intros s' Hs'. split; [done|]. intros _ ?; congruence.
  - intros [organizationName|]; [|apply hoare_ret; by intros s' [? ?]].
    eapply hoare_bind;
      [apply stage_devices_assign_to; [by intros s' [? ?]|constructor]|].
    intros r. apply hoare_pure. intros Hr.
    eapply hoare_bind; [eapply hoare_pre; [|by apply hoare_commit_refer]|].
    + intros s' [Hs' Hchecked]. split; [done|]. by apply checked_known, Hchecked.
    + intros []. by apply hoare_ret.
Qed.

(** Whatever the route, on a request whose ids are document ids: if the
    [organizationId] of every device is [null] or the id of an
    organization of the store before the request, it is so after it.  A
    device is given an organization only after the organization has been
    found, and an organization is deleted only when no device refers to
    it. *)
Theorem routes_keep_device_references
    (r : route) (u : claims) (query body : doc) (s : db) :
  document_ids r query body →
  devices_refer s → devices_refer (serve' r u query body s).2.
Proof.
  intros _.
  destruct r as [[]| | | | | |]; cbn [serve handle];
    try apply delete_organization_refer; try apply post_devices_refer;
    try apply put_devices_refer; try apply bulk_assign_refer;
    unfold_routes; apply keeps_try_catch; cbv zeta; repeat keeps_refer_step.
Qed.

End References.

Lemma devices_refer_example_store : devices_refer example_store.
Proof.
  intros i d.
  change (coll example_store devices)
    with (<["d1" := treadmill]> (∅ : gmap string doc)).
  intros [[<- <-]|[_ H]]%lookup_insert_Some; [|by rewrite lookup_empty in H].
  intros v [= <-]. right. exists "o1". split; [done|]. by eexists.
Qed.

Lemma routes_keep_device_references_witness :
  devices_refer
    (serve example_now "log-1" (λ v, v) (λ v, v) example_orderBy
       (Route (DELETE_organizations_id "o2")) u1 ∅ ∅ example_store).2.
Proof.
  apply routes_keep_device_references.
  - by repeat constructor.
  - exact devices_refer_example_store.
Defined.

(** ** The fields of a new record *)

(** The optional fields of a create and the value each gets when the
    body has none, or a falsy one. *)
Definition default_fields (e : endpoint) : list (string * value) :=
  match e with
  | POST_organizations =>
      [("phone", VStr ""); ("address", VStr ""); ("status", VStr "active")]
  | POST_devices =>
      [("model", VStr ""); ("manufacturer", VStr ""); ("organizationId", VNull);
       ("status", VStr "active"); ("location", VStr ""); ("ipAddress", VStr "");
       ("macAddress", VStr "")]
  | POST_gyms _ =>
      [("status", VStr "ACTIVE"); ("openingTime", VStr "");
       ("closingTime", VStr ""); ("amenities", VArr [])]
  | _ => []
  end.

(** The fields a create sets itself, whatever the body holds. *)
Definition fixed_fields (e : endpoint) : list (string * value) :=
  match e with
  | POST_gyms orgId =>
      [("members", VNum 0); ("monthlyRevenue", VNum 0);
       ("organizationId", VStr orgId)]
  | _ => []
  end.

Section CreateFields.
  Variable now : nat → string.
  Variable newId : string.
  Variable parseInt : value → value.
  Variable parseFloat : value → value.
  Variable orderBy_createdAt_desc : gmap string doc → value → outcome snapshot.

  #[local] Abbreviation handle' :=
    (handle now newId parseInt parseFloat orderBy_createdAt_desc).

(** What a create answered 201 has stored.  Every required field of the
    route was truthy in the body and is stored as it came (the capacity
    of a gym goes through [parseInt]).  Every optional field holds the
    body's value when that is truthy and its default otherwise: an empty
    string, status [active] ([ACTIVE] for a gym), no amenities, and
    [null] as the organization of a device.  A gym starts with no
    members and no revenue, and belongs to the organization of the
    request's path, whatever the body says. *)
Theorem post_field_rules
    (e : endpoint) (c : path) (reader : string → route) (req : list string)
    (u : claims) (query body : doc) (s : db) :
  creates (Route e) = Some (c, reader) →
  required e = Some req →
  status (handle' e u query body s).1 = 201 →
  ∃ d,
    coll (handle' e u query body s).2 c !! newId = Some d
    ∧ (∀ k, k ∈ req → truthy_opt (body !! k) = true
                      ∧ (k ≠ "capacity" → d !! k = body !! k))
    ∧ (∀ k v, (k, v) ∈ default_fields e → d !! k = Some (js_or (body !! k) v))
    ∧ (∀ k v, (k, v) ∈ fixed_fields e → d !! k = Some v).
Proof.
  intros Hc Hreq H201.
  destruct e; simplify_eq/=;
    unfold post_organizations, post_devices, post_gyms, organization_name in *;
    (apply try_catch_inv in H201 as (r' & s' & Hbody & -> & Hst); [|done|done]);
    cbv zeta in Hbody.
  all: repeat (back Hbody; try discriminate Hst).
  all: apply create_tail in Hbody as (d & Hd & Hfresh & -> & ->).
  all: exists d; cbn [snd]; rewrite coll_set_doc_same, lookup_insert_eq.
  all: split_and!; [done|..].
  all: try (intros k v Hk;
            repeat (apply elem_of_cons in Hk as [[= -> ->]|Hk]);
            [..|by apply elem_of_nil in Hk];
            by rewrite (fields_lookup _ _ _ Hd)).
  all: intros k Hk.
  1-2: repeat match goal with
              | H : _ || _ = false |- _ => apply orb_false_iff in H as [? ?]
              | H : negb _ = false |- _ => apply negb_false_iff in H
              end;
       each_member Hk; (split; [done|]); intros _;
       by rewrite (fields_lookup _ _ _ Hd).
  apply negb_false_iff, bool_decide_eq_true in Heqb.
  split.
  - destruct (truthy_opt (body !! k)) eqn:Hk'; [done|].
    assert (k ∈ missingFields body) as Hin by (by apply missingFields_elem).
    rewrite Heqb in Hin. by apply elem_of_nil in Hin.
  - intros Hcap. unfold requiredFields in Hk. each_member Hk; try done;
      by rewrite (fields_lookup _ _ _ Hd).
Qed.

End CreateFields.

(** A gym whose body claims another organization, and members. *)
Definition uptown_body : doc :=
  <["name" := VStr "Uptown"]> (<["address" := VStr "1 Main St"]>
  (<["phone" := VStr "555-0199"]> (<["email" := VStr "up@acme.com"]>
  (<["capacity" := VNum 80]> (<["manager" := VStr "Lee"]>
  (<["organizationId" := VStr "o2"]> (<["members" := VNum 500]> ∅))))))).

Lemma post_field_rules_witness :
  ∃ d,
    coll (post_gyms example_now "g2" (λ v, v) (λ v, v) u1 "o1" uptown_body
            example_store).2 (gyms "o1") !! "g2" = Some d
    ∧ d !! "organizationId" = Some (VStr "o1")
    ∧ d !! "members" = Some (VNum 0)
    ∧ d !! "status" = Some (VStr "ACTIVE")
    ∧ d !! "manager" = Some (VStr "Lee").
Proof.
  destruct (post_field_rules example_now "g2" (λ v, v) (λ v, v) example_orderBy
              (POST_gyms "o1") (gyms "o1") (GET_gyms_id "o1") requiredFields
              u1 ∅ uptown_body example_store)
    as (d & Hd & Hreq & Hdef & Hfix); [reflexivity|reflexivity|reflexivity|].
  assert (∀ {A : Type} (x : A) (l : list A), In x l → x ∈ l) as Hin
    by (intros A x l; apply list_elem_of_In).
  exists d. split_and!; [exact Hd|..].
  - apply Hfix, Hin. cbn. tauto.
  - apply Hfix, Hin. cbn. tauto.
  - rewrite (Hdef "status" (VStr "ACTIVE")); [reflexivity|]. apply Hin. cbn. tauto.
  - destruct (Hreq "manager") as [_ Hm]; [apply Hin; cbn; tauto|].
    rewrite Hm; [reflexivity|done].
Defined.

Lemma docRef_inv (v : option value) (s s' : db) (ref : string) :
  docRef v s = (Ok ref, s') → v = Some (VStr ref) ∧ ref ≠ "" ∧ s' = s.
Proof.
  unfold docRef. destruct v as [[| | |i| |]|]; try done.
  destruct (String.eqb i "") eqn:Ei; [done|].
  apply String.eqb_neq in Ei. by intros [= <- <-].
Qed.

Section CreateDevice.
  Variable now : nat → string.
  Variable newId : string.

(** A device created with a truthy [organizationId] that is not a string
    with a slash carries the id of an organization that exists and, as
    [organizationName], the name that organization has at that moment; a
    device created without one is [Unassigned], with [null] as its
    organization. *)
Theorem post_device_assignment (u : claims) (body : doc) (s : db) :
  (∀ v, body !! "organizationId" = Some v → slash_free v) →
  status (post_devices now newId u body s).1 = 201 →
  ∃ d,
    coll (post_devices now newId u body s).2 devices !! newId = Some d
    ∧ if truthy_opt (body !! "organizationId") then
        ∃ oid org name,
          body !! "organizationId" = Some (VStr oid)
          ∧ coll s organizations !! oid = Some org
          ∧ org !! "name" = Some name
          ∧ d !! "organizationId" = Some (VStr oid)
          ∧ d !! "organizationName" = Some name
      else
        d !! "organizationId" = Some VNull
        ∧ d !! "organizationName" = Some (VStr "Unassigned").
Proof.
  intros _ H201. unfold post_devices, organization_name in *.
  apply try_catch_inv in H201 as (r' & s' & Hbody & -> & Hst); [|done|done].
  cbv zeta in Hbody.
  repeat (back Hbody; try discriminate Hst).
  all: apply create_tail in Hbody as (d & Hd & Hfresh & -> & ->).
  all: exists d; cbn [snd]; rewrite coll_set_doc_same, lookup_insert_eq.
  all: split; [done|].
  destruct (truthy_opt (body !! "organizationId")) eqn:Ht.
  - apply bind_inv in Hm1 as (oid & s1 & Href & Hm1).
    apply docRef_inv in Href as (Hoid & Hne & ->).
    rewrite bind_get in Hm1. injection Hm1 as <-.
    assert (is_Some (coll s organizations !! oid ≫= λ o : doc, o !! "name"))
      as [name Hname].
    { apply (fields_go_defined _ _ _ Hd "organizationName").
      repeat first [apply list_elem_of_here | apply list_elem_of_further]. }
    destruct (coll s organizations !! oid) as [org|] eqn:Eorg; [|done].
    exists oid, org, name. rewrite !(fields_lookup _ _ _ Hd).
    split_and!; [done..| |exact Hname].
    transitivity (Some (js_or (body !! "organizationId") VNull)); [done|].
    rewrite Hoid in Ht |- *. cbn [truthy_opt] in Ht. cbn [js_or]. by rewrite Ht.
  - injection Hm1 as <-. rewrite !(fields_lookup _ _ _ Hd). split; [|done].
    transitivity (Some (js_or (body !! "organizationId") VNull)); [done|].
    destruct (body !! "organizationId") as [v|]; [|done].
    cbn [truthy_opt] in Ht. cbn [js_or]. by rewrite Ht.
Qed.

End CreateDevice.

(** A treadmill for Beta. *)
Definition beta_treadmill : doc :=
  <["deviceName" := VStr "Treadmill 9"]> (<["type" := VStr "treadmill"]>
  (<["serialNumber" := VStr "SN-9"]> (<["organizationId" := VStr "o2"]> ∅))).

Lemma post_device_assignment_witness :
  ∃ d,
    coll (post_devices example_now "d9" u1 beta_treadmill example_store).2
      devices !! "d9" = Some d
    ∧ d !! "organizationName" = Some (VStr "Beta").
Proof.
  destruct (post_device_assignment example_now "d9" u1 beta_treadmill
              example_store) as (d & Hd & Horg);
    [by intros v [= <-] oid [= <-]|reflexivity|].
  exists d. split; [exact Hd|].
  change (truthy_opt (beta_treadmill !! "organizationId")) with true in Horg.
  destruct Horg as (oid & org & name & Hoid & Horg & Hname & _ & Hd').
  injection Hoid as <-.
  change (coll example_store organizations !! "o2") with (Some beta) in Horg.
  injection Horg as <-. rewrite Hd', <- Hname. reflexivity.
Defined.

(** ** What the list routes return *)

(** The collection a list route lists, for a query string that asks for
    a list. *)
Definition lists (r : route) (query : doc) : option path :=
  match r with
  | Route GET_organizations =>
      if truthy_opt (query !! "organizationId") then None else Some organizations
  | GET_devices => Some devices
  | Route (GET_gyms orgId) => Some (gyms orgId)
  | _ => None
  end.

Section Lists.
  Variable now : nat → string.
  Variable newId : string.
  Variable parseInt : value → value.
  Variable parseFloat : value → value.
  Variable orderBy_createdAt_desc : gmap string doc → value → outcome snapshot.

  Hypothesis query_sound :
    ∀ c n q, orderBy_createdAt_desc c n = Ok q →
             ∀ i d, (i, d) ∈ q → c !! i = Some d.

  #[local] Abbreviation serve' :=
    (serve now newId parseInt parseFloat orderBy_createdAt_desc).


End Lists.

